(** * improxy: a shallow embedding of the image proxy's core

    The development follows the Go sources package by package:
    - [imageproxy/image_utils.go]  : the origin-cache record [ImageWithMeta];
    - [media_utils] (signer)       : aligned expiry, token signing and verification;
    - [imageproxy] (request data)  : the option DSL, request normalisation;
    - [imageproxy/transform.go]    : format selection and resize geometry;
    - [imageproxy] (front handler) : access control and 304 emission;
    - [cache/diskv]                : the in-memory hot cache of the disk store,
                                     call by call and critical section by
                                     critical section;
    - [cache/diskcache]            : the file names and the calls of the disk cache;
    - [cache] (httpcache.go)       : cache keys and the Cache-Control directives.

    Go values are embedded as follows.  A [string] and a [[]byte] are byte
    sequences: [string] and [list ascii].  Fixed-width integers are [Z] with
    the wrap-around of every arithmetic operation written out.  A [float64]
    is a [spec_float] at precision 53 and maximal exponent 1024.  A runtime
    panic and an [error] result are explicit outcomes. *)

From Stdlib Require Import ZArith Lia String Ascii List Bool.
From Stdlib Require Import Decimal DecimalString DecimalZ DecimalPos.
From Stdlib Require Import Floats.SpecFloat.
From stdpp Require Import gmap strings.
Import ListNotations.
Local Open Scope Z_scope.

(** ** Go runtime values *)

(** The outcome of a Go call that returns a value and an [error]: the value
    with a nil error, a non-nil error, or a runtime panic. *)
Inductive result (A : Type) : Type :=
| Ok (a : A)
| Err (msg : string)
| Panic.
Arguments Ok {A} a.
Arguments Err {A} msg.
Arguments Panic {A}.

(** Bytes.  [byte(v)] keeps the low eight bits of an integer. *)
Definition byte_of_Z (z : Z) : ascii := ascii_of_N (Z.to_N (z mod 256)).
Definition Z_of_byte (a : ascii) : Z := Z.of_N (N_of_ascii a).

(** Conversions to the unsigned types. *)
Definition uint16 (z : Z) : Z := z mod 2 ^ 16.
Definition uint32 (z : Z) : Z := z mod 2 ^ 32.
Definition uint64 (z : Z) : Z := z mod 2 ^ 64.

(** Two's complement wrap-around of a signed 64-bit result. *)
Definition int64 (z : Z) : Z := (z + 2 ^ 63) mod 2 ^ 64 - 2 ^ 63.

(** [len(s)] as a Go [int]. *)
Definition len {A} (l : list A) : Z := Z.of_nat (length l).

(** The slice expression [s[lo:hi]].  Out of range bounds panic ([None]). *)
Definition slice {A} (s : list A) (lo hi : Z) : option (list A) :=
  if (0 <=? lo) && (lo <=? hi) && (hi <=? len s)
  then Some (firstn (Z.to_nat (hi - lo)) (skipn (Z.to_nat lo) s))
  else None.

(** [s[lo:]] is [s[lo:len(s)]]. *)
Definition slice_from {A} (s : list A) (lo : Z) : option (list A) :=
  slice s lo (len s).

(** [[]byte(s)] and [string(b)]. *)
Definition bytes_of_string (s : string) : list ascii := list_ascii_of_string s.
Definition string_of_bytes (b : list ascii) : string := string_of_list_ascii b.

(** ** imageproxy/image_utils.go : the origin-cache entry *)

Module ImageMeta.

Record ImageWithMeta := {
  Headers : list ascii;
  Image : list ascii
}.

(** [binary.BigEndian.PutUint16(b, v)]: [b[0] = byte(v >> 8); b[1] = byte(v)]. *)
Definition PutUint16 (v : Z) : list ascii :=
  [byte_of_Z (Z.shiftr v 8); byte_of_Z v].

(** [binary.BigEndian.Uint16(b)]: [uint16(b[1]) | uint16(b[0])<<8]. *)
Definition Uint16 (b0 b1 : ascii) : Z :=
  Z.lor (Z_of_byte b1) (Z.shiftl (Z_of_byte b0) 8).

(** [func (this *ImageWithMeta) Bytes() []byte] *)
Definition Bytes (this : ImageWithMeta) : list ascii :=
  let lengthBytes := PutUint16 (uint16 (len (Headers this))) in
  lengthBytes ++ Headers this ++ Image this.

(** [func NewImageWithMetaFromCache(data []byte) *ImageWithMeta].

    [headLength] has type [uint16], hence so has [2 + headLength]: the sum
    wraps at 2^16.  Every slice expression that is out of range panics; the
    result is [None] then.  ([data[0:2]] on a slice shorter than two bytes
    either panics at once or, when the slice has spare capacity, lets one of
    the two later expressions panic, since their bound then exceeds
    [len(data)] or falls below 2.) *)
Definition NewImageWithMetaFromCache (data : list ascii) : option ImageWithMeta :=
  match slice data 0 2 with
  | Some [b0; b1] =>
      let headLength := Uint16 b0 b1 in
      match slice data 2 (uint16 (2 + headLength)),
            slice_from data (uint16 (2 + headLength)) with
      | Some h, Some i => Some {| Headers := h; Image := i |}
      | _, _ => None
      end
  | _ => None
  end.

End ImageMeta.

(** ** Go standard library functions used by the sources

    These are models of library code ([strings], [strconv], [fmt],
    [encoding/base64], [hash/crc32], [crypto/sha256], [crypto/hmac],
    [net/url] escaping), written from the library's documented behaviour. *)

Module strings.

Local Open Scope string_scope.

(** [strings.HasPrefix(s, prefix)] *)
Fixpoint HasPrefix (s prefix : string) {struct prefix} : bool :=
  match prefix, s with
  | EmptyString, _ => true
  | String c p, String d s' => Ascii.eqb c d && HasPrefix s' p
  | String _ _, EmptyString => false
  end.

(** [s[n:]] for [n <= len(s)]. *)
Fixpoint drop (n : nat) (s : string) : string :=
  match n, s with
  | O, _ => s
  | S n', String _ s' => drop n' s'
  | S _, EmptyString => EmptyString
  end.

(** [s[:n]] for [n <= len(s)]. *)
Fixpoint take (n : nat) (s : string) : string :=
  match n, s with
  | O, _ => EmptyString
  | S n', String c s' => String c (take n' s')
  | S _, EmptyString => EmptyString
  end.

(** [strings.TrimPrefix(s, prefix)] *)
Definition TrimPrefix (s prefix : string) : string :=
  if HasPrefix s prefix then drop (String.length prefix) s else s.

(** [strings.HasSuffix(s, suffix)] *)
Definition HasSuffix (s suffix : string) : bool :=
  (String.length suffix <=? String.length s)%nat &&
  String.eqb (drop (String.length s - String.length suffix) s) suffix.

(** [strings.Index(s, substr)]: the first position of [substr], if any. *)
Fixpoint Index (s substr : string) : option nat :=
  if HasPrefix s substr then Some O
  else match s with
       | EmptyString => None
       | String _ s' => option_map S (Index s' substr)
       end.

(** [strings.Contains(s, substr)] *)
Definition Contains (s substr : string) : bool :=
  match Index s substr with Some _ => true | None => false end.

(** [strings.LastIndex(s, substr)]: the last position of [substr], if any. *)
Fixpoint LastIndex (s substr : string) : option nat :=
  match s with
  | EmptyString => if HasPrefix s substr then Some O else None
  | String _ s' =>
      match LastIndex s' substr with
      | Some i => Some (S i)
      | None => if HasPrefix s substr then Some O else None
      end
  end.

(** The scan shared by [Split] and [SplitN] for a non-empty separator:
    [limit] is the number of further cuts allowed ([None]: unbounded),
    [skip] the number of separator bytes still to pass over and [cur] the
    piece read so far, reversed. *)
Fixpoint split_scan (sep : string) (limit : option nat) (skip : nat)
    (cur : list ascii) (s : string) : list string :=
  match s with
  | EmptyString => [string_of_list_ascii (rev cur)]
  | String c s' =>
      match skip with
      | S k => split_scan sep limit k cur s'
      | O =>
          let cut := match limit with Some O => false | _ => HasPrefix s sep end in
          if cut
          then string_of_list_ascii (rev cur)
               :: split_scan sep (option_map Nat.pred limit)
                    (String.length sep - 1) [] s'
          else split_scan sep limit O (c :: cur) s'
      end
  end.

(** [strings.SplitN(s, sep, n)] for a non-empty [sep]: at most [n] pieces
    when [n > 0], no piece when [n = 0], all pieces when [n < 0]. *)
Definition SplitN (s sep : string) (n : Z) : list string :=
  if (n =? 0)%Z then []
  else split_scan sep (if (n <? 0)%Z then None else Some (Z.to_nat n - 1)%nat) O [] s.

(** [strings.Split(s, sep)] is [SplitN(s, sep, -1)]. *)
Definition Split (s sep : string) : list string := SplitN s sep (-1).

(** [strings.Replace(s, old, new, -1)] for a one-byte [old]. *)
Fixpoint ReplaceAll1 (s : string) (old : ascii) (new : string) : string :=
  match s with
  | EmptyString => EmptyString
  | String c s' =>
      if Ascii.eqb c old then new ++ ReplaceAll1 s' old new
      else String c (ReplaceAll1 s' old new)
  end.

End strings.

Module strconv.

Local Open Scope string_scope.

(** [fmt]'s [%d] and [strconv.Itoa] on an integer. *)
Definition Itoa (z : Z) : string := NilZero.string_of_int (Z.to_int z).

Definition MaxInt64 : Z := 2 ^ 63 - 1.
Definition MinInt64 : Z := - 2 ^ 63.

(** Digits of an unsigned decimal literal; [None] on any other byte and on
    the empty string. *)
Definition parse_digits (s : string) : option Z :=
  match s with
  | EmptyString => None
  | _ => option_map Z.of_uint (NilEmpty.uint_of_string s)
  end.

(** [strconv.Atoi(s)]: the value and whether [err == nil].  A syntax error
    yields 0, a range error the nearest bound of the 64-bit [int]. *)
Definition Atoi (s : string) : Z * bool :=
  let '(neg, digits) :=
    match s with
    | String "+" r => (false, r)
    | String "-" r => (true, r)
    | _ => (false, s)
    end in
  match parse_digits digits with
  | None => (0%Z, false)
  | Some u =>
      if neg
      then (if (u <=? 2 ^ 63)%Z then ((- u)%Z, true) else (MinInt64, false))
      else (if (u <=? MaxInt64)%Z then (u, true) else (MaxInt64, false))
  end.

End strconv.

Module binary.

(** [binary.BigEndian.PutUint32(b, v)] *)
Definition PutUint32 (v : Z) : list ascii :=
  [byte_of_Z (Z.shiftr v 24); byte_of_Z (Z.shiftr v 16);
   byte_of_Z (Z.shiftr v 8); byte_of_Z v].

(** [binary.BigEndian.Uint32(b)] on a four-byte slice; a shorter slice
    panics in Go and is never passed by the callers below. *)
Definition Uint32 (b : list ascii) : Z :=
  match b with
  | [b0; b1; b2; b3] =>
      Z.lor (Z.lor (Z.lor (Z_of_byte b3) (Z.shiftl (Z_of_byte b2) 8))
                   (Z.shiftl (Z_of_byte b1) 16))
            (Z.shiftl (Z_of_byte b0) 24)
  | _ => 0
  end.

(** [binary.BigEndian.PutUint64(b, v)] *)
Definition PutUint64 (v : Z) : list ascii :=
  PutUint32 (Z.shiftr v 32) ++ PutUint32 v.

End binary.

Module base64.

(** The alphabet of [base64.RawURLEncoding]; there is no padding. *)
Definition encodeURL : list ascii :=
  list_ascii_of_string
    "ABCDEFGHIJKLMNOPQRSTUVWXYZabcdefghijklmnopqrstuvwxyz0123456789-_".

(** [enc.encode[v & 0x3F]] *)
Definition encode (v : Z) : ascii :=
  nth (Z.to_nat (Z.land v 63)) encodeURL "A"%char.

(** [Encoding.Encode]: three bytes give four characters; a remainder of
    one or two bytes gives two or three. *)
Fixpoint Encode (src : list ascii) : list ascii :=
  match src with
  | a :: b :: c :: rest =>
      let val := Z.lor (Z.lor (Z.shiftl (Z_of_byte a) 16)
                              (Z.shiftl (Z_of_byte b) 8)) (Z_of_byte c) in
      encode (Z.shiftr val 18) :: encode (Z.shiftr val 12)
        :: encode (Z.shiftr val 6) :: encode val :: Encode rest
  | [a; b] =>
      let val := Z.lor (Z.shiftl (Z_of_byte a) 16) (Z.shiftl (Z_of_byte b) 8) in
      [encode (Z.shiftr val 18); encode (Z.shiftr val 12); encode (Z.shiftr val 6)]
  | [a] =>
      let val := Z.shiftl (Z_of_byte a) 16 in
      [encode (Z.shiftr val 18); encode (Z.shiftr val 12)]
  | [] => []
  end.

Definition EncodeToString (src : list ascii) : string :=
  string_of_list_ascii (Encode src).

(** [enc.decodeMap[c]]: the position of [c] in the alphabet. *)
Fixpoint index_of (c : ascii) (l : list ascii) (i : Z) : option Z :=
  match l with
  | [] => None
  | d :: l' => if Ascii.eqb c d then Some i else index_of c l' (i + 1)
  end.

Definition decodeMap (c : ascii) : option Z := index_of c encodeURL 0.

(** One quantum: four six-bit values give three bytes.  At the end of the
    input three values give two bytes, two give one, and a single left-over
    value is corrupt input. *)
Fixpoint decodeQuanta (vs : list Z) : option (list ascii) :=
  match vs with
  | s0 :: s1 :: s2 :: s3 :: rest =>
      let val := Z.lor (Z.lor (Z.lor (Z.shiftl s0 18) (Z.shiftl s1 12))
                              (Z.shiftl s2 6)) s3 in
      option_map
        (fun r => byte_of_Z (Z.shiftr val 16) :: byte_of_Z (Z.shiftr val 8)
                    :: byte_of_Z val :: r)
        (decodeQuanta rest)
  | [s0; s1; s2] =>
      let val := Z.lor (Z.lor (Z.shiftl s0 18) (Z.shiftl s1 12)) (Z.shiftl s2 6) in
      Some [byte_of_Z (Z.shiftr val 16); byte_of_Z (Z.shiftr val 8)]
  | [s0; s1] =>
      let val := Z.lor (Z.shiftl s0 18) (Z.shiftl s1 12) in
      Some [byte_of_Z (Z.shiftr val 16)]
  | [_] => None
  | [] => Some []
  end.

(** Every character outside the alphabet is corrupt input, except carriage
    return and line feed, which the decoder skips. *)
Fixpoint decodeChars (cs : list ascii) : option (list Z) :=
  match cs with
  | [] => Some []
  | c :: cs' =>
      match decodeMap c with
      | Some v => option_map (cons v) (decodeChars cs')
      | None =>
          if Ascii.eqb c "010"%char || Ascii.eqb c "013"%char
          then decodeChars cs'
          else None
      end
  end.

(** [base64.RawURLEncoding.DecodeString(s)]; [None] when [err != nil]. *)
Definition DecodeString (s : string) : option (list ascii) :=
  match decodeChars (list_ascii_of_string s) with
  | Some vs => decodeQuanta vs
  | None => None
  end.

End base64.

Module crc32.

(** One step of the reflected CRC-32 with the IEEE polynomial. *)
Definition shift1 (crc : Z) : Z :=
  if Z.testbit crc 0 then Z.lxor (Z.shiftr crc 1) 0xEDB88320
  else Z.shiftr crc 1.

Definition update (crc : Z) (b : ascii) : Z :=
  Nat.iter 8 shift1 (Z.lxor crc (Z_of_byte b)).

(** [crc32.ChecksumIEEE(data)], a [uint32]. *)
Definition ChecksumIEEE (data : list ascii) : Z :=
  uint32 (Z.lxor (fold_left update data 0xFFFFFFFF) 0xFFFFFFFF).

End crc32.

Module sha256.

(** SHA-256 (FIPS 180-4) on 32-bit words held in [Z]. *)

Definition add32 (x y : Z) : Z := uint32 (x + y).
Definition rotr (n x : Z) : Z :=
  Z.lor (Z.shiftr x n) (uint32 (Z.shiftl x (32 - n))).
Definition Ch (x y z : Z) : Z :=
  Z.lxor (Z.land x y) (Z.land (uint32 (Z.lnot x)) z).
Definition Maj (x y z : Z) : Z :=
  Z.lxor (Z.lxor (Z.land x y) (Z.land x z)) (Z.land y z).
Definition Sigma0 (x : Z) : Z := Z.lxor (Z.lxor (rotr 2 x) (rotr 13 x)) (rotr 22 x).
Definition Sigma1 (x : Z) : Z := Z.lxor (Z.lxor (rotr 6 x) (rotr 11 x)) (rotr 25 x).
Definition sigma0 (x : Z) : Z := Z.lxor (Z.lxor (rotr 7 x) (rotr 18 x)) (Z.shiftr x 3).
Definition sigma1 (x : Z) : Z := Z.lxor (Z.lxor (rotr 17 x) (rotr 19 x)) (Z.shiftr x 10).

Definition K : list Z :=
  0x428a2f98 :: 0x71374491 :: 0xb5c0fbcf :: 0xe9b5dba5 ::
  0x3956c25b :: 0x59f111f1 :: 0x923f82a4 :: 0xab1c5ed5 ::
  0xd807aa98 :: 0x12835b01 :: 0x243185be :: 0x550c7dc3 ::
  0x72be5d74 :: 0x80deb1fe :: 0x9bdc06a7 :: 0xc19bf174 ::
  0xe49b69c1 :: 0xefbe4786 :: 0x0fc19dc6 :: 0x240ca1cc ::
  0x2de92c6f :: 0x4a7484aa :: 0x5cb0a9dc :: 0x76f988da ::
  0x983e5152 :: 0xa831c66d :: 0xb00327c8 :: 0xbf597fc7 ::
  0xc6e00bf3 :: 0xd5a79147 :: 0x06ca6351 :: 0x14292967 ::
  0x27b70a85 :: 0x2e1b2138 :: 0x4d2c6dfc :: 0x53380d13 ::
  0x650a7354 :: 0x766a0abb :: 0x81c2c92e :: 0x92722c85 ::
  0xa2bfe8a1 :: 0xa81a664b :: 0xc24b8b70 :: 0xc76c51a3 ::
  0xd192e819 :: 0xd6990624 :: 0xf40e3585 :: 0x106aa070 ::
  0x19a4c116 :: 0x1e376c08 :: 0x2748774c :: 0x34b0bcb5 ::
  0x391c0cb3 :: 0x4ed8aa4a :: 0x5b9cca4f :: 0x682e6ff3 ::
  0x748f82ee :: 0x78a5636f :: 0x84c87814 :: 0x8cc70208 ::
  0x90befffa :: 0xa4506ceb :: 0xbef9a3f7 :: 0xc67178f2 ::
  [].

Record state := {
  ha : Z; hb : Z; hc : Z; hd : Z; he : Z; hf : Z; hg : Z; hh : Z
}.

Definition init : state :=
  {| ha := 0x6a09e667; hb := 0xbb67ae85; hc := 0x3c6ef372; hd := 0xa54ff53a;
     he := 0x510e527f; hf := 0x9b05688c; hg := 0x1f83d9ab; hh := 0x5be0cd19 |}.

(** The message schedule, most recent word first: from the sixteen words
    of a block, [n] further words. *)
Fixpoint schedule (n : nat) (ws : list Z) : list Z :=
  match n with
  | O => ws
  | S n' =>
      let w := add32 (add32 (add32 (sigma1 (nth 1 ws 0)) (nth 6 ws 0))
                            (sigma0 (nth 14 ws 0))) (nth 15 ws 0) in
      schedule n' (w :: ws)
  end.

Definition round (s : state) (kw : Z * Z) : state :=
  let '(k, w) := kw in
  let T1 := add32 (add32 (add32 (add32 (hh s) (Sigma1 (he s)))
                                (Ch (he s) (hf s) (hg s))) k) w in
  let T2 := add32 (Sigma0 (ha s)) (Maj (ha s) (hb s) (hc s)) in
  {| ha := add32 T1 T2; hb := ha s; hc := hb s; hd := hc s;
     he := add32 (hd s) T1; hf := he s; hg := hf s; hh := hg s |}.

(** The big-endian words of a block. *)
Fixpoint words (b : list ascii) : list Z :=
  match b with
  | b0 :: b1 :: b2 :: b3 :: rest => binary.Uint32 [b0; b1; b2; b3] :: words rest
  | _ => []
  end.

Definition block (s : state) (b : list ascii) : state :=
  let ws := rev (schedule 48 (rev (words b))) in
  let t := fold_left round (combine K ws) s in
  {| ha := add32 (ha s) (ha t); hb := add32 (hb s) (hb t);
     hc := add32 (hc s) (hc t); hd := add32 (hd s) (hd t);
     he := add32 (he s) (he t); hf := add32 (hf s) (hf t);
     hg := add32 (hg s) (hg t); hh := add32 (hh s) (hh t) |}.

(** The padded message: a one bit, zeros up to 56 modulo 64 bytes, and the
    bit length on eight bytes. *)
Definition pad (msg : list ascii) : list ascii :=
  let n := len msg in
  msg ++ [byte_of_Z 0x80]
      ++ repeat (byte_of_Z 0) (Z.to_nat ((55 - n) mod 64))
      ++ binary.PutUint64 (8 * n).

Fixpoint blocks (fuel : nat) (s : state) (data : list ascii) : state :=
  match fuel, data with
  | S fuel', _ :: _ => blocks fuel' (block s (firstn 64 data)) (skipn 64 data)
  | _, _ => s
  end.

(** [sha256.Sum256(msg)] as a 32-byte slice. *)
Definition Sum256 (msg : list ascii) : list ascii :=
  let data := pad msg in
  let s := blocks (length data) init data in
  binary.PutUint32 (ha s) ++ binary.PutUint32 (hb s) ++ binary.PutUint32 (hc s)
    ++ binary.PutUint32 (hd s) ++ binary.PutUint32 (he s) ++ binary.PutUint32 (hf s)
    ++ binary.PutUint32 (hg s) ++ binary.PutUint32 (hh s).

End sha256.

Module hmac.

Definition xor_byte (p : Z) (b : ascii) : ascii :=
  byte_of_Z (Z.lxor (Z_of_byte b) p).

(** [hmac.New(sha256.New, key)] followed by [Write(msg)] and [Sum(nil)]:
    HMAC-SHA256 (RFC 2104) with the 64-byte block of SHA-256. *)
Definition Sum (key msg : list ascii) : list ascii :=
  let key := if 64 <? len key then sha256.Sum256 key else key in
  let key := key ++ repeat (byte_of_Z 0) (64 - length key) in
  sha256.Sum256 (map (xor_byte 0x5c) key
                   ++ sha256.Sum256 (map (xor_byte 0x36) key ++ msg)).

(** [hmac.Equal(mac1, mac2)]: equality of the two byte slices. *)
Fixpoint Equal (mac1 mac2 : list ascii) : bool :=
  match mac1, mac2 with
  | [], [] => true
  | a :: m1, b :: m2 => Ascii.eqb a b && Equal m1 m2
  | _, _ => false
  end.

End hmac.

(** ** config : process-wide settings read at start-up

    The Go code keeps them in package variables; here they are passed to the
    functions that read them. *)

Module config.

Record t := {
  SimpleKey : list ascii;   (* []byte *)
  MagicNum : Z              (* int64 *)
}.

End config.

(** ** media_utils : URL signing (unnamed/part_000) *)

Module media_utils.

Local Open Scope string_scope.

Definition ParamVersionTs : string := "ts".
Definition ParamToken : string := "tk".

Definition ImageFormatPng : string := "png".
Definition ImageFormatWebp : string := "webp".
Definition ImageFormatJpeg : string := "jpeg".
Definition ImageFormatJpg : string := "jpg".
Definition ImageFormatGif : string := "gif".

Definition ContentTypeJPEG : string := "image/jpeg".
Definition ContentTypePNG : string := "image/png".
Definition ContentTypeGIF : string := "image/gif".
Definition ContentTypeWebp : string := "image/webp".

(** [func GenerateAlignedExpire(key string, expiresSeconds int64) int64].
    [now] is [time.Now().Unix()].  Every [int64] addition, subtraction and
    multiplication wraps; [/] and [%] truncate towards zero. *)
Definition GenerateAlignedExpire (now : Z) (key : string) (expiresSeconds : Z) : Z :=
  let expiresSeconds :=
    if (expiresSeconds <? 3600 * 24)%Z then (3600 * 24)%Z else expiresSeconds in
  let offset := Z.rem (crc32.ChecksumIEEE (bytes_of_string key)) expiresSeconds in
  let alignedExpire :=
    int64 (int64 (Z.quot (int64 (int64 (now + expiresSeconds) - 1)) expiresSeconds
                  * expiresSeconds) + offset) in
  if (int64 (alignedExpire - now) <? expiresSeconds)%Z
  then int64 (alignedExpire + expiresSeconds)
  else alignedExpire.

(** [func SimpleToken(path, ts, oe string) []byte] *)
Definition SimpleToken (cfg : config.t) (path ts oe : string) : list ascii :=
  let written :=
    if (0 <? Z.of_nat (String.length ts))%Z
    then (bytes_of_string path ++ bytes_of_string ("?ts=" ++ ts)
           ++ bytes_of_string ("&oe=" ++ oe))%list
    else (bytes_of_string path ++ bytes_of_string ("?oe=" ++ oe))%list in
  hmac.Sum (config.SimpleKey cfg) written.

(** [func SimpleTimeToStr(time int64) (string, []byte)] *)
Definition SimpleTimeToStr (cfg : config.t) (time : Z) : string * list ascii :=
  let expires := binary.PutUint32 (uint32 (Z.lxor time (config.MagicNum cfg))) in
  (base64.EncodeToString expires, expires).

(** [func SimpleTimeByteToStr(time []byte) string] *)
Definition SimpleTimeByteToStr (time : list ascii) : string :=
  base64.EncodeToString time.

(** [path[1:]] when [path] starts with a slash. *)
Definition stripSlash (path : string) : string :=
  if strings.HasPrefix path "/" then strings.drop 1 path else path.

(** The local [token] of [SimpleSignUrlWithTime]. *)
Definition signToken (cfg : config.t) (path ts : string) (time : Z) : string :=
  let path := stripSlash path in
  let '(oe, oeBytes) := SimpleTimeToStr cfg time in
  let want := SimpleToken cfg path ts oe in
  let want := (want ++ oeBytes)%list in
  base64.EncodeToString want.

(** [func SimpleSignUrlWithTime(path, ts string, time int64) string] *)
Definition SimpleSignUrlWithTime (cfg : config.t) (path ts : string) (time : Z) : string :=
  let token := signToken cfg path ts time in
  let path := stripSlash path in
  if (0 <? Z.of_nat (String.length ts))%Z
  then path ++ "?ts=" ++ ts ++ "&tk=" ++ token
  else path ++ "?tk=" ++ token.


(** [func SimpleVerify(path, ts string, token string, checkExpire bool) bool].
    [now] is [time.Now().Unix()]. *)
Definition SimpleVerify (cfg : config.t) (now : Z) (path ts token : string)
    (checkExpire : bool) : bool :=
  let path := stripSlash path in
  match base64.DecodeString token with
  | None => false
  | Some tokenBytes =>
      if (len tokenBytes <? 5)%Z then false
      else
        let n := length tokenBytes in
        let tail := skipn (n - 4) tokenBytes in
        let expireTime :=
          Z.lxor (binary.Uint32 tail) (uint32 (config.MagicNum cfg)) in
        if checkExpire && (now >? expireTime)%Z then false
        else
          let oe := SimpleTimeByteToStr tail in
          let want := SimpleToken cfg path ts oe in
          hmac.Equal (firstn (n - 4) tokenBytes) want
  end.

End media_utils.

(** ** net/url and net/http data *)

Module url.

Local Open Scope string_scope.

(** The fields of [url.URL] that the sources read or write. *)
Record URL := {
  Scheme : string;
  Host : string;
  Path : string;
  RawQuery : string;
  Fragment : string
}.

(** [u.IsAbs()] *)
Definition IsAbs (u : URL) : bool := negb (String.eqb (Scheme u) "").

Definition set_RawQuery (u : URL) (q : string) : URL :=
  {| Scheme := Scheme u; Host := Host u; Path := Path u;
     RawQuery := q; Fragment := Fragment u |}.

Definition set_Fragment (u : URL) (f : string) : URL :=
  {| Scheme := Scheme u; Host := Host u; Path := Path u;
     RawQuery := RawQuery u; Fragment := f |}.

Definition ishex (c : ascii) : bool :=
  let n := Z_of_byte c in
  ((48 <=? n) && (n <=? 57) || (97 <=? n) && (n <=? 102)
   || (65 <=? n) && (n <=? 70))%Z.

Definition unhex (c : ascii) : Z :=
  let n := Z_of_byte c in
  if ((48 <=? n) && (n <=? 57))%Z then (n - 48)%Z
  else if ((97 <=? n) && (n <=? 102))%Z then (n - 97 + 10)%Z
  else if ((65 <=? n) && (n <=? 70))%Z then (n - 65 + 10)%Z
  else 0%Z.

(** [url.QueryUnescape(s)]: [%XX] is a byte, [+] a space; [None] when a
    percent sign is not followed by two hexadecimal digits. *)
Fixpoint QueryUnescape (s : string) : option string :=
  match s with
  | EmptyString => Some EmptyString
  | String "%" (String h (String l r)) =>
      if ishex h && ishex l
      then option_map (String (byte_of_Z (Z.lor (Z.shiftl (unhex h) 4) (unhex l))))
                      (QueryUnescape r)
      else None
  | String "%" _ => None
  | String "+" r => option_map (String " ") (QueryUnescape r)
  | String c r => option_map (String c) (QueryUnescape r)
  end.

(** [shouldEscape(c, encodeQueryComponent)]: letters, digits and the marks
    [-_.~] are kept, every other byte is escaped. *)
Definition shouldEscape (c : ascii) : bool :=
  let n := Z_of_byte c in
  negb (((97 <=? n) && (n <=? 122) || (65 <=? n) && (n <=? 90)
         || (48 <=? n) && (n <=? 57))%Z
        || Ascii.eqb c "-" || Ascii.eqb c "_" || Ascii.eqb c "."
        || Ascii.eqb c "~").

Definition upperhex (n : Z) : ascii :=
  nth (Z.to_nat n) (list_ascii_of_string "0123456789ABCDEF") "0"%char.

(** [url.QueryEscape(s)] *)
Fixpoint QueryEscape (s : string) : string :=
  match s with
  | EmptyString => EmptyString
  | String c r =>
      if shouldEscape c
      then if Ascii.eqb c " " then String "+" (QueryEscape r)
           else String "%" (String (upperhex (Z.shiftr (Z_of_byte c) 4))
                  (String (upperhex (Z.land (Z_of_byte c) 15)) (QueryEscape r)))
      else String c (QueryEscape r)
  end.

(** [url.Values]: the decoded pairs in the order of the query string, so
    that the values of one key keep their order. *)
Definition Values := list (string * string).

(** [v.Get(key)]: the first value of [key], or the empty string. *)
Fixpoint Get (v : Values) (key : string) : string :=
  match v with
  | [] => ""
  | (k, x) :: v' => if String.eqb k key then x else Get v' key
  end.

(** One [key=value] setting of a query string; a setting that contains a
    semicolon or does not unescape is dropped. *)
Definition parsePair (kv : string) : option (string * string) :=
  if String.eqb kv "" then None
  else if strings.Contains kv ";" then None
  else
    let '(key, value) :=
      match strings.Index kv "=" with
      | Some i => (strings.take i kv, strings.drop (S i) kv)
      | None => (kv, "")
      end in
    match QueryUnescape key, QueryUnescape value with
    | Some k, Some v => Some (k, v)
    | _, _ => None
    end.

(** [u.Query()], that is [url.ParseQuery(u.RawQuery)] with its error
    discarded: the settings are separated by ampersands. *)
Definition ParseQuery (query : string) : Values :=
  omap parsePair (strings.Split query "&").

Definition Query (u : URL) : Values := ParseQuery (RawQuery u).

End url.

Module http.

(** [http.Header], keyed by canonical header names. *)
Definition Header := gmap string (list string).

(** [h.Get(key)] for a key written in canonical form: the first value, or
    the empty string. *)
Definition Get (h : Header) (key : string) : string :=
  match h !! key with
  | Some (v :: _) => v
  | _ => ""%string
  end.

(** The parts of an inbound [*http.Request] that the sources read. *)
Record Request := {
  URL : url.URL;
  Header_ : Header
}.

Definition StatusOK : Z := 200.
Definition StatusNotModified : Z := 304.
Definition StatusForbidden : Z := 403.
Definition StatusNotFound : Z := 404.

End http.

(** ** float64 *)

Module float64.

Definition t := spec_float.

Definition prec : Z := 53.
Definition emax : Z := 1024.

(** The constants [0] and [1], and [float64(n)] for an integer [n]. *)
Definition zero : t := S754_zero false.
Definition of_int (n : Z) : t := binary_normalize prec emax n 0 false.
Definition one : t := of_int 1.

Definition mul (x y : t) : t := SFmul prec emax x y.
Definition div (x y : t) : t := SFdiv prec emax x y.

(** [x < y] and [x == y]; both are false when an operand is NaN. *)
Definition ltb (x y : t) : bool := SFltb x y.
Definition eqb (x y : t) : bool := SFeqb x y.

(** [math.Min(x, y)]: negative infinity and NaN win, and a negative zero
    is smaller than a positive one. *)
Definition Min (x y : t) : t :=
  match x, y with
  | S754_infinity true, _ | _, S754_infinity true => S754_infinity true
  | S754_nan, _ | _, S754_nan => S754_nan
  | S754_zero sx, S754_zero sy => S754_zero (sx || sy)
  | _, _ => if ltb x y then x else y
  end.

(** [int(x)]: the fraction is discarded.  A value that does not fit the
    64-bit [int] (also NaN and the infinities) converts to the minimal
    integer, as the amd64 conversion instruction does. *)
Definition to_int (x : t) : Z :=
  match x with
  | S754_zero _ => 0
  | S754_finite s m e =>
      let a := if 0 <=? e then Z.shiftl (Zpos m) e else Z.shiftr (Zpos m) (- e) in
      let v := if s then - a else a in
      if (- 2 ^ 63 <=? v) && (v <? 2 ^ 63) then v else - 2 ^ 63
  | _ => - 2 ^ 63
  end.

End float64.

(** ** imageproxy : options and requests (unnamed/part_001) *)

Module imageproxy.

Local Open Scope string_scope.

Definition optFit := "fit".
Definition optFlipVertical := "fv".
Definition optFlipHorizontal := "fh".
Definition optRotatePrefix := "r".
Definition optQualityPrefix := "q".
Definition optFormatPrefix := "f".
Definition optSizeDelimiter := "x".
Definition optSizeDelimiter2 := "*".
Definition kCloudFrontPattern := "tools/im/".

Record Options := {
  Width : float64.t;
  Height : float64.t;
  Fit : bool;
  Rotate : Z;
  FlipVertical : bool;
  FlipHorizontal : bool;
  Quality : Z;
  Format : string
}.

(** The zero value [Options{}]. *)
Definition emptyOptions : Options :=
  {| Width := float64.zero; Height := float64.zero; Fit := false; Rotate := 0;
     FlipVertical := false; FlipHorizontal := false; Quality := 0; Format := "" |}.

Definition set_Width (o : Options) (w : float64.t) : Options :=
  {| Width := w; Height := Height o; Fit := Fit o; Rotate := Rotate o;
     FlipVertical := FlipVertical o; FlipHorizontal := FlipHorizontal o;
     Quality := Quality o; Format := Format o |}.
Definition set_Height (o : Options) (h : float64.t) : Options :=
  {| Width := Width o; Height := h; Fit := Fit o; Rotate := Rotate o;
     FlipVertical := FlipVertical o; FlipHorizontal := FlipHorizontal o;
     Quality := Quality o; Format := Format o |}.
Definition set_Fit (o : Options) (b : bool) : Options :=
  {| Width := Width o; Height := Height o; Fit := b; Rotate := Rotate o;
     FlipVertical := FlipVertical o; FlipHorizontal := FlipHorizontal o;
     Quality := Quality o; Format := Format o |}.
Definition set_Rotate (o : Options) (r : Z) : Options :=
  {| Width := Width o; Height := Height o; Fit := Fit o; Rotate := r;
     FlipVertical := FlipVertical o; FlipHorizontal := FlipHorizontal o;
     Quality := Quality o; Format := Format o |}.
Definition set_FlipVertical (o : Options) (b : bool) : Options :=
  {| Width := Width o; Height := Height o; Fit := Fit o; Rotate := Rotate o;
     FlipVertical := b; FlipHorizontal := FlipHorizontal o;
     Quality := Quality o; Format := Format o |}.
Definition set_FlipHorizontal (o : Options) (b : bool) : Options :=
  {| Width := Width o; Height := Height o; Fit := Fit o; Rotate := Rotate o;
     FlipVertical := FlipVertical o; FlipHorizontal := b;
     Quality := Quality o; Format := Format o |}.
Definition set_Quality (o : Options) (q : Z) : Options :=
  {| Width := Width o; Height := Height o; Fit := Fit o; Rotate := Rotate o;
     FlipVertical := FlipVertical o; FlipHorizontal := FlipHorizontal o;
     Quality := q; Format := Format o |}.
Definition set_Format (o : Options) (f : string) : Options :=
  {| Width := Width o; Height := Height o; Fit := Fit o; Rotate := Rotate o;
     FlipVertical := FlipVertical o; FlipHorizontal := FlipHorizontal o;
     Quality := Quality o; Format := f |}.

(** [func (o Options) transform() bool] *)
Definition transform (o : Options) : bool :=
  negb (float64.eqb (Width o) float64.zero)
  || negb (float64.eqb (Height o) float64.zero)
  || negb (Rotate o =? 0)%Z || FlipHorizontal o || FlipVertical o.

Section Codec.

(** The two float conversions of the Go library: [fmt]'s [%v] on a
    [float64], and [strconv.ParseFloat(s, 64)] as its value together with
    whether [err == nil]. *)
Variable FormatFloat : float64.t -> string.
Variable ParseFloat : string -> float64.t * bool.

(** [func (o Options) String() string] *)
Definition Options_String (o : Options) : string :=
  let buf := FormatFloat (Width o) ++ optSizeDelimiter ++ FormatFloat (Height o) in
  let buf := if Fit o then buf ++ "," ++ optFit else buf in
  let buf := if negb (Rotate o =? 0)%Z
             then buf ++ "," ++ optRotatePrefix ++ strconv.Itoa (Rotate o) else buf in
  let buf := if FlipVertical o then buf ++ "," ++ optFlipVertical else buf in
  let buf := if FlipHorizontal o then buf ++ "," ++ optFlipHorizontal else buf in
  let buf := if negb (Quality o =? 0)%Z
             then buf ++ "," ++ optQualityPrefix ++ strconv.Itoa (Quality o) else buf in
  let buf := if (0 <? Z.of_nat (String.length (Format o)))%Z
             then buf ++ "," ++ optFormatPrefix ++ Format o else buf in
  let result := buf in
  if String.eqb result "0x0" then "" else result.

(** The two size cases of [ParseOptions]: [opt] is cut at the first
    [delim]; a non-empty half overwrites its dimension, with whatever value
    [ParseFloat] returned. *)
Definition parseSize (options : Options) (opt delim : string) : Options :=
  match strings.SplitN opt delim 2 with
  | [w; h] =>
      let options :=
        if negb (String.eqb w "") then set_Width options (fst (ParseFloat w))
        else options in
      if negb (String.eqb h "") then set_Height options (fst (ParseFloat h))
      else options
  | _ => options
  end.

(** The body of the loop of [ParseOptions]: the [switch] on one option. *)
Definition parseOption (options : Options) (opt : string) : Options :=
  if (String.length opt =? 0)%nat then options
  else if String.eqb opt optFit then set_Fit options true
  else if String.eqb opt optFlipVertical then set_FlipVertical options true
  else if String.eqb opt optFlipHorizontal then set_FlipHorizontal options true
  else if strings.HasPrefix opt optRotatePrefix
  then set_Rotate options (fst (strconv.Atoi (strings.TrimPrefix opt optRotatePrefix)))
  else if strings.HasPrefix opt optQualityPrefix
  then set_Quality options (fst (strconv.Atoi (strings.TrimPrefix opt optQualityPrefix)))
  else if strings.HasPrefix opt optFormatPrefix
  then set_Format options (strings.TrimPrefix opt optFormatPrefix)
  else if strings.Contains opt optSizeDelimiter
  then parseSize options opt optSizeDelimiter
  else if strings.Contains opt optSizeDelimiter2
  then parseSize options opt optSizeDelimiter2
  else
    let '(size, ok) := ParseFloat opt in
    if ok then set_Height (set_Width options size) size else options.

(** [func ParseOptions(str string, useWebp bool) Options] *)
Definition ParseOptions (str : string) (useWebp : bool) : Options :=
  let options := fold_left parseOption (strings.Split str ",") emptyOptions in
  if useWebp && (String.length (Format options) =? 0)%nat
  then set_Format options media_utils.ImageFormatWebp
  else options.

End Codec.

(** Requests. *)

Record Request := {
  URL : url.URL;                      (* URL of the image to proxy *)
  Options_ : Options;                 (* transformation to perform *)
  Original : option http.Request      (* the original request; may be nil *)
}.

(** [func HasWebpSupport(r *http.Request) bool] (image_utils.go) *)
Definition HasWebpSupport (r : http.Request) : bool :=
  let accept := http.Get (http.Header_ r) "Accept" in
  strings.Contains accept media_utils.ContentTypeWebp.

(** [func FileContentType(format string) string] (image_utils.go) *)
Definition FileContentType (format : string) : string :=
  if String.eqb format media_utils.ImageFormatJpeg then media_utils.ContentTypeJPEG
  else if String.eqb format media_utils.ImageFormatJpg then media_utils.ContentTypeJPEG
  else if String.eqb format media_utils.ImageFormatGif then media_utils.ContentTypeGIF
  else if String.eqb format media_utils.ImageFormatPng then media_utils.ContentTypePNG
  else if String.eqb format media_utils.ImageFormatWebp then media_utils.ContentTypeWebp
  else "".

Fixpoint skipSlashes (s : string) : string :=
  match s with
  | String "/" r => skipSlashes r
  | _ => s
  end.

(** [reCleanedURL.ReplaceAllString(s, "$1://$2")] for the expression
    [^(https?):/+([^/])]: after the scheme and the colon, a run of slashes
    followed by another byte becomes two slashes. *)
Definition cleanURL (s : string) : string :=
  let scheme :=
    if strings.HasPrefix s "https" then Some "https"
    else if strings.HasPrefix s "http" then Some "http"
    else None in
  match scheme with
  | None => s
  | Some sch =>
      match strings.drop (String.length sch) s with
      | String ":" (String "/" r) =>
          match skipSlashes r with
          | String c r' => sch ++ "://" ++ String c r'
          | EmptyString => s
          end
      | _ => s
      end
  end.

Definition isDigit (c : ascii) : bool :=
  ((48 <=? Z_of_byte c) && (Z_of_byte c <=? 57))%Z.

Fixpoint allDigits (s : string) : bool :=
  match s with
  | EmptyString => true
  | String c r => isDigit c && allDigits r
  end.

(** [reg.MatchString(lastComponent)] for the expression [^ts\d+$]. *)
Definition matchTs (lastComponent : string) : bool :=
  match lastComponent with
  | String "t" (String "s" (String c r)) => isDigit c && allDigits r
  | _ => false
  end.

(** The query that [NewRequest] leaves on the remote URL. *)
Definition canonicalQuery (forceTs ts : string) : string :=
  if (0 <? Z.of_nat (String.length forceTs))%Z then "ts=" ++ url.QueryEscape forceTs
  else if (0 <? Z.of_nat (String.length ts))%Z then "ts=" ++ url.QueryEscape ts
  else "".

(** The version suffix of a path: [forceTs] and the path without it. *)
Definition splitForceTs (path : string) : string * string :=
  match strings.LastIndex path "/" with
  | Some lastIdx =>
      let lastComponent := strings.drop (lastIdx + 1) path in
      if matchTs lastComponent
      then (strings.drop 2 lastComponent, strings.take lastIdx path)
      else ("", path)
  | None => ("", path)
  end.

Section Requests.

Variable FormatFloat : float64.t -> string.
Variable ParseFloat : string -> float64.t * bool.

(** [url.Parse(s)], [None] when [err != nil]; [base.ResolveReference(ref)];
    [u.String()].  All three belong to the Go library. *)
Variable url_Parse : string -> option url.URL.
Variable ResolveReference : url.URL -> url.URL -> url.URL.
Variable URL_String : url.URL -> string.

(** [func (r Request) String() string] *)
Definition Request_String (r : Request) : string :=
  let u := URL r in
  let u := url.set_Fragment u (Options_String FormatFloat (Options_ r)) in
  URL_String u.

(** [func parseURL(s string)], returning a URL and an error. *)
Definition parseURL (s : string) : option url.URL :=
  let s := cleanURL s in
  url_Parse s.

(** The branch of [NewRequest] taken when the whole path is not an
    absolute URL: the first segment holds the options. *)
Definition optionsAndURL (path : string) (useWebp : bool)
    : result (url.URL * Options) :=
  match strings.SplitN path "/" 2 with
  | [p0; p1] =>
      match parseURL p1 with
      | None => Err "unable to parse remote URL"
      | Some u => Ok (u, ParseOptions ParseFloat p0 useWebp)
      end
  | _ => Err "too few path segments"
  end.

(** [func NewRequest(r *http.Request, baseURL *url.URL)], returning a
    request and an error. *)
Definition NewRequest (r : http.Request) (baseURL : option url.URL)
    : result Request :=
  match url.Path (http.URL r) with
  | EmptyString => Panic
  | String _ path =>
      if negb (strings.HasPrefix path kCloudFrontPattern) then Err "Invalid url"
      else
        let path := strings.TrimPrefix path kCloudFrontPattern in
        let '(forceTs, path) := splitForceTs path in
        let parsed := parseURL path in
        let useWebp := HasWebpSupport r in
        let parts :=
          match parsed with
          | Some u =>
              if url.IsAbs u
              then Ok (u, if useWebp
                          then set_Format emptyOptions media_utils.ImageFormatWebp
                          else emptyOptions)
              else optionsAndURL path useWebp
          | None => optionsAndURL path useWebp
          end in
        match parts with
        | Panic => Panic
        | Err e => Err e
        | Ok (u, options) =>
            let u := match baseURL with
                     | Some base => ResolveReference base u
                     | None => u
                     end in
            if negb (url.IsAbs u) then Err "must provide absolute remote URL"
            else if negb (String.eqb (url.Scheme u) "http")
                    && negb (String.eqb (url.Scheme u) "https")
            then Err "remote URL must have http or https scheme"
            else
              let values := url.Query (http.URL r) in
              let ts := url.Get values media_utils.ParamVersionTs in
              Ok {| URL := url.set_RawQuery u (canonicalQuery forceTs ts);
                    Options_ := options;
                    Original := Some r |}
        end
  end.

(** [func CacheKey(req *http.Request) string] (cache/httpcache.go), on the
    URL of the request. *)
Definition CacheKey (u : url.URL) : string :=
  let cacheKey := URL_String u in
  strings.ReplaceAll1 cacheKey "#" "_".

End Requests.

(** *** Transformations (imageproxy/transform.go, unnamed/part_002) *)

(** default compression quality of resized jpegs *)
Definition defaultQuality : Z := 80.

Definition DisposalBackground : Z := 2.
Definition DisposalPrevious : Z := 3.

(** The part of a decoded [gif.GIF] that [GifProcess] reads and writes;
    [X] stands for the fields it leaves alone. *)
Record GIF (Frame X : Type) := {
  gif_Image : list Frame;
  gif_Disposal : list Z;
  gif_Config : Z * Z;
  gif_other : X
}.
Arguments gif_Image {Frame X} g.
Arguments gif_Disposal {Frame X} g.
Arguments gif_Config {Frame X} g.
Arguments gif_other {Frame X} g.

Section Transforming.

(** Images and the library calls on them ([image], [image/draw],
    [image/gif], [image/jpeg], [image/png], [chai2010/webp] and
    [disintegration/imaging]).  [Dx] and [Dy] are the width and height of
    [m.Bounds()]; a decoder or encoder yields [None] when it fails. *)
Variable Image : Type.
Variable Dx Dy : Image -> Z.
Variable image_Decode : list ascii -> option (Image * string).
Variable imaging_Fit imaging_Resize imaging_Thumbnail : Image -> Z -> Z -> Image.
Variable imaging_FlipV imaging_FlipH : Image -> Image.
Variable imaging_Rotate90 imaging_Rotate180 imaging_Rotate270 : Image -> Image.
Variable webp_Encode jpeg_Encode : Image -> Z -> option (list ascii).
Variable png_Encode : Image -> option (list ascii).

(** Frames of an animation: [Frame] is [*image.Paletted]; [NewRGBA w h]
    is a blank canvas, [draw_Over canvas frame] the canvas after
    [draw.Draw(img, bounds, frame, bounds.Min, draw.Over)], and
    [toPaletted m frame] is [imageToPaletted(m, frame.Palette)]. *)
Variable Frame X : Type.
Variable frame_Dx frame_Dy frame_MaxX frame_MaxY : Frame -> Z.
Variable NewRGBA : Z -> Z -> Image.
Variable draw_Over : Image -> Frame -> Image.
Variable toPaletted : Image -> Frame -> Frame.
Variable gif_DecodeAll : list ascii -> option (GIF Frame X).
Variable gif_EncodeAll : GIF Frame X -> option (list ascii).

(** The loop of [GifProcess] over the frames and their disposal methods.
    [previous] is the same pointer as [img], which [draw.Draw] has
    written to, so that restoring it keeps the canvas as drawn. *)
Fixpoint gifFrames (transform : Image -> Image) (blank img : Image)
    (frames : list Frame) (disposal : list Z) : option (list Frame) :=
  match frames with
  | [] => Some []
  | frame :: frames' =>
      match disposal with
      | [] => None
      | d :: disposal' =>
          let img := draw_Over img frame in
          let previous := img in
          let out := toPaletted (transform img) frame in
          let img := if (d =? DisposalBackground)%Z then blank
                     else if (d =? DisposalPrevious)%Z then previous
                     else img in
          option_map (cons out) (gifFrames transform blank img frames' disposal')
      end
  end.

(** [func GifProcess(w io.Writer, r io.Reader, transform TransformFunc) error]
    for a non-nil [transform]: the bytes written, an error of the codec, or
    a panic on an index out of range. *)
Definition GifProcess (r : list ascii) (transform : Image -> Image)
    : result (list ascii) :=
  match gif_DecodeAll r with
  | None => Err "gif: decode"
  | Some im =>
      match gif_Image im with
      | [] => Panic
      | first :: _ =>
          let blank := NewRGBA (frame_Dx first) (frame_Dy first) in
          match gifFrames transform blank blank (gif_Image im) (gif_Disposal im) with
          | None => Panic
          | Some [] => Panic
          | Some ((f0 :: _) as frames) =>
              let im := {| gif_Image := frames; gif_Disposal := gif_Disposal im;
                           gif_Config := (frame_MaxX f0, frame_MaxY f0);
                           gif_other := gif_other im |} in
              match gif_EncodeAll im with
              | Some out => Ok out
              | None => Err "gif: encode"
              end
          end
      end
  end.

(** A requested dimension in pixels: a value between 0 and 1 is a
    fraction of the image's dimension, a negative one is 0. *)
Definition requested (img : Z) (v : float64.t) : Z :=
  if float64.ltb float64.zero v && float64.ltb v float64.one
  then float64.to_int (float64.mul (float64.of_int img) v)
  else if float64.ltb v float64.zero then 0%Z
  else float64.to_int v.

(** [func resizeParams(m image.Image, opt Options) (w, h int, resize bool)] *)
Definition resizeParams (m : Image) (opt : Options) : Z * Z * bool :=
  let imgW := Dx m in
  let imgH := Dy m in
  let w := requested imgW (Width opt) in
  let h := requested imgH (Height opt) in
  let '(w, h) :=
    if (0 <? w)%Z && (0 <? h)%Z && negb (Fit opt) && ((imgW <? w)%Z || (imgH <? h)%Z)
    then
      let scaleX := float64.div (float64.of_int imgW) (float64.of_int w) in
      let scaleY := float64.div (float64.of_int imgH) (float64.of_int h) in
      let minScale := float64.Min scaleX scaleY in
      (float64.to_int (float64.mul (float64.of_int w) minScale),
       float64.to_int (float64.mul (float64.of_int h) minScale))
    else
      (if (imgW <? w)%Z then imgW else w, if (imgH <? h)%Z then imgH else h) in
  if ((w =? imgW)%Z || (w =? 0)%Z) && ((h =? imgH)%Z || (h =? 0)%Z)
  then (0%Z, 0%Z, false)
  else (w, h, true).

(** [func transformImage(m image.Image, opt Options) image.Image] *)
Definition transformImage (m : Image) (opt : Options) : Image :=
  let m :=
    match resizeParams m opt with
    | (w, h, true) =>
        if Fit opt then imaging_Fit m w h
        else if (w =? 0)%Z || (h =? 0)%Z then imaging_Resize m w h
        else imaging_Thumbnail m w h
    | (_, _, false) => m
    end in
  let m := if FlipVertical opt then imaging_FlipV m else m in
  let m := if FlipHorizontal opt then imaging_FlipH m else m in
  if (Rotate opt =? 90)%Z then imaging_Rotate90 m
  else if (Rotate opt =? 180)%Z then imaging_Rotate180 m
  else if (Rotate opt =? 270)%Z then imaging_Rotate270 m
  else m.

Definition quality_of (opt : Options) : Z :=
  if (Quality opt =? 0)%Z then defaultQuality else Quality opt.

Definition encoded (out : option (list ascii)) (format codec : string)
    : result (list ascii * string) :=
  match out with
  | Some b => Ok (b, format)
  | None => Err (codec ++ ": encode")
  end.

(** [func DetectFormat(img []byte, opt Options) ([]byte, string, error)];
    the bytes are [None] for a nil slice. *)
Definition DetectFormat (img : list ascii) (opt : Options)
    : result (option (list ascii) * string) :=
  match image_Decode img with
  | None => Err "image: decode"
  | Some (m, format) =>
      if String.eqb (Format opt) "" || String.eqb format (Format opt)
         || String.eqb format media_utils.ImageFormatGif
      then Ok (None, format)
      else
        let format := Format opt in
        let some r := match r with
                      | Ok (b, f) => Ok (Some b, f)
                      | Err e => Err e
                      | Panic => Panic
                      end in
        if String.eqb format media_utils.ImageFormatGif
        then match GifProcess img (fun img => img) with
             | Ok b => Ok (Some b, format)
             | Err e => Err e
             | Panic => Panic
             end
        else if String.eqb format media_utils.ImageFormatWebp
        then some (encoded (webp_Encode m (quality_of opt)) format "webp")
        else if String.eqb format media_utils.ImageFormatJpg
                || String.eqb format media_utils.ImageFormatJpeg
        then some (encoded (jpeg_Encode m (quality_of opt))
                     media_utils.ImageFormatJpeg "jpeg")
        else if String.eqb format media_utils.ImageFormatPng
        then some (encoded (png_Encode m) format "png")
        else Err ("image format " ++ format ++ " not supported")
  end.

(** [func Transform(img []byte, opt Options) ([]byte, string, error)] *)
Definition Transform (img : list ascii) (opt : Options)
    : result (list ascii * string) :=
  match image_Decode img with
  | None => Err "image: decode"
  | Some (m, format) =>
      if negb (transform opt)
         && (String.eqb (Format opt) "" || String.eqb (Format opt) format
             || String.eqb media_utils.ImageFormatGif format)
      then Ok (img, format)
      else
        let format :=
          if (0 <? Z.of_nat (String.length (Format opt)))%Z
             && negb (String.eqb format media_utils.ImageFormatGif)
          then Format opt else format in
        let transformed m := if transform opt then transformImage m opt else m in
        if String.eqb format media_utils.ImageFormatGif
        then match GifProcess img transformed with
             | Ok b => Ok (b, format)
             | Err e => Err e
             | Panic => Panic
             end
        else if String.eqb format media_utils.ImageFormatWebp
        then encoded (webp_Encode (transformed m) (quality_of opt)) format "webp"
        else if String.eqb format media_utils.ImageFormatJpg
                || String.eqb format media_utils.ImageFormatJpeg
        then encoded (jpeg_Encode (transformed m) (quality_of opt))
               media_utils.ImageFormatJpeg "jpeg"
        else if String.eqb format media_utils.ImageFormatPng
        then encoded (png_Encode (transformed m)) format "png"
        else Err ("image format " ++ format ++ " not supported")
  end.

End Transforming.

(** *** The front handler (media_utils/aws_helper.go, second part) *)

(** [cache.XFromCache] *)
Definition XFromCache := "X-From-Cache".

(** Proxy serves image requests.  The client and its caches are the
    function [Client_Get] of the section below. *)
Record Proxy := {
  Whitelist : list string;
  Referrers : list string;
  DefaultBaseURL : option url.URL
}.

(** A response of the client, and what the handler has written to its
    [http.ResponseWriter]. *)
Record Response := {
  StatusCode : Z;
  Header : http.Header;
  Body : list ascii
}.

Record Written := {
  w_Header : http.Header;
  w_Status : Z;
  w_Body : list ascii
}.

(** The arguments of the log line at the end of a request, without the
    elapsed time. *)
Record LogLine := {
  log_Status : Z;
  log_cache : bool;
  log_URL : string;
  log_sign : bool
}.

(** [func validHost(hosts []string, u *url.URL) bool] *)
Fixpoint validHost (hosts : list string) (u : url.URL) : bool :=
  match hosts with
  | [] => false
  | host :: hosts' =>
      if String.eqb (url.Host u) host then true
      else if strings.HasPrefix host "*."
              && strings.HasSuffix (url.Host u) (strings.drop 2 host)
      then true
      else validHost hosts' u
  end.

(** [w.Header().Add(key, value)] *)
Definition Header_Add (h : http.Header) (key value : string) : http.Header :=
  <[key := (default [] (h !! key) ++ [value])%list]> h.

(** [func copyHeader(w http.ResponseWriter, r *http.Response, header string)]
    for a header name in canonical form. *)
Definition copyHeader (w : http.Header) (r : Response) (header : string)
    : http.Header :=
  match Header r !! header with
  | Some value => <[header := value]> w
  | None => w
  end.

Section Front.

Variable FormatFloat : float64.t -> string.
Variable ParseFloat : string -> float64.t * bool.
Variable url_Parse : string -> option url.URL.
Variable ResolveReference : url.URL -> url.URL -> url.URL.
Variable URL_String : url.URL -> string.

(** [time.Parse(time.RFC1123, s)]: the instant, or [None] when
    [err != nil]. *)
Variable time_Parse_RFC1123 : string -> option Z.

(** [p.Client.Get(url)]: the response, or [None] when [err != nil]. *)
Variable Client_Get : string -> option Response.

(** The settings and the clock read by [media_utils.SimpleVerify]. *)
Variable cfg : config.t.
Variable now : Z.

(** [func validReferrer(hosts []string, r *http.Request) bool] *)
Definition validReferrer (hosts : list string) (r : http.Request) : bool :=
  match url_Parse (http.Get (http.Header_ r) "Referer") with
  | None => false
  | Some u => validHost hosts u
  end.

(** [func validSignature(r *Request) bool] *)
Definition validSignature (r : Request) : bool :=
  let '(queries, path) :=
    match Original r with
    | Some orig => (url.Query (http.URL orig), url.Path (http.URL orig))
    | None => (url.Query (URL r), url.Path (URL r))
    end in
  let ts := url.Get queries media_utils.ParamVersionTs in
  let token := url.Get queries media_utils.ParamToken in
  if (Z.of_nat (String.length token) <=? 5)%Z then false
  else media_utils.SimpleVerify cfg now path ts token true.

(** [func (p *Proxy) allowed(r *Request) (error, bool)]: a non-nil error,
    or a nil error together with the returned boolean.  With a list of
    referrers, a request without its original panics on the nil pointer. *)
Definition allowed (p : Proxy) (r : Request) : result bool :=
  let contentType := FileContentType (Format (Options_ r)) in
  if (String.length contentType =? 0)%nat
     && (0 <? Z.of_nat (String.length (Format (Options_ r))))%Z
  then Err ("Invalid file format " ++ Format (Options_ r))
  else
    let referrer :=
      if (0 <? len (Referrers p))%Z
      then match Original r with
           | Some orig => Some (validReferrer (Referrers p) orig)
           | None => None
           end
      else Some true in
    match referrer with
    | None => Panic
    | Some false =>
        Err ("request does not contain an allowed referrer: "
             ++ Request_String FormatFloat URL_String r)
    | Some true =>
        if (0 <? len (Whitelist p))%Z && negb (validHost (Whitelist p) (URL r))
        then Err ("request host not allowed: "
                  ++ Request_String FormatFloat URL_String r)
        else
          let validSign := validSignature r in
          Ok validSign
    end.

(** [func check304(req *http.Request, resp *http.Response) bool] *)
Definition check304 (req : http.Request) (resp : Response) : bool :=
  let etag := http.Get (Header resp) "Etag" in
  if negb (String.eqb etag "")
     && String.eqb etag (http.Get (http.Header_ req) "If-None-Match")
  then true
  else
    match time_Parse_RFC1123 (http.Get (Header resp) "Last-Modified") with
    | None => false
    | Some lastModified =>
        match time_Parse_RFC1123 (http.Get (http.Header_ req) "If-Modified-Since") with
        | None => false
        | Some ifModSince =>
            if (lastModified <? ifModSince)%Z then true else false
        end
    end.

(** [func writeResponseToWriter(resp, w, r, start, signOK)]: what is
    written to a fresh [w], and the log line. *)
Definition writeResponseToWriter (resp : Response) (r : http.Request)
    (signOK : bool) : Written * LogLine :=
  let h := copyHeader ∅ resp "Cache-Control" in
  let h := copyHeader h resp "Last-Modified" in
  let h := copyHeader h resp "Expires" in
  let h := copyHeader h resp "Etag" in
  let h := copyHeader h resp "Link" in
  let cached := http.Get (Header resp) XFromCache in
  let line := {| log_Status := StatusCode resp; log_cache := String.eqb cached "1";
                 log_URL := URL_String (http.URL r); log_sign := signOK |} in
  if check304 r resp
  then
    let h := Header_Add h "Vary" "Accept" in
    ({| w_Header := h; w_Status := http.StatusNotModified; w_Body := [] |}, line)
  else
    let h := copyHeader h resp "Content-Length" in
    let h := copyHeader h resp "Content-Type" in
    let h := Header_Add h "Vary" "Accept" in
    let h := Header_Add h "Access-Control-Allow-Origin" "*" in
    ({| w_Header := h; w_Status := StatusCode resp; w_Body := Body resp |}, line).

(** [http.NotFound(w, r)] and [http.Error(w, error, code)] on a fresh [w]. *)
Definition http_Error (error : string) (code : Z) : Written :=
  {| w_Header := <["X-Content-Type-Options" := ["nosniff"]]>
                   (<["Content-Type" := ["text/plain; charset=utf-8"]]> ∅);
     w_Status := code;
     w_Body := bytes_of_string (error ++ String "010" "") |}.

Definition http_NotFound : Written :=
  http_Error "404 page not found" http.StatusNotFound.

(** [func (p *Proxy) serveImage(w http.ResponseWriter, r *http.Request)]:
    what is written, and the log line of a served response.  A panic of
    [NewRequest] is [None]. *)
Definition serveImage (p : Proxy) (r : http.Request)
    : option (Written * option LogLine) :=
  match NewRequest ParseFloat url_Parse ResolveReference r (DefaultBaseURL p) with
  | Panic => None
  | Err _ => Some (http_NotFound, None)
  | Ok req =>
      match allowed p req with
      | Panic => None
      | Err err => Some (http_Error err http.StatusForbidden, None)
      | Ok signOK =>
          match Client_Get (Request_String FormatFloat URL_String req) with
          | None => Some (http_NotFound, None)
          | Some resp =>
              let '(w, line) := writeResponseToWriter resp r signOK in
              Some (w, Some line)
          end
      end
  end.

End Front.

End imageproxy.

(** ** cache/diskv : the disk store and its in-memory hot cache
    (unnamed/part_001, first part) *)

Module diskv.

Local Open Scope string_scope.

Definition defaultBasePath := "diskv".

Record Options := {
  BasePath : string;
  CacheSizeMax : Z          (* uint64, bytes *)
}.

Record Diskv := {
  options : Options;
  cache : gmap string (list ascii);
  cacheSize : Z             (* uint64 *)
}.

(** [func New(o Options) *Diskv] *)
Definition New (o : Options) : Diskv :=
  let o := if String.eqb (BasePath o) ""
           then {| BasePath := defaultBasePath; CacheSizeMax := CacheSizeMax o |}
           else o in
  {| options := o; cache := ∅; cacheSize := 0 |}.

(** [uint64(len(val))]: the length of a slice is a non-negative [int] and
    converts exactly. *)
Definition valueSize (val : list ascii) : Z := len val.

(** [func (d *Diskv) uncacheWithLock(key string, sz uint64)] *)
Definition uncacheWithLock (d : Diskv) (key : string) (sz : Z) : Diskv :=
  {| options := options d;
     cache := delete key (cache d);
     cacheSize := uint64 (cacheSize d - sz) |}.

(** [func (d *Diskv) bustCacheWithLock(key string)] *)
Definition bustCacheWithLock (d : Diskv) (key : string) : Diskv :=
  match cache d !! key with
  | Some val => uncacheWithLock d key (valueSize val)
  | None => d
  end.

(** The closure [safe] of [ensureCacheSpaceWithLock]. *)
Definition safe (d : Diskv) (valueSize : Z) : bool :=
  (uint64 (cacheSize d + valueSize) <=? CacheSizeMax (options d))%Z.

(** The loop [for key, val := range d.cache] of
    [ensureCacheSpaceWithLock], over the entries in the order in which the
    iteration yields them. *)
Fixpoint evict (entries : list (string * list ascii)) (d : Diskv)
    (valueSize_ : Z) : Diskv :=
  match entries with
  | [] => d
  | (key, val) :: rest =>
      if safe d valueSize_ then d
      else evict rest (uncacheWithLock d key (valueSize val)) valueSize_
  end.

(** The order in which one [range] statement yields the entries of a map
    is not specified; [order] chooses it. *)
Definition range_order := gmap string (list ascii) -> list (string * list ascii).

(** [func (d *Diskv) ensureCacheSpaceWithLock(valueSize uint64) error].
    An error leaves [d] as it is. *)
Definition ensureCacheSpaceWithLock (order : range_order) (d : Diskv)
    (valueSize_ : Z) : result Diskv :=
  if (CacheSizeMax (options d) <? valueSize_)%Z
  then Err "value size too large for cache"
  else
    let d := evict (order (cache d)) d valueSize_ in
    if negb (safe d valueSize_) then Panic
    else Ok d.

(** [func (d *Diskv) cacheWithLock(key string, val []byte) error].
    An error leaves [d] as it is. *)
Definition cacheWithLock (order : range_order) (d : Diskv) (key : string)
    (val : list ascii) : result Diskv :=
  let valueSize_ := valueSize val in
  match ensureCacheSpaceWithLock order d valueSize_ with
  | Err e => Err (e ++ "; not caching")
  | Panic => Panic
  | Ok d =>
      if (CacheSizeMax (options d) <? uint64 (cacheSize d + valueSize_))%Z
      then Panic
      else Ok {| options := options d;
                 cache := <[key := val]> (cache d);
                 cacheSize := uint64 (cacheSize d + valueSize_) |}
  end.

(** [func (d *Diskv) cacheWithoutLock(key string, val []byte) error]:
    [cacheWithLock] in a critical section of its own, under the write
    lock. *)
Definition cacheWithoutLock (order : range_order) (d : Diskv) (key : string)
    (val : list ascii) : result Diskv :=
  cacheWithLock order d key val.

(** What the file system does for the key of a [Read]: no readable file
    under the key, a file whose reading fails before its end, or a file
    that is read up to its end, followed by the result of closing it. *)
Inductive disk_read :=
| NoFile
| ReadFails
| ReadsAll (data : list ascii) (closed : bool).

(** The [io.ReadCloser] that [ReadStream] hands back: a buffer on the
    cached value, a siphon on the opened file, or, when nothing is ever
    cached, a [closingReader] on it. *)
Inductive reader :=
| Buffer (val : list ascii)
| Siphon (key : string)
| Closing.

(** [func (d *Diskv) ReadStream(key string) (io.ReadCloser, error)] with
    [readWithRLock]: one critical section under the read lock, which
    leaves the store as it is.  The map is looked up here, and only
    here. *)
Definition ReadStream (d : Diskv) (key : string) (fs : disk_read)
    : result reader :=
  match cache d !! key with
  | Some val => Ok (Buffer val)
  | None =>
      match fs with
      | NoFile => Err "stat"
      | _ => if (0 <? CacheSizeMax (options d))%Z then Ok (Siphon key)
             else Ok Closing
      end
  end.

(** [ioutil.ReadAll(rc)] on a reader that [ReadStream] handed back.  A
    buffer yields the cached value and reads no file.
    [func (s *siphon) Read]: at the end of the file the siphon passes what
    it has buffered to [cacheWithoutLock], a second critical section, and
    ignores its error; it does not look at the map before.  Any other
    error of the file ends the reading and caches nothing.  [None] is a
    panic. *)
Definition ReadAll (order : range_order) (d : Diskv) (rc : reader)
    (fs : disk_read) : option (Diskv * result (list ascii)) :=
  match rc with
  | Buffer val => Some (d, Ok val)
  | Siphon key =>
      match fs with
      | ReadsAll data closed =>
          let r := if closed then Ok data else Err "close" in
          match cacheWithoutLock order d key data with
          | Ok d' => Some (d', r)
          | Err _ => Some (d, r)
          | Panic => None
          end
      | _ => Some (d, Err "read")
      end
  | Closing =>
      match fs with
      | ReadsAll data closed => Some (d, if closed then Ok data else Err "close")
      | _ => Some (d, Err "read")
      end
  end.

(** [func (d *Diskv) Read(key string) ([]byte, error)]: [ReadStream], then
    [ioutil.ReadAll] on its reader.  As a function of the store this is a
    call whose two critical sections run with no section of another call
    between them; [interleave] below runs them apart. *)
Definition Read (order : range_order) (d : Diskv) (key : string)
    (fs : disk_read) : option (Diskv * result (list ascii)) :=
  match ReadStream d key fs with
  | Ok rc => ReadAll order d rc fs
  | Err e => Some (d, Err e)
  | Panic => None
  end.

(** [func (d *Diskv) WriteStream(key string, r io.Reader, sync bool) error];
    [written] tells whether every file operation succeeded.  The cache is
    busted only after a complete write. *)
Definition WriteStream (d : Diskv) (key : string) (written : bool)
    : Diskv * result unit :=
  if (Z.of_nat (String.length key) <=? 0)%Z then (d, Err "empty key")
  else if negb written then (d, Err "write")
  else (bustCacheWithLock d key, Ok tt).

(** [func (d *Diskv) Erase(key string) error]; [removed] tells whether the
    file was there and could be removed. *)
Definition Erase (d : Diskv) (key : string) (removed : bool)
    : Diskv * result unit :=
  let d := bustCacheWithLock d key in
  if removed then (d, Ok tt) else (d, Err "remove").

(** [func (d *Diskv) EraseAll() error]; [None] is the panic on an empty
    base path. *)
Definition EraseAll (d : Diskv) (removed : bool) : option (Diskv * result unit) :=
  if (Z.of_nat (String.length (BasePath (options d))) <=? 0)%Z then None
  else Some ({| options := options d; cache := ∅; cacheSize := 0 |},
             if removed then Ok tt else Err "remove all").

(** [func (d *Diskv) Has(key string) bool]; [on_disk] tells whether a
    regular file exists under the key. *)
Definition Has (d : Diskv) (key : string) (on_disk : bool) : Diskv * bool :=
  match cache d !! key with
  | Some _ => (d, true)
  | None => (d, on_disk)
  end.

(** One call of the store, with what the file system and the map
    iteration do during the call. *)
Inductive call :=
| CallRead (key : string) (fs : disk_read) (order : range_order)
| CallWriteStream (key : string) (written : bool)
| CallErase (key : string) (removed : bool)
| CallEraseAll (removed : bool)
| CallHas (key : string) (on_disk : bool).

(** The store after one call; [None] is a panic. *)
Definition step (d : Diskv) (c : call) : option Diskv :=
  match c with
  | CallRead key fs order => option_map fst (Read order d key fs)
  | CallWriteStream key written => Some (fst (WriteStream d key written))
  | CallErase key removed => Some (fst (Erase d key removed))
  | CallEraseAll removed => option_map fst (EraseAll d removed)
  | CallHas key on_disk => Some (fst (Has d key on_disk))
  end.

(** The store after a sequence of calls, each one completed before the
    next one starts. *)
Fixpoint run (d : Diskv) (cs : list call) : option Diskv :=
  match cs with
  | [] => Some d
  | c :: cs' =>
      match step d c with
      | Some d' => run d' cs'
      | None => None
      end
  end.

(** Calls of several goroutines.  The store is locked for one critical
    section at a time, so what the goroutines do is a sequence of
    sections: [ReadStream], which hands back a reader; [ioutil.ReadAll] on
    a reader handed back earlier, whenever its goroutine gets to it; and
    the calls that are one section ([WriteStream], [Erase], [EraseAll],
    [Has]) or that run without another section in between. *)
Inductive event :=
| EvReadStream (key : string) (fs : disk_read)
| EvReadAll (rc : nat) (fs : disk_read) (order : range_order)
| EvCall (c : call).

(** The store and the readers handed back so far, in the order of their
    [ReadStream]; a reader that was read to its end is [None]. *)
Record running := {
  store : Diskv;
  readers : list (option reader)
}.

Definition start (d : Diskv) : running := {| store := d; readers := [] |}.

(** One section; [None] is a panic.  [EvReadAll rc] on a reader that was
    never handed back, or was read already, does nothing. *)
Definition exec (w : running) (e : event) : option running :=
  match e with
  | EvReadStream key fs =>
      match ReadStream (store w) key fs with
      | Ok rc => Some {| store := store w; readers := readers w ++ [Some rc] |}
      | _ => Some w
      end
  | EvReadAll i fs order =>
      match readers w !! i with
      | Some (Some rc) =>
          match ReadAll order (store w) rc fs with
          | Some (d, _) => Some {| store := d; readers := <[i := None]> (readers w) |}
          | None => None
          end
      | _ => Some w
      end
  | EvCall c =>
      match step (store w) c with
      | Some d => Some {| store := d; readers := readers w |}
      | None => None
      end
  end.

Fixpoint interleave (w : running) (es : list event) : option running :=
  match es with
  | [] => Some w
  | e :: es' =>
      match exec w e with
      | Some w' => interleave w' es'
      | None => None
      end
  end.

(** The sum of the lengths of the cached values. *)
Definition cachedBytes (m : gmap string (list ascii)) : Z :=
  map_fold (fun _ val acc => valueSize val + acc)%Z 0%Z m.

End diskv.

(** ** Library behaviour on sample inputs

    The definitions above take the calls into [fmt], [strconv.ParseFloat],
    [net/url], [time], [image] and [imaging] as parameters, and the theorems
    below hold for every behaviour of these calls.  To evaluate the
    definitions on concrete requests, this module fixes what the calls do on
    a fragment of their inputs: integral floats, unescaped hierarchical
    URLs, RFC 1123 dates in GMT, and images reduced to their format and
    dimensions. *)

Module sample.

Local Open Scope string_scope.

Definition cfg : config.t :=
  {| config.SimpleKey := bytes_of_string "0123456789abcdef";
     config.MagicNum := 0x5A17C0DE |}.

(** The integer that a float holds exactly, if any. *)
Definition int_value (x : float64.t) : option Z :=
  match x with
  | S754_zero _ => Some 0%Z
  | S754_finite s m e =>
      if (0 <=? e)%Z
      then Some (if s then (- Z.shiftl (Zpos m) e)%Z else Z.shiftl (Zpos m) e)
      else if (Z.land (Zpos m) (Z.ones (- e)) =? 0)%Z
      then Some (if s then (- Z.shiftr (Zpos m) (- e))%Z else Z.shiftr (Zpos m) (- e))
      else None
  | _ => None
  end.

(** [%v] on the special values and on integers below 10^6 in magnitude,
    which print without exponent; other values are outside the fragment and
    print as the empty string here. *)
Definition FormatFloat (x : float64.t) : string :=
  match x with
  | S754_nan => "NaN"
  | S754_infinity false => "+Inf"
  | S754_infinity true => "-Inf"
  | S754_zero false => "0"
  | S754_zero true => "-0"
  | S754_finite _ _ _ =>
      match int_value x with
      | Some n => if (Z.abs n <? 1000000)%Z then strconv.Itoa n else ""
      | None => ""
      end
  end.

(** [strconv.ParseFloat(s, 64)] on signed decimal integers and on the
    names of the special values; other literals are outside the fragment
    and are reported as syntax errors here. *)
Definition ParseFloat (s : string) : float64.t * bool :=
  if String.eqb s "NaN" then (S754_nan, true)
  else if String.eqb s "+Inf" || String.eqb s "Inf" then (S754_infinity false, true)
  else if String.eqb s "-Inf" then (S754_infinity true, true)
  else
    let '(neg, digits) :=
      match s with
      | String "+" r => (false, r)
      | String "-" r => (true, r)
      | _ => (false, s)
      end in
    match strconv.parse_digits digits with
    | None => (float64.zero, false)
    | Some 0%Z => (S754_zero neg, true)
    | Some u =>
        match float64.of_int (if neg then (- u)%Z else u) with
        | S754_infinity sg => (S754_infinity sg, false)
        | x => (x, true)
        end
    end.

(** [getScheme]: the scheme before the first colon, if the bytes before it
    are a letter followed by letters, digits, [+], [-] or [.]. *)
Definition isLetter (c : ascii) : bool :=
  let n := Z_of_byte c in
  ((97 <=? n) && (n <=? 122) || (65 <=? n) && (n <=? 90))%Z.

Fixpoint schemeChars (first : bool) (s : string) : option (option nat) :=
  match s with
  | EmptyString => Some None
  | String c r =>
      if isLetter c then option_map (option_map S) (schemeChars false r)
      else if imageproxy.isDigit c || Ascii.eqb c "+" || Ascii.eqb c "-"
              || Ascii.eqb c "."
      then if first then Some None
           else option_map (option_map S) (schemeChars false r)
      else if Ascii.eqb c ":" then if first then None else Some (Some O)
      else Some None
  end.

Definition cut (s sep : string) : string * string :=
  match strings.Index s sep with
  | Some i => (strings.take i s, strings.drop (i + String.length sep) s)
  | None => (s, "")
  end.

Definition lower (c : ascii) : ascii :=
  let n := Z_of_byte c in
  if ((65 <=? n) && (n <=? 90))%Z then byte_of_Z (n + 32) else c.

Fixpoint ToLower (s : string) : string :=
  match s with
  | EmptyString => EmptyString
  | String c r => String (lower c) (ToLower r)
  end.

(** [url.Parse] on URLs without escapes, user information or opaque part:
    the fragment after the first [#], the scheme, the query after the first
    [?], the host between [//] and the next slash, and the path. *)
Definition url_Parse (rawurl : string) : option url.URL :=
  if strings.Contains rawurl "%" then None
  else
    let '(u, frag) := cut rawurl "#" in
    match schemeChars true u with
    | None => None
    | Some sch =>
        let '(scheme, rest) :=
          match sch with
          | Some i => (ToLower (strings.take i u), strings.drop (S i) u)
          | None => ("", u)
          end in
        let '(rest, query) := cut rest "?" in
        if negb (strings.HasPrefix rest "/") && negb (String.eqb scheme "")
        then None
        else if negb (strings.HasPrefix rest "/")
                && strings.Contains (fst (cut rest "/")) ":"
        then None
        else
          let '(host, path) :=
            if strings.HasPrefix rest "//"
            then match strings.Index (strings.drop 2 rest) "/" with
                 | Some i => (strings.take i (strings.drop 2 rest),
                              strings.drop i (strings.drop 2 rest))
                 | None => (strings.drop 2 rest, "")
                 end
            else ("", rest) in
          Some {| url.Scheme := scheme; url.Host := host; url.Path := path;
                  url.RawQuery := query; url.Fragment := frag |}
    end.

(** [base.ResolveReference(ref)] for a base without path and a reference
    without dot segments. *)
Definition ResolveReference (base ref : url.URL) : url.URL :=
  if negb (String.eqb (url.Scheme ref) "") then ref
  else if negb (String.eqb (url.Host ref) "")
  then {| url.Scheme := url.Scheme base; url.Host := url.Host ref;
          url.Path := url.Path ref; url.RawQuery := url.RawQuery ref;
          url.Fragment := url.Fragment ref |}
  else {| url.Scheme := url.Scheme base; url.Host := url.Host base;
          url.Path := if strings.HasPrefix (url.Path ref) "/" then url.Path ref
                      else "/" ++ url.Path ref;
          url.RawQuery := url.RawQuery ref;
          url.Fragment := url.Fragment ref |}.

(** [u.String()] when no byte of the URL needs escaping. *)
Definition URL_String (u : url.URL) : string :=
  (if String.eqb (url.Scheme u) "" then "" else url.Scheme u ++ ":")
  ++ (if String.eqb (url.Scheme u) "" && String.eqb (url.Host u) "" then ""
      else "//" ++ url.Host u)
  ++ url.Path u
  ++ (if String.eqb (url.RawQuery u) "" then "" else "?" ++ url.RawQuery u)
  ++ (if String.eqb (url.Fragment u) "" then "" else "#" ++ url.Fragment u).

(** The base URL of the object store. *)
Definition awss3 : url.URL :=
  {| url.Scheme := "http"; url.Host := "awss3"; url.Path := "";
     url.RawQuery := ""; url.Fragment := "" |}.

Definition monthNumber (s : string) : option Z :=
  let names := ["Jan"; "Feb"; "Mar"; "Apr"; "May"; "Jun";
                "Jul"; "Aug"; "Sep"; "Oct"; "Nov"; "Dec"] in
  base64.index_of "0"%char
    (map (fun n => if String.eqb n s then "0"%char else "1"%char) names) 1%Z.

(** Days from 1970-01-01 to a date of the proleptic Gregorian calendar. *)
Definition daysFromCivil (y m d : Z) : Z :=
  let y := if (m <=? 2)%Z then (y - 1)%Z else y in
  let era := (y / 400)%Z in
  let yoe := (y - era * 400)%Z in
  let doy := ((153 * (if (2 <? m)%Z then m - 3 else m + 9) + 2) / 5 + d - 1)%Z in
  let doe := (yoe * 365 + yoe / 4 - yoe / 100 + doy)%Z in
  (era * 146097 + doe - 719468)%Z.

Definition number (s : string) : option Z :=
  if imageproxy.allDigits s then strconv.parse_digits s else None.

(** [time.Parse(time.RFC1123, s)] on dates in GMT or UTC, as seconds since
    1970; dates in other zones are outside the fragment. *)
Definition time_Parse_RFC1123 (s : string) : option Z :=
  let field i n := strings.take n (strings.drop i s) in
  let weekdays := ["Mon"; "Tue"; "Wed"; "Thu"; "Fri"; "Sat"; "Sun"] in
  if negb (String.length s =? 29)%nat then None
  else if negb (existsb (String.eqb (field 0 3)%nat) weekdays) then None
  else if negb (String.eqb (field 3 2)%nat ", " && String.eqb (field 7 1)%nat " "
                && String.eqb (field 11 1)%nat " " && String.eqb (field 16 1)%nat " "
                && String.eqb (field 19 1)%nat ":" && String.eqb (field 22 1)%nat ":"
                && String.eqb (field 25 1)%nat " ")
  then None
  else if negb (String.eqb (field 26 3)%nat "GMT" || String.eqb (field 26 3)%nat "UTC")
  then None
  else
    match number (field 5 2)%nat, monthNumber (field 8 3)%nat, number (field 12 4)%nat,
          number (field 17 2)%nat, number (field 20 2)%nat, number (field 23 2)%nat with
    | Some d, Some mo, Some y, Some h, Some mi, Some sec =>
        if ((1 <=? d) && (d <=? 31) && (h <? 24) && (mi <? 60) && (sec <? 60))%Z
        then Some (daysFromCivil y mo d * 86400 + h * 3600 + mi * 60 + sec)%Z
        else None
    | _, _, _, _, _, _ => None
    end.

(** Images reduced to their dimensions, and the dimensions that the
    imaging calls document: flips keep them, quarter turns swap them, a
    thumbnail has the requested ones, a resize with one free dimension keeps
    the aspect ratio, and a fit scales down into the box. *)
Definition Image : Type := Z * Z.
Definition Dx (m : Image) : Z := fst m.
Definition Dy (m : Image) : Z := snd m.

Definition empty (m : Image) : bool := ((Dx m <=? 0) || (Dy m <=? 0))%Z.

Definition scaled (a b c : Z) : Z := Z.max 1 ((2 * a * b + c) / (2 * c)).

Definition imaging_Resize (m : Image) (w h : Z) : Image :=
  if ((w <? 0) || (h <? 0) || ((w =? 0) && (h =? 0)))%Z || empty m then (0, 0)%Z
  else if (w =? 0)%Z then (scaled h (Dx m) (Dy m), h)
  else if (h =? 0)%Z then (w, scaled w (Dy m) (Dx m))
  else (w, h).

Definition imaging_Thumbnail (m : Image) (w h : Z) : Image :=
  if ((w <=? 0) || (h <=? 0))%Z || empty m then (0, 0)%Z else (w, h).

Definition imaging_Fit (m : Image) (w h : Z) : Image :=
  if ((w <=? 0) || (h <=? 0))%Z || empty m then (0, 0)%Z
  else if ((Dx m <=? w) && (Dy m <=? h))%Z then m
  else if (h * Dx m <? w * Dy m)%Z
  then imaging_Resize m (h * Dx m / Dy m) h
  else imaging_Resize m w (w * Dy m / Dx m).

Definition imaging_Flip (m : Image) : Image := m.
Definition imaging_Rotate90 (m : Image) : Image := (Dy m, Dx m).
Definition imaging_Rotate180 (m : Image) : Image := m.

(** Encoded images reduced to a format name and the two dimensions, each
    on two big-endian bytes. *)
Definition encode (format : string) (m : Image) : list ascii :=
  bytes_of_string format
    ++ ImageMeta.PutUint16 (uint16 (Dx m)) ++ ImageMeta.PutUint16 (uint16 (Dy m)).

Definition decodeWith (format : string) (img : list ascii) : option Image :=
  let n := String.length format in
  if String.eqb (string_of_bytes (firstn n img)) format
  then match skipn n img with
       | [w0; w1; h0; h1] => Some (ImageMeta.Uint16 w0 w1, ImageMeta.Uint16 h0 h1)
       | _ => None
       end
  else None.

Definition image_Decode (img : list ascii) : option (Image * string) :=
  let try format := option_map (fun m => (m, format)) (decodeWith format img) in
  match try "gif", try "png", try "jpeg", try "webp" with
  | Some r, _, _, _ | None, Some r, _, _ | None, None, Some r, _
  | None, None, None, Some r => Some r
  | None, None, None, None => None
  end.

Definition gif_DecodeAll (img : list ascii) : option (imageproxy.GIF Image unit) :=
  match decodeWith "gif" img with
  | Some m => Some {| imageproxy.gif_Image := [m]; imageproxy.gif_Disposal := [0%Z];
                      imageproxy.gif_Config := m; imageproxy.gif_other := tt |}
  | None => None
  end.

Definition gif_EncodeAll (g : imageproxy.GIF Image unit) : option (list ascii) :=
  Some (encode "gif" (imageproxy.gif_Config g)).

(** A response of the client for every URL. *)
Definition Client_Get (u : string) : option imageproxy.Response :=
  Some {| imageproxy.StatusCode := 200;
          imageproxy.Header :=
            {[ "Etag" := ["v1-6a82e2c9"];
               "Last-Modified" := ["Mon, 02 Jan 2006 15:04:05 GMT"];
               "Content-Type" := ["image/png"] ]};
          imageproxy.Body := encode "png" (100, 50)%Z |}.

End sample.

(** * Vocabulary of the statements *)

(** The bytes of [data] in lower-case hexadecimal, two digits each. *)
Definition hexdigit (n : Z) : ascii :=
  if n <? 10 then byte_of_Z (48 + n) else byte_of_Z (87 + n).

Fixpoint hexdump (data : list ascii) : string :=
  match data with
  | [] => EmptyString
  | b :: rest =>
      String (hexdigit (Z.shiftr (Z_of_byte b) 4))
        (String (hexdigit (Z.land (Z_of_byte b) 15)) (hexdump rest))
  end.

(** The aligned expiry as the specification words it, over unbounded
    integers: with L' = max(L, 86400), the value
    ((now + L' - 1) / L') * L' + crc32(key) mod L', and a further L' when
    that is less than L' after [now]. *)
Definition alignedExpire (now : Z) (key : string) (L : Z) : Z :=
  let L' := Z.max L 86400 in
  let a := (now + L' - 1) / L' * L' + crc32.ChecksumIEEE (bytes_of_string key) mod L' in
  if a - now <? L' then a + L' else a.

(** Every byte of [s] satisfies [P]. *)
Fixpoint all_bytes (P : ascii -> bool) (s : string) : bool :=
  match s with
  | EmptyString => true
  | String c r => P c && all_bytes P r
  end.

(** The byte [c] does not occur in [s]. *)
Definition no_byte (c : ascii) (s : string) : bool :=
  all_bytes (fun d => negb (Ascii.eqb d c)) s.

(** A float as [%v] prints it, seen by the option parser: not empty, no
    comma and no [x], and no option letter in front. *)
Definition float_text (s : string) : bool :=
  match s with
  | EmptyString => false
  | String c _ =>
      negb (Ascii.eqb c "r") && negb (Ascii.eqb c "q") && negb (Ascii.eqb c "f")
      && no_byte "," s && no_byte "x" s
  end.

(** A format name that the option parser reads back: it has no comma and,
    behind the letter [f], does not spell one of the options [fit], [fv]
    and [fh]. *)
Definition format_text (s : string) : bool :=
  no_byte "," s && negb (String.eqb s "it") && negb (String.eqb s "v")
  && negb (String.eqb s "h").

(** A value of Go's [int] on a 64-bit platform. *)
Definition is_int (z : Z) : Prop := - 2 ^ 63 <= z < 2 ^ 63.

(** The bytes of a decimal integer as [%d] prints it. *)
Definition is_digit_or_minus (c : ascii) : bool :=
  imageproxy.isDigit c || Ascii.eqb c "-".

(** The text of a list of options, each behind a comma. *)
Fixpoint commas (ts : list string) : string :=
  match ts with
  | [] => ""
  | t :: ts' => ("," ++ t ++ commas ts')%string
  end.

(** An option that is printed only when [b] holds. *)
Definition flag (b : bool) (t : string) : list string := if b then [t] else [].

(** The options that follow the size in [Options.String]. *)
Definition flags (o : imageproxy.Options) : list string :=
  flag (imageproxy.Fit o) "fit"
  ++ flag (negb (imageproxy.Rotate o =? 0)) ("r" ++ strconv.Itoa (imageproxy.Rotate o))%string
  ++ flag (imageproxy.FlipVertical o) "fv"
  ++ flag (imageproxy.FlipHorizontal o) "fh"
  ++ flag (negb (imageproxy.Quality o =? 0)) ("q" ++ strconv.Itoa (imageproxy.Quality o))%string
  ++ flag (0 <? Z.of_nat (String.length (imageproxy.Format o)))
       ("f" ++ imageproxy.Format o)%string.

Section OptionsText.

Variable FormatFloat : float64.t -> string.
Variable ParseFloat : string -> float64.t * bool.

(** [x] prints as a text that the option parser hands back to
    [ParseFloat], which returns [x]. *)
Definition prints_back (x : float64.t) : Prop :=
  float_text (FormatFloat x) = true /\ ParseFloat (FormatFloat x) = (x, true).

(** The size [%vx%v] in front of [Options.String]. *)
Definition size_text (o : imageproxy.Options) : string :=
  (FormatFloat (imageproxy.Width o) ++ "x" ++ FormatFloat (imageproxy.Height o))%string.

End OptionsText.

(** The settings of a query string, joined by ampersands. *)
Fixpoint joinAmp (settings : list string) : string :=
  match settings with
  | [] => ""
  | [s] => s
  | s :: rest => (s ++ "&" ++ joinAmp rest)%string
  end.

(** The request [r] with another query string. *)
Definition with_query (r : http.Request) (q : string) : http.Request :=
  {| http.URL := url.set_RawQuery (http.URL r) q; http.Header_ := http.Header_ r |}.

(** The canonical query: [ts=<forceTs>] when the path ends in a
    [/ts<digits>] segment, else [ts=<v>] for the query-escaped value [v] of
    a non-empty [ts] setting, else empty. *)
Definition expected_query (forceTs ts : string) : string :=
  if negb (String.eqb forceTs "") then ("ts=" ++ forceTs)%string
  else if negb (String.eqb ts "") then ("ts=" ++ url.QueryEscape ts)%string
  else ""%string.

(** The URL and the options of a request, without the original one. *)
Definition normalized (r : result imageproxy.Request)
    : result (url.URL * imageproxy.Options) :=
  match r with
  | Ok req => Ok (imageproxy.URL req, imageproxy.Options_ req)
  | Err e => Err e
  | Panic => Panic
  end.

(** An inbound request for a path and a raw query. *)
Definition request (path query : string) (header : http.Header) : http.Request :=
  {| http.URL := {| url.Scheme := ""; url.Host := ""; url.Path := path;
                    url.RawQuery := query; url.Fragment := "" |};
     http.Header_ := header |}.

(** The box that the geometric policy asks for when a requested box
    (W, H) exceeds the source (IW, IH): both sides times
    scale = min(IW/W, IH/H), in float64 arithmetic. *)
Definition scaledBox (IW IH W H : Z) : Z * Z :=
  let scale := float64.Min (float64.div (float64.of_int IW) (float64.of_int W))
                           (float64.div (float64.of_int IH) (float64.of_int H)) in
  (float64.to_int (float64.mul (float64.of_int W) scale),
   float64.to_int (float64.mul (float64.of_int H) scale)).

(** What the imaging library documents about the dimensions of its
    results: flips and half turns keep them, and a thumbnail of a
    non-empty image has the requested positive dimensions. *)
Record imaging_dims {Image : Type} (Dx Dy : Image -> Z)
    (Thumbnail : Image -> Z -> Z -> Image)
    (FlipV FlipH Rotate180 : Image -> Image) : Prop := {
  dims_FlipV : forall m, Dx (FlipV m) = Dx m /\ Dy (FlipV m) = Dy m;
  dims_FlipH : forall m, Dx (FlipH m) = Dx m /\ Dy (FlipH m) = Dy m;
  dims_Rotate180 : forall m, Dx (Rotate180 m) = Dx m /\ Dy (Rotate180 m) = Dy m;
  dims_Thumbnail : forall m w h,
    0 < w -> 0 < h -> 0 < Dx m -> 0 < Dy m ->
    Dx (Thumbnail m w h) = w /\ Dy (Thumbnail m w h) = h
}.

(** The functions of the proxy over the sample libraries. *)
Definition sample_transformImage : sample.Image -> imageproxy.Options -> sample.Image :=
  imageproxy.transformImage sample.Image sample.Dx sample.Dy
    sample.imaging_Fit sample.imaging_Resize sample.imaging_Thumbnail
    sample.imaging_Flip sample.imaging_Flip
    sample.imaging_Rotate90 sample.imaging_Rotate180 sample.imaging_Rotate90.

Definition sample_encoder (format : string) (m : sample.Image) (quality : Z)
    : option (list ascii) :=
  Some (sample.encode format m).

Definition sample_GifProcess :=
  imageproxy.GifProcess sample.Image sample.Image unit
    sample.Dx sample.Dy sample.Dx sample.Dy
    (fun w h => (w, h)) (fun canvas frame => canvas) (fun m frame => m)
    sample.gif_DecodeAll sample.gif_EncodeAll.

Definition sample_DetectFormat :=
  imageproxy.DetectFormat sample.Image sample.image_Decode
    (sample_encoder "webp") (sample_encoder "jpeg")
    (fun m => Some (sample.encode "png" m))
    sample.Image unit sample.Dx sample.Dy sample.Dx sample.Dy
    (fun w h => (w, h)) (fun canvas frame => canvas) (fun m frame => m)
    sample.gif_DecodeAll sample.gif_EncodeAll.

Definition sample_Transform :=
  imageproxy.Transform sample.Image sample.Dx sample.Dy sample.image_Decode
    sample.imaging_Fit sample.imaging_Resize sample.imaging_Thumbnail
    sample.imaging_Flip sample.imaging_Flip
    sample.imaging_Rotate90 sample.imaging_Rotate180 sample.imaging_Rotate90
    (sample_encoder "webp") (sample_encoder "jpeg")
    (fun m => Some (sample.encode "png" m))
    sample.Image unit sample.Dx sample.Dy sample.Dx sample.Dy
    (fun w h => (w, h)) (fun canvas frame => canvas) (fun m frame => m)
    sample.gif_DecodeAll sample.gif_EncodeAll.

Definition sample_check304 := imageproxy.check304 sample.time_Parse_RFC1123.

Definition sample_writeResponseToWriter :=
  imageproxy.writeResponseToWriter sample.URL_String sample.time_Parse_RFC1123.

Definition sample_allowed :=
  imageproxy.allowed sample.FormatFloat sample.url_Parse sample.URL_String.

Definition sample_proxy : imageproxy.Proxy :=
  {| imageproxy.Whitelist := ["awss3"; "*.example.com"]%string;
     imageproxy.Referrers := [];
     imageproxy.DefaultBaseURL := Some sample.awss3 |}.

(** The accounting invariant of the hot cache. *)
Definition accounted (d : diskv.Diskv) : Prop :=
  diskv.cacheSize d = diskv.cachedBytes (diskv.cache d)
  /\ diskv.cacheSize d <= diskv.CacheSizeMax (diskv.options d).

(** A call whose map iteration yields every entry of the map once. *)
Definition iterates (c : diskv.call) : Prop :=
  match c with
  | diskv.CallRead _ _ order => forall m, order m ≡ₚ map_to_list m
  | _ => True
  end.

(** A store of at most ten cached bytes and a sequence of calls on it:
    two reads that fill the cache one after the other, a read of a value
    that is too large, and the calls that bust the cache. *)
Definition sample_store : diskv.Options :=
  {| diskv.BasePath := ""; diskv.CacheSizeMax := 10 |}.

Definition sample_calls : list diskv.call :=
  [ diskv.CallRead "a" (diskv.ReadsAll (bytes_of_string "123456") true) map_to_list;
    diskv.CallRead "b" (diskv.ReadsAll (bytes_of_string "abcdef") true) map_to_list;
    diskv.CallRead "c" (diskv.ReadsAll (bytes_of_string "0123456789A") true) map_to_list;
    diskv.CallHas "b" false;
    diskv.CallRead "b" diskv.NoFile map_to_list;
    diskv.CallWriteStream "b" true;
    diskv.CallRead "a" (diskv.ReadsAll (bytes_of_string "1234") false) map_to_list;
    diskv.CallErase "a" true;
    diskv.CallEraseAll true ].

(** ** crypto/md5, as [cache/diskcache] and [image_utils.go] use it *)

Module md5.

(** MD5 (RFC 1321) on 32-bit words held in [Z]. *)

Definition rotl (n x : Z) : Z :=
  Z.lor (uint32 (Z.shiftl x n)) (Z.shiftr x (32 - n)).

(** The sines of the 64 steps: [floor(2^32 * abs(sin(i + 1)))]. *)
Definition sines : list Z :=
  0xd76aa478 :: 0xe8c7b756 :: 0x242070db :: 0xc1bdceee ::
  0xf57c0faf :: 0x4787c62a :: 0xa8304613 :: 0xfd469501 ::
  0x698098d8 :: 0x8b44f7af :: 0xffff5bb1 :: 0x895cd7be ::
  0x6b901122 :: 0xfd987193 :: 0xa679438e :: 0x49b40821 ::
  0xf61e2562 :: 0xc040b340 :: 0x265e5a51 :: 0xe9b6c7aa ::
  0xd62f105d :: 0x02441453 :: 0xd8a1e681 :: 0xe7d3fbc8 ::
  0x21e1cde6 :: 0xc33707d6 :: 0xf4d50d87 :: 0x455a14ed ::
  0xa9e3e905 :: 0xfcefa3f8 :: 0x676f02d9 :: 0x8d2a4c8a ::
  0xfffa3942 :: 0x8771f681 :: 0x6d9d6122 :: 0xfde5380c ::
  0xa4beea44 :: 0x4bdecfa9 :: 0xf6bb4b60 :: 0xbebfbc70 ::
  0x289b7ec6 :: 0xeaa127fa :: 0xd4ef3085 :: 0x04881d05 ::
  0xd9d4d039 :: 0xe6db99e5 :: 0x1fa27cf8 :: 0xc4ac5665 ::
  0xf4292244 :: 0x432aff97 :: 0xab9423a7 :: 0xfc93a039 ::
  0x655b59c3 :: 0x8f0ccc92 :: 0xffeff47d :: 0x85845dd1 ::
  0x6fa87e4f :: 0xfe2ce6e0 :: 0xa3014314 :: 0x4e0811a1 ::
  0xf7537e82 :: 0xbd3af235 :: 0x2ad7d2bb :: 0xeb86d391 ::
  [].

(** The rotations of the four rounds. *)
Definition shifts : list Z :=
  [7; 12; 17; 22; 7; 12; 17; 22; 7; 12; 17; 22; 7; 12; 17; 22;
   5; 9; 14; 20; 5; 9; 14; 20; 5; 9; 14; 20; 5; 9; 14; 20;
   4; 11; 16; 23; 4; 11; 16; 23; 4; 11; 16; 23; 4; 11; 16; 23;
   6; 10; 15; 21; 6; 10; 15; 21; 6; 10; 15; 21; 6; 10; 15; 21].

(** The little-endian word of four bytes, and its bytes. *)
Definition word (b0 b1 b2 b3 : ascii) : Z :=
  Z.lor (Z.lor (Z.lor (Z_of_byte b0) (Z.shiftl (Z_of_byte b1) 8))
               (Z.shiftl (Z_of_byte b2) 16))
        (Z.shiftl (Z_of_byte b3) 24).

Definition bytes (v : Z) : list ascii :=
  [byte_of_Z v; byte_of_Z (Z.shiftr v 8); byte_of_Z (Z.shiftr v 16);
   byte_of_Z (Z.shiftr v 24)].

Fixpoint words (b : list ascii) : list Z :=
  match b with
  | b0 :: b1 :: b2 :: b3 :: rest => word b0 b1 b2 b3 :: words rest
  | _ => []
  end.

Record state := { ha : Z; hb : Z; hc : Z; hd : Z }.

Definition init : state :=
  {| ha := 0x67452301; hb := 0xefcdab89; hc := 0x98badcfe; hd := 0x10325476 |}.

(** Step [i] on the words [M] of a block. *)
Definition step (M : list Z) (s : state) (i : Z) : state :=
  let '(F, g) :=
    if i <? 16 then (Z.lor (Z.land (hb s) (hc s)) (Z.land (uint32 (Z.lnot (hb s))) (hd s)), i)
    else if i <? 32
    then (Z.lor (Z.land (hd s) (hb s)) (Z.land (uint32 (Z.lnot (hd s))) (hc s)),
          (5 * i + 1) mod 16)
    else if i <? 48 then (Z.lxor (Z.lxor (hb s) (hc s)) (hd s), (3 * i + 5) mod 16)
    else (Z.lxor (hc s) (Z.lor (hb s) (uint32 (Z.lnot (hd s)))), (7 * i) mod 16) in
  let F := uint32 (F + ha s + nth (Z.to_nat i) sines 0 + nth (Z.to_nat g) M 0) in
  {| ha := hd s; hd := hc s; hc := hb s;
     hb := uint32 (hb s + rotl (nth (Z.to_nat i) shifts 0) F) |}.

Definition block (s : state) (b : list ascii) : state :=
  let t := fold_left (step (words b)) (map Z.of_nat (seq 0 64)) s in
  {| ha := uint32 (ha s + ha t); hb := uint32 (hb s + hb t);
     hc := uint32 (hc s + hc t); hd := uint32 (hd s + hd t) |}.

(** The padded message: a one bit, zeros up to 56 modulo 64 bytes, and the
    bit length on eight bytes, low byte first. *)
Definition pad (msg : list ascii) : list ascii :=
  let n := len msg in
  msg ++ [byte_of_Z 0x80]
      ++ repeat (byte_of_Z 0) (Z.to_nat ((55 - n) mod 64))
      ++ bytes (uint32 (8 * n)) ++ bytes (uint32 (Z.shiftr (8 * n) 32)).

Fixpoint blocks (fuel : nat) (s : state) (data : list ascii) : state :=
  match fuel, data with
  | S fuel', _ :: _ => blocks fuel' (block s (firstn 64 data)) (skipn 64 data)
  | _, _ => s
  end.

(** [h := md5.New(); h.Write(msg); h.Sum(nil)]: the 16 bytes of the digest. *)
Definition Sum (msg : list ascii) : list ascii :=
  let data := pad msg in
  let s := blocks (length data) init data in
  bytes (ha s) ++ bytes (hb s) ++ bytes (hc s) ++ bytes (hd s).

End md5.

(** ** cache/diskcache : the disk cache of the proxy (diskcache.go) *)

Module diskcache.

(** [func keyToFilename(key string) string] *)
Definition keyToFilename (key : string) : string :=
  hexdump (md5.Sum (bytes_of_string key)).

(** [func New(basePath string) *Cache]; a [Cache] holds the pointer to its
    store. *)
Definition New (basePath : string) : diskv.Diskv :=
  diskv.New {| diskv.BasePath := basePath;
               diskv.CacheSizeMax := 5 * 1024 * 1024 * 1024 |}.

(** [func (c *Cache) Get(key string) (resp []byte, ok bool)]; [fs] and
    [order] are what the file system and the map iteration do during the
    call.  [None] is a panic. *)
Definition Get (order : diskv.range_order) (c : diskv.Diskv) (key : string)
    (fs : diskv.disk_read) : option (diskv.Diskv * (list ascii * bool)) :=
  let key := keyToFilename key in
  match diskv.Read order c key fs with
  | Some (c', Ok resp) => Some (c', (resp, true))
  | Some (c', _) => Some (c', ([], false))
  | None => None
  end.

(** [func (c *Cache) Set(key string, resp []byte)]: the error of
    [WriteStream] is dropped. *)
Definition Set_ (c : diskv.Diskv) (key : string) (written : bool) : diskv.Diskv :=
  let key := keyToFilename key in
  fst (diskv.WriteStream c key written).

(** [func (c *Cache) Delete(key string)] *)
Definition Delete (c : diskv.Diskv) (key : string) (removed : bool) : diskv.Diskv :=
  let key := keyToFilename key in
  fst (diskv.Erase c key removed).

(** [func (c *Cache) Exists(key string) bool] *)
Definition Exists_ (c : diskv.Diskv) (key : string) (on_disk : bool) : bool :=
  let key := keyToFilename key in
  snd (diskv.Has c key on_disk).

End diskcache.

(** A lower-case hexadecimal digit. *)
Definition is_hex_digit (c : ascii) : bool :=
  ((48 <=? Z_of_byte c) && (Z_of_byte c <=? 57)
   || (97 <=? Z_of_byte c) && (Z_of_byte c <=? 102))%Z.

(** ** cache : the Cache-Control directives (cache/httpcache.go) *)

Module cache.

Local Open Scope string_scope.

(** [strings.Trim(s, cutset)] for a cutset of one byte [c]: the leading
    and the trailing bytes [c] are removed. *)
Fixpoint TrimLeft (s : string) (c : ascii) : string :=
  match s with
  | String d r => if Ascii.eqb d c then TrimLeft r c else s
  | EmptyString => EmptyString
  end.

Fixpoint TrimRight (s : string) (c : ascii) : string :=
  match s with
  | EmptyString => EmptyString
  | String d r =>
      let r' := TrimRight r c in
      if Ascii.eqb d c && String.eqb r' "" then EmptyString else String d r'
  end.

Definition Trim (s : string) (c : ascii) : string := TrimRight (TrimLeft s c) c.

(** [type cacheControl map[string]string] *)
Definition cacheControl := gmap string string.

(** The body of the loop of [parseCacheControl] on one part of the
    header: the entry it stores, if any.  A part that holds an equals sign
    is split at every equals sign; the first piece is the name and the
    second one the value. *)
Definition directive (part : string) : option (string * string) :=
  let part := Trim part " " in
  if String.eqb part "" then None
  else if strings.Contains part "="
  then match strings.Split part "=" with
       | k :: v :: _ => Some (Trim k " ", Trim v ",")
       | _ => None
       end
  else Some (part, "").

(** [func parseCacheControl(headers http.Header) cacheControl] *)
Definition parseCacheControl (headers : http.Header) : cacheControl :=
  let ccHeader := http.Get headers "Cache-Control" in
  fold_left (fun cc part =>
               match directive part with
               | Some (k, v) => <[k := v]> cc
               | None => cc
               end)
            (strings.Split ccHeader ",") ∅.

(** [func canStore(reqCacheControl, respCacheControl cacheControl) bool] *)
Definition canStore (reqCacheControl respCacheControl : cacheControl) : bool :=
  match respCacheControl !! "no-store" with
  | Some _ => false
  | None =>
      match reqCacheControl !! "no-store" with
      | Some _ => false
      | None => true
      end
  end.

End cache.

(** Two reads of one key whose sections overlap: both calls of
    [ReadStream] find the key uncached before either reader reaches the end
    of the five-byte file. *)
Definition overlapping_reads : list diskv.event :=
  let file := diskv.ReadsAll (bytes_of_string "12345") true in
  [ diskv.EvReadStream "k" file;
    diskv.EvReadStream "k" file;
    diskv.EvReadAll 0 file map_to_list;
    diskv.EvReadAll 1 file map_to_list ].

(** * Theorems *)

#[local] Arguments String.append !s1 s2 : simpl nomatch.

(** * The library models on published values *)

(** FIPS 180-4, appendix B.1: one block. *)
Example Sum256_abc :
  hexdump (sha256.Sum256 (bytes_of_string "abc"))
  = "ba7816bf8f01cfea414140de5dae2223b00361a396177a9cb410ff61f20015ad"%string.
Proof. vm_compute. reflexivity. Qed.

(** FIPS 180-4, appendix B.2: two blocks. *)
Example Sum256_two_blocks :
  hexdump (sha256.Sum256
             (bytes_of_string "abcdbcdecdefdefgefghfghighijhijkijkljklmklmnlmnomnopnopq"))
  = "248d6a61d20638b8e5c026930c3e6039a33ce45964ff2167f6ecedd419db06c1"%string.
Proof. vm_compute. reflexivity. Qed.

(** RFC 4231, test case 2. *)
Example hmac_Sum_rfc4231 :
  hexdump (hmac.Sum (bytes_of_string "Jefe")
             (bytes_of_string "what do ya want for nothing?"))
  = "5bdcc146bf60754e6a042426089575c75a003f089d2739839dec58b964ec3843"%string.
Proof. vm_compute. reflexivity. Qed.

(** The check value of CRC-32/ISO-HDLC. *)
Example ChecksumIEEE_check :
  crc32.ChecksumIEEE (bytes_of_string "123456789") = 0xCBF43926.
Proof. vm_compute. reflexivity. Qed.

(** RFC 4648, section 10, without padding. *)
Example EncodeToString_fooba :
  base64.EncodeToString (bytes_of_string "fooba") = "Zm9vYmE"%string
  /\ base64.DecodeString "Zm9vYmE" = Some (bytes_of_string "fooba").
Proof. vm_compute. split; reflexivity. Qed.

(** * Facts on bytes and bit operations *)

Lemma Z_of_byte_range (a : ascii) : 0 <= Z_of_byte a < 256.
Proof.
  unfold Z_of_byte. pose proof (N_ascii_bounded a) as H. lia.
Qed.

Lemma Z_of_byte_of_Z (z : Z) : Z_of_byte (byte_of_Z z) = z mod 256.
Proof.
  unfold Z_of_byte, byte_of_Z.
  assert (0 <= z mod 256 < 256) by (apply Z.mod_pos_bound; lia).
  rewrite N_ascii_embedding by lia. lia.
Qed.

Lemma byte_of_Z_of_byte (a : ascii) : byte_of_Z (Z_of_byte a) = a.
Proof.
  unfold byte_of_Z. rewrite Z.mod_small by apply Z_of_byte_range.
  unfold Z_of_byte. rewrite N2Z.id. apply ascii_N_embedding.
Qed.

(** * Facts on strings *)

Lemma append_assoc (a b c : string) : ((a ++ b) ++ c = a ++ (b ++ c))%string.
Proof. induction a as [|x a IH]; simpl; [reflexivity | now rewrite IH]. Qed.

Lemma append_nil_r (a : string) : (a ++ "" = a)%string.
Proof. induction a as [|x a IH]; simpl; [reflexivity | now rewrite IH]. Qed.

(** Disjoint bit ranges: an "or" with a shifted value is a sum. *)
Lemma land_shiftl_low (a b n : Z) :
  0 <= n -> 0 <= b < 2 ^ n -> Z.land b (Z.shiftl a n) = 0.
Proof.
  intros Hn Hb. apply Z.bits_inj'. intros i Hi.
  rewrite Z.land_spec, Z.bits_0.
  destruct (Z.ltb_spec i n).
  - rewrite (Z.shiftl_spec_low a n i) by lia. apply andb_false_r.
  - rewrite <- (Z.mod_small b (2 ^ n)) by lia.
    rewrite Z.mod_pow2_bits_high by lia. reflexivity.
Qed.

Lemma lor_shiftl_add (a b n : Z) :
  0 <= n -> 0 <= b < 2 ^ n -> Z.lor b (Z.shiftl a n) = a * 2 ^ n + b.
Proof.
  intros Hn Hb.
  rewrite <- Z.lxor_lor by (apply land_shiftl_low; lia).
  rewrite <- Z.add_nocarry_lxor by (apply land_shiftl_low; lia).
  rewrite Z.shiftl_mul_pow2 by lia. lia.
Qed.

Lemma Uint16_PutUint16 (v : Z) :
  0 <= v < 2 ^ 16 ->
  match ImageMeta.PutUint16 v with
  | [b0; b1] => ImageMeta.Uint16 b0 b1 = v
  | _ => False
  end.
Proof.
  intros Hv. unfold ImageMeta.PutUint16, ImageMeta.Uint16.
  rewrite !Z_of_byte_of_Z, Z.shiftr_div_pow2 by lia.
  rewrite lor_shiftl_add by (try apply Z.mod_pos_bound; lia).
  change (2 ^ 8) with 256. change (2 ^ 16) with 65536 in Hv.
  Z.div_mod_to_equations. lia.
Qed.

Lemma slice_app_l {A} (h t : list A) (n : Z) :
  n = len h -> slice (h ++ t) 0 n = Some h.
Proof.
  intros ->. unfold slice, len. rewrite length_app.
  replace ((0 <=? 0) && (0 <=? Z.of_nat (length h))
           && (Z.of_nat (length h) <=? Z.of_nat (length h + length t)))
    with true by (symmetry; rewrite !andb_true_iff, !Z.leb_le; lia).
  rewrite Z.sub_0_r, Nat2Z.id. change (Z.to_nat 0) with 0%nat.
  rewrite drop_0, take_app_length. reflexivity.
Qed.

Lemma slice_app_r {A} (h t : list A) (lo hi : Z) :
  len h <= lo -> slice (h ++ t) lo hi = slice t (lo - len h) (hi - len h).
Proof.
  intros Hlo. unfold slice, len in *. rewrite length_app.
  replace (Z.to_nat (hi - Z.of_nat (length h) - (lo - Z.of_nat (length h))))
    with (Z.to_nat (hi - lo)) by lia.
  rewrite drop_app_ge by lia.
  replace (Z.to_nat (lo - Z.of_nat (length h))) with (Z.to_nat lo - length h)%nat by lia.
  destruct (Z.leb_spec lo hi);
    destruct (Z.leb_spec hi (Z.of_nat (length h + length t)));
    destruct (Z.leb_spec 0 lo);
    destruct (Z.leb_spec 0 (lo - Z.of_nat (length h)));
    destruct (Z.leb_spec (lo - Z.of_nat (length h)) (hi - Z.of_nat (length h)));
    destruct (Z.leb_spec (hi - Z.of_nat (length h)) (Z.of_nat (length t)));
    simpl; try reflexivity; lia.
Qed.

Lemma slice_all {A} (l : list A) (n : Z) : n = len l -> slice l 0 n = Some l.
Proof.
  intros ->. rewrite <- (app_nil_r l) at 1. now apply slice_app_l.
Qed.

(** Below 65534 header bytes the cache entry is read back as written. *)
Lemma NewImageWithMetaFromCache_Bytes (m : ImageMeta.ImageWithMeta) :
  len (ImageMeta.Headers m) < 65534 ->
  ImageMeta.NewImageWithMetaFromCache (ImageMeta.Bytes m) = Some m.
Proof.
  intros Hlen. destruct m as [H I]. simpl in Hlen.
  assert (Hnn : 0 <= len H) by (unfold len; lia).
  unfold ImageMeta.NewImageWithMetaFromCache, ImageMeta.Bytes. simpl ImageMeta.Headers.
  simpl ImageMeta.Image.
  assert (Hu : uint16 (len H) = len H) by (unfold uint16; apply Z.mod_small; lia).
  rewrite Hu.
  pose proof (Uint16_PutUint16 (len H)) as HU.
  destruct (ImageMeta.PutUint16 (len H)) as [|b0 [|b1 [|? ?]]] eqn:E;
    try (exfalso; apply HU; lia).
  specialize (HU ltac:(lia)).
  change ([b0; b1] ++ H ++ I) with ([b0; b1] ++ (H ++ I)).
  rewrite (slice_app_l [b0; b1] (H ++ I) 2) by reflexivity.
  rewrite HU.
  assert (Hw : uint16 (2 + len H) = 2 + len H) by (unfold uint16; apply Z.mod_small; lia).
  rewrite Hw. unfold slice_from.
  rewrite !(slice_app_r [b0; b1] (H ++ I)) by (unfold len; simpl; lia).
  change (len [b0; b1]) with 2.
  replace (2 + len H - 2) with (len H) by lia.
  replace (2 - 2) with 0 by lia.
  rewrite (slice_app_l H I (len H)) by reflexivity.
  rewrite (slice_app_r H I) by lia.
  rewrite Z.sub_diag.
  rewrite slice_all by (unfold len; rewrite !length_app; simpl; lia).
  reflexivity.
Qed.

(** C9 at the input where the code leaves it: a value whose [Headers] hold
    65534 bytes, fewer than 2^16.  [Bytes] writes the length 65534 in front;
    reading it back, [2 + headLength] is computed in [uint16] and wraps to
    0, the slice [data[2:0]] has its bounds in the wrong order, and
    [NewImageWithMetaFromCache] panics instead of returning the value. *)
Theorem NewImageWithMetaFromCache_panics_at_65534 :
  let m := {| ImageMeta.Headers := repeat "a"%char (Z.to_nat 65534); ImageMeta.Image := [] |} in
  len (ImageMeta.Headers m) < 2 ^ 16 /\
  ImageMeta.NewImageWithMetaFromCache (ImageMeta.Bytes m) = None.
Proof. vm_compute. split; reflexivity. Qed.

(** * media_utils: aligned expiry *)

Lemma int64_small (z : Z) : - 2 ^ 63 <= z < 2 ^ 63 -> int64 z = z.
Proof.
  intros H. unfold int64. rewrite Z.mod_small; lia.
Qed.

Lemma ChecksumIEEE_range (data : list ascii) :
  0 <= crc32.ChecksumIEEE data < 2 ^ 32.
Proof.
  unfold crc32.ChecksumIEEE, uint32. apply Z.mod_pos_bound. lia.
Qed.

(** C7 (amended): for a clock that is not before 1970 and a lifetime L
    with now + 2 * max(L, 86400) < 2^63, no operation wraps:
    [GenerateAlignedExpire] returns the aligned expiry
    ((now + L' - 1) / L') * L' + crc32(key) mod L', bumped by L' when it is
    less than L' after now, and the result is at least L' after now. *)
Theorem GenerateAlignedExpire_aligned (now : Z) (key : string) (L : Z) :
  0 <= now ->
  now + 2 * Z.max L 86400 < 2 ^ 63 ->
  media_utils.GenerateAlignedExpire now key L = alignedExpire now key L
  /\ media_utils.GenerateAlignedExpire now key L - now >= Z.max L 86400.
Proof.
  intros Hnow Hbound.
  unfold media_utils.GenerateAlignedExpire, alignedExpire.
  change (3600 * 24) with 86400.
  replace (if L <? 86400 then 86400 else L) with (Z.max L 86400)
    by (destruct (Z.ltb_spec L 86400); lia).
  set (L' := Z.max L 86400) in *.
  assert (HL : 86400 <= L') by (unfold L'; lia).
  pose proof (ChecksumIEEE_range (bytes_of_string key)) as Hcrc.
  set (c := crc32.ChecksumIEEE (bytes_of_string key)) in *.
  rewrite Z.rem_mod_nonneg by lia.
  pose proof (Z.mod_pos_bound c L' ltac:(lia)) as Hoff.
  set (offset := c mod L') in *.
  rewrite (int64_small (now + L')) by lia.
  rewrite (int64_small (now + L' - 1)) by lia.
  rewrite Z.quot_div_nonneg by lia.
  pose proof (Z.div_mod (now + L' - 1) L' ltac:(lia)) as Hdm.
  pose proof (Z.mod_pos_bound (now + L' - 1) L' ltac:(lia)) as Hr.
  set (q := (now + L' - 1) / L') in *.
  set (r := (now + L' - 1) mod L') in *.
  assert (Hp : q * L' = now + L' - 1 - r) by lia.
  rewrite Hp.
  rewrite (int64_small (now + L' - 1 - r)) by lia.
  rewrite (int64_small (now + L' - 1 - r + offset)) by lia.
  rewrite (int64_small (now + L' - 1 - r + offset - now)) by lia.
  destruct (Z.ltb_spec (now + L' - 1 - r + offset - now) L').
  - rewrite int64_small by lia. lia.
  - lia.
Qed.

(** At a concrete input. *)
Lemma GenerateAlignedExpire_aligned_witness :
  0 <= 1700000000 /\ 1700000000 + 2 * Z.max 3600 86400 < 2 ^ 63 /\
  media_utils.GenerateAlignedExpire 1700000000 "a" 3600 = 1700119107.
Proof.
  split; [lia|]. split; [lia|].
  destruct (GenerateAlignedExpire_aligned 1700000000 "a" 3600) as [E _];
    [lia | lia |].
  rewrite E. reflexivity.
Defined.

(** C7 as stated fails: with the largest lifetime the sum [now + L - 1]
    wraps, and the result lies before [now]. *)
Lemma GenerateAlignedExpire_wraps :
  let now := 1700000000 in
  let L := 2 ^ 63 - 1 in
  media_utils.GenerateAlignedExpire now "a" L = - 2 ^ 63 + 3904355906
  /\ ~ (media_utils.GenerateAlignedExpire now "a" L - now >= Z.max L 86400).
Proof.
  vm_compute. split; [reflexivity|]. intros H. apply H. reflexivity.
Qed.

(** * encoding/base64: decoding undoes encoding *)

Lemma lor_disjoint (x y n : Z) :
  0 <= n -> x mod 2 ^ n = 0 -> 0 <= y < 2 ^ n -> Z.lor x y = x + y.
Proof.
  intros Hn Hx Hy.
  assert (E : x = Z.shiftl (x / 2 ^ n) n).
  { rewrite Z.shiftl_mul_pow2 by lia.
    pose proof (Z.div_mod x (2 ^ n) ltac:(lia)). lia. }
  rewrite E at 1. rewrite Z.lor_comm, lor_shiftl_add by lia.
  pose proof (Z.div_mod x (2 ^ n) ltac:(lia)). lia.
Qed.

Lemma decodeMap_encode (v : Z) :
  base64.decodeMap (base64.encode v) = Some (v mod 64).
Proof.
  unfold base64.encode. change 63 with (Z.ones 6). rewrite Z.land_ones by lia.
  change (2 ^ 6) with 64.
  pose proof (Z.mod_pos_bound v 64 ltac:(lia)) as Hb.
  set (w := v mod 64) in *.
  assert (Hall : forallb (fun n : nat =>
            match base64.decodeMap (nth n base64.encodeURL "A"%char) with
            | Some u => u =? Z.of_nat n
            | None => false
            end) (seq 0 64) = true) by (vm_compute; reflexivity).
  rewrite forallb_forall in Hall.
  specialize (Hall (Z.to_nat w)).
  destruct (base64.decodeMap _) as [u|].
  - f_equal. apply Z.eqb_eq in Hall; [lia|]. apply in_seq. lia.
  - discriminate Hall. apply in_seq. lia.
Qed.

(** Induction on a byte sequence three bytes at a time. *)
Lemma list_ind3 {A} (P : list A -> Prop) :
  P [] -> (forall a, P [a]) -> (forall a b, P [a; b]) ->
  (forall a b c l, P l -> P (a :: b :: c :: l)) ->
  forall l, P l.
Proof.
  intros H0 H1 H2 H3.
  assert (H : forall n l, (length l <= n)%nat -> P l).
  { induction n as [|n IH]; intros l Hl.
    - destruct l; [assumption | simpl in Hl; lia].
    - destruct l as [|a [|b [|c l]]]; auto.
      apply H3, IH. simpl in Hl. lia. }
  intros l. apply (H (length l)). lia.
Qed.

Lemma quantum3 (a b c : Z) :
  0 <= a < 256 -> 0 <= b < 256 -> 0 <= c < 256 ->
  let val := Z.lor (Z.lor (Z.shiftl a 16) (Z.shiftl b 8)) c in
  let s0 := Z.shiftr val 18 mod 64 in
  let s1 := Z.shiftr val 12 mod 64 in
  let s2 := Z.shiftr val 6 mod 64 in
  let s3 := val mod 64 in
  let val' := Z.lor (Z.lor (Z.lor (Z.shiftl s0 18) (Z.shiftl s1 12)) (Z.shiftl s2 6)) s3 in
  Z.shiftr val' 16 mod 256 = a /\ Z.shiftr val' 8 mod 256 = b /\ val' mod 256 = c.
Proof.
  intros Ha Hb Hc. cbv zeta.
  rewrite !Z.shiftl_mul_pow2 by lia.
  change (2 ^ 16) with 65536. change (2 ^ 8) with 256.
  change (2 ^ 18) with 262144. change (2 ^ 12) with 4096. change (2 ^ 6) with 64.
  rewrite (lor_disjoint (a * 65536) (b * 256) 16) by (try change (2 ^ 16) with 65536; try lia; Z.div_mod_to_equations; lia).
  rewrite (lor_disjoint (a * 65536 + b * 256) c 8) by (try change (2 ^ 8) with 256; try lia; Z.div_mod_to_equations; lia).
  set (val := a * 65536 + b * 256 + c).
  rewrite !Z.shiftr_div_pow2 by lia.
  change (2 ^ 18) with 262144. change (2 ^ 12) with 4096. change (2 ^ 6) with 64.
  assert (H0 : 0 <= val / 262144 mod 64 < 64) by (apply Z.mod_pos_bound; lia).
  assert (H1 : 0 <= val / 4096 mod 64 < 64) by (apply Z.mod_pos_bound; lia).
  assert (H2 : 0 <= val / 64 mod 64 < 64) by (apply Z.mod_pos_bound; lia).
  assert (H3 : 0 <= val mod 64 < 64) by (apply Z.mod_pos_bound; lia).
  rewrite (lor_disjoint (val / 262144 mod 64 * 262144) (val / 4096 mod 64 * 4096) 18)
    by (try change (2 ^ 18) with 262144; try lia; Z.div_mod_to_equations; lia).
  rewrite (lor_disjoint _ (val / 64 mod 64 * 64) 12)
    by (try change (2 ^ 12) with 4096; try lia; Z.div_mod_to_equations; lia).
  rewrite (lor_disjoint _ (val mod 64) 6)
    by (try change (2 ^ 6) with 64; try lia; Z.div_mod_to_equations; lia).
  change (2 ^ 16) with 65536. change (2 ^ 8) with 256.
  assert (E : val / 262144 mod 64 * 262144 + val / 4096 mod 64 * 4096
              + val / 64 mod 64 * 64 + val mod 64 = val).
  { subst val. Z.div_mod_to_equations. lia. }
  rewrite E. subst val. repeat split; Z.div_mod_to_equations; lia.
Qed.

Lemma quantum2 (a b : Z) :
  0 <= a < 256 -> 0 <= b < 256 ->
  let val := Z.lor (Z.shiftl a 16) (Z.shiftl b 8) in
  let s0 := Z.shiftr val 18 mod 64 in
  let s1 := Z.shiftr val 12 mod 64 in
  let s2 := Z.shiftr val 6 mod 64 in
  let val' := Z.lor (Z.lor (Z.shiftl s0 18) (Z.shiftl s1 12)) (Z.shiftl s2 6) in
  Z.shiftr val' 16 mod 256 = a /\ Z.shiftr val' 8 mod 256 = b.
Proof.
  intros Ha Hb.
  pose proof (quantum3 a b 0 Ha Hb ltac:(lia)) as H. cbv zeta in *.
  rewrite Z.lor_0_r in H.
  set (val := Z.lor (Z.shiftl a 16) (Z.shiftl b 8)) in *.
  assert (E : val mod 64 = 0).
  { subst val. rewrite !Z.shiftl_mul_pow2 by lia.
    rewrite (lor_disjoint (a * 2 ^ 16) (b * 2 ^ 8) 16)
      by (change (2 ^ 16) with 65536; change (2 ^ 8) with 256; try lia;
          Z.div_mod_to_equations; lia).
    change (2 ^ 16) with 65536; change (2 ^ 8) with 256.
    Z.div_mod_to_equations; lia. }
  rewrite E, Z.lor_0_r in H. tauto.
Qed.

Lemma quantum1 (a : Z) :
  0 <= a < 256 ->
  let val := Z.shiftl a 16 in
  let s0 := Z.shiftr val 18 mod 64 in
  let s1 := Z.shiftr val 12 mod 64 in
  let val' := Z.lor (Z.shiftl s0 18) (Z.shiftl s1 12) in
  Z.shiftr val' 16 mod 256 = a.
Proof.
  intros Ha.
  pose proof (quantum2 a 0 Ha ltac:(lia)) as H. cbv zeta in *.
  rewrite (Z.shiftl_0_l 8), Z.lor_0_r in H.
  set (val := Z.shiftl a 16) in *.
  assert (E : Z.shiftr val 6 mod 64 = 0).
  { subst val. rewrite Z.shiftl_mul_pow2, Z.shiftr_div_pow2 by lia.
    change (2 ^ 16) with 65536; change (2 ^ 6) with 64.
    Z.div_mod_to_equations; lia. }
  rewrite E, (Z.shiftl_0_l 6), Z.lor_0_r in H. tauto.
Qed.

Lemma byte_of_Z_eq (z : Z) (a : ascii) : z mod 256 = Z_of_byte a -> byte_of_Z z = a.
Proof.
  intros H. rewrite <- (byte_of_Z_of_byte a), <- H.
  unfold byte_of_Z. now rewrite Z.mod_mod by lia.
Qed.

Lemma decodeChars_cons_encode (v : Z) (cs : list ascii) :
  base64.decodeChars (base64.encode v :: cs)
  = option_map (cons (v mod 64)) (base64.decodeChars cs).
Proof. simpl. now rewrite decodeMap_encode. Qed.

Lemma Encode_decodes (src : list ascii) :
  exists vs, base64.decodeChars (base64.Encode src) = Some vs
             /\ base64.decodeQuanta vs = Some src.
Proof.
  induction src as [|a|a b|a b c l [vs [Hc Hq]]] using list_ind3.
  - exists []. split; reflexivity.
  - eexists. split.
    + cbn [base64.Encode]. rewrite !decodeChars_cons_encode. reflexivity.
    + cbn [base64.decodeQuanta]. do 2 f_equal.
      apply byte_of_Z_eq, quantum1, Z_of_byte_range.
  - eexists. split.
    + cbn [base64.Encode]. rewrite !decodeChars_cons_encode. reflexivity.
    + cbn [base64.decodeQuanta].
      destruct (quantum2 (Z_of_byte a) (Z_of_byte b)) as [E1 E2];
        try apply Z_of_byte_range.
      do 2 f_equal; [| f_equal]; apply byte_of_Z_eq; assumption.
  - eexists. split.
    + cbn [base64.Encode]. rewrite !decodeChars_cons_encode, Hc. reflexivity.
    + cbn [base64.decodeQuanta option_map]. rewrite Hq. cbn [option_map].
      destruct (quantum3 (Z_of_byte a) (Z_of_byte b) (Z_of_byte c)) as [E1 [E2 E3]];
        try apply Z_of_byte_range.
      do 2 f_equal; [| f_equal; [| f_equal]]; apply byte_of_Z_eq; assumption.
Qed.

Lemma DecodeString_EncodeToString (src : list ascii) :
  base64.DecodeString (base64.EncodeToString src) = Some src.
Proof.
  unfold base64.DecodeString, base64.EncodeToString.
  rewrite list_ascii_of_string_of_list_ascii.
  destruct (Encode_decodes src) as [vs [-> Hq]]. exact Hq.
Qed.

(** * crypto: the length of a digest *)

Lemma Sum256_length (msg : list ascii) : length (sha256.Sum256 msg) = 32%nat.
Proof. unfold sha256.Sum256. rewrite !length_app. reflexivity. Qed.

Lemma hmac_Sum_length (key msg : list ascii) : length (hmac.Sum key msg) = 32%nat.
Proof. unfold hmac.Sum. apply Sum256_length. Qed.

Lemma hmac_Equal_refl (mac : list ascii) : hmac.Equal mac mac = true.
Proof.
  induction mac as [|a mac IH]; [reflexivity|].
  simpl. now rewrite Ascii.eqb_refl, IH.
Qed.

(** * media_utils: signing and verification *)

Lemma Uint32_PutUint32 (v : Z) :
  0 <= v < 2 ^ 32 -> binary.Uint32 (binary.PutUint32 v) = v.
Proof.
  intros Hv. unfold binary.PutUint32, binary.Uint32.
  rewrite !Z_of_byte_of_Z, !Z.shiftr_div_pow2 by lia.
  change (2 ^ 32) with 4294967296 in Hv.
  change (2 ^ 24) with 16777216. change (2 ^ 16) with 65536. change (2 ^ 8) with 256.
  rewrite (lor_shiftl_add _ (v mod 256) 8)
    by (change (2 ^ 8) with 256; try lia; apply Z.mod_pos_bound; lia).
  rewrite (lor_shiftl_add _ _ 16)
    by (change (2 ^ 8) with 256; change (2 ^ 16) with 65536; try lia;
        Z.div_mod_to_equations; lia).
  rewrite (lor_shiftl_add _ _ 24)
    by (change (2 ^ 8) with 256; change (2 ^ 16) with 65536;
        change (2 ^ 24) with 16777216; try lia; Z.div_mod_to_equations; lia).
  change (2 ^ 24) with 16777216. change (2 ^ 16) with 65536. change (2 ^ 8) with 256.
  Z.div_mod_to_equations; lia.
Qed.

Lemma testbit_uint32 (x i : Z) :
  0 <= i -> Z.testbit (uint32 x) i = (i <? 32) && Z.testbit x i.
Proof.
  intros Hi. unfold uint32. destruct (Z.ltb_spec i 32).
  - now rewrite Z.mod_pow2_bits_low by lia.
  - now rewrite Z.mod_pow2_bits_high by lia.
Qed.

(** Decoding the obfuscated expiry gives back the low 32 bits of the time. *)
Lemma unmask_expiry (t M : Z) :
  Z.lxor (uint32 (Z.lxor t M)) (uint32 M) = uint32 t.
Proof.
  apply Z.bits_inj'. intros i Hi.
  rewrite Z.lxor_spec, !testbit_uint32, Z.lxor_spec by lia.
  destruct (i <? 32), (Z.testbit t i), (Z.testbit M i); reflexivity.
Qed.

Lemma PutUint32_length (v : Z) : length (binary.PutUint32 v) = 4%nat.
Proof. reflexivity. Qed.

(** What [SimpleVerify] computes on a token made by [signToken]. *)
Lemma SimpleVerify_signToken_eq (cfg : config.t) (now : Z) (path ts : string)
    (t : Z) (checkExpire : bool) :
  media_utils.SimpleVerify cfg now path ts (media_utils.signToken cfg path ts t) checkExpire
  = negb (checkExpire && (now >? uint32 t)).
Proof.
  unfold media_utils.SimpleVerify, media_utils.signToken, media_utils.SimpleTimeToStr.
  rewrite DecodeString_EncodeToString.
  set (oeBytes := binary.PutUint32 (uint32 (Z.lxor t (config.MagicNum cfg)))).
  set (want := media_utils.SimpleToken cfg (media_utils.stripSlash path) ts
                 (base64.EncodeToString oeBytes)).
  assert (Hw : length want = 32%nat) by apply hmac_Sum_length.
  assert (Hl : length (want ++ oeBytes) = 36%nat)
    by (rewrite length_app, Hw; reflexivity).
  unfold len. rewrite Hl. cbn [Z.of_nat Z.ltb Z.compare Pos.of_succ_nat Pos.succ
                               Pos.compare Pos.compare_cont].
  change (36 - 4)%nat with 32%nat.
  rewrite <- Hw, drop_app_length, take_app_length.
  unfold oeBytes at 1.
  rewrite Uint32_PutUint32 by (unfold uint32; apply Z.mod_pos_bound; lia).
  rewrite unmask_expiry.
  unfold media_utils.SimpleTimeByteToStr. fold want.
  rewrite hmac_Equal_refl.
  destruct (checkExpire && (now >? uint32 t)); reflexivity.
Qed.

(** C6 (amended): for an expiry time t that fits the four bytes of the
    token, 0 <= t < 2^32, the token of [SimpleSignUrlWithTime(path, ts, t)]
    verifies against the same path and ts while now <= t, and is refused
    once t < now when [checkExpire] is set. *)
Theorem SimpleVerify_signToken (cfg : config.t) (now : Z) (path ts : string) (t : Z) :
  0 <= t < 2 ^ 32 ->
  (now <= t ->
   forall checkExpire,
     media_utils.SimpleVerify cfg now path ts
       (media_utils.signToken cfg path ts t) checkExpire = true)
  /\ (t < now ->
      media_utils.SimpleVerify cfg now path ts
        (media_utils.signToken cfg path ts t) true = false).
Proof.
  intros Ht.
  assert (Hu : uint32 t = t) by (unfold uint32; apply Z.mod_small; lia).
  split.
  - intros Hle checkExpire. rewrite SimpleVerify_signToken_eq, Hu.
    replace (now >? t) with false by (symmetry; rewrite Z.gtb_ltb; apply Z.ltb_ge; lia).
    now rewrite andb_false_r.
  - intros Hlt. rewrite SimpleVerify_signToken_eq, Hu.
    replace (now >? t) with true by (symmetry; rewrite Z.gtb_ltb; apply Z.ltb_lt; lia).
    reflexivity.
Qed.

(** The URL made by [SimpleSignUrlWithTime] carries that token in [tk]. *)
Lemma SimpleSignUrlWithTime_token (cfg : config.t) (path ts : string) (t : Z) :
  media_utils.SimpleSignUrlWithTime cfg path ts t
  = (media_utils.stripSlash path
     ++ (if (0 <? Z.of_nat (String.length ts))%Z then "?ts=" ++ ts ++ "&tk=" else "?tk=")
     ++ media_utils.signToken cfg path ts t)%string.
Proof.
  unfold media_utils.SimpleSignUrlWithTime.
  destruct (0 <? Z.of_nat (String.length ts)); [|reflexivity].
  now rewrite !append_assoc.
Qed.

Lemma SimpleVerify_signToken_witness :
  0 <= 1700000010 < 2 ^ 32 /\ 1700000000 <= 1700000010 /\
  media_utils.SimpleVerify sample.cfg 1700000000 "/production/cover.png" "121212"
    (media_utils.signToken sample.cfg "/production/cover.png" "121212" 1700000010)
    true = true.
Proof.
  split; [lia|]. split; [lia|].
  apply (SimpleVerify_signToken sample.cfg 1700000000 "/production/cover.png"
           "121212" 1700000010); lia.
Defined.

(** C6 as stated fails outside that range: an expiry after 2^32 lies in the
    future and its token is refused; a negative expiry lies in the past and
    its token is accepted. *)
Lemma SimpleVerify_expiry_truncated :
  let now := 1700000000 in
  (now <= 2 ^ 32 + 5 /\
   media_utils.SimpleVerify sample.cfg now "/production/cover.png" "121212"
     (media_utils.signToken sample.cfg "/production/cover.png" "121212" (2 ^ 32 + 5))
     true = false)
  /\ (-1 < now /\
      media_utils.SimpleVerify sample.cfg now "/production/cover.png" "121212"
        (media_utils.signToken sample.cfg "/production/cover.png" "121212" (-1))
        true = true).
Proof.
  cbv zeta. rewrite !SimpleVerify_signToken_eq. vm_compute.
  repeat split; discriminate.
Qed.

(** * strings: splitting *)

Lemma split_scan_pass (sep : ascii) (limit : option nat) (a : string) :
  no_byte sep a = true ->
  forall cur r,
    strings.split_scan (String sep "") limit O cur (a ++ r)
    = strings.split_scan (String sep "") limit O (rev (list_ascii_of_string a) ++ cur) r.
Proof.
  induction a as [|c a IH]; intros Ha cur r; [reflexivity|].
  simpl in Ha. apply andb_true_iff in Ha as [Hc Ha].
  cbn [String.append strings.split_scan strings.HasPrefix].
  rewrite Ascii.eqb_sym. apply negb_true_iff in Hc. rewrite Hc.
  cbn [andb]. replace (match limit with Some 0%nat => false | _ => false end) with false
    by (destruct limit as [[|]|]; reflexivity).
  rewrite IH by assumption. cbn [list_ascii_of_string rev].
  now rewrite <- app_assoc.
Qed.

Lemma string_of_rev_rev (a : string) (cur : list ascii) :
  string_of_list_ascii (rev (rev (list_ascii_of_string a) ++ cur))
  = (string_of_list_ascii (rev cur) ++ a)%string.
Proof.
  rewrite rev_app_distr, rev_involutive.
  induction (rev cur) as [|x l IH]; simpl.
  - apply string_of_list_ascii_of_string.
  - now rewrite IH.
Qed.

(** Splitting at a separator byte: a piece without it, then the rest. *)
Lemma Split_cons (c : ascii) (a r : string) :
  no_byte c a = true ->
  strings.Split (a ++ String c r) (String c "") = a :: strings.Split r (String c "").
Proof.
  intros Ha. unfold strings.Split, strings.SplitN. cbn [Z.eqb Z.ltb Z.compare].
  rewrite split_scan_pass by assumption.
  cbn [strings.split_scan strings.HasPrefix]. rewrite Ascii.eqb_refl. cbn [andb option_map].
  rewrite app_nil_r.
  pose proof (string_of_rev_rev a []) as E. rewrite app_nil_r in E.
  simpl in E. rewrite E. reflexivity.
Qed.

Lemma Split_last (c : ascii) (a : string) :
  no_byte c a = true -> strings.Split a (String c "") = [a].
Proof.
  intros Ha. unfold strings.Split, strings.SplitN. cbn [Z.eqb Z.ltb Z.compare].
  rewrite <- (append_nil_r a) at 1.
  rewrite split_scan_pass by assumption.
  cbn [strings.split_scan]. rewrite app_nil_r.
  pose proof (string_of_rev_rev a []) as E. rewrite app_nil_r in E.
  simpl in E. now rewrite E.
Qed.

Lemma split_scan_closed (sep : string) (s : string) :
  forall cur,
    strings.split_scan sep (Some O) O cur s
    = [(string_of_list_ascii (rev cur) ++ s)%string].
Proof.
  induction s as [|c s IH]; intros cur.
  - simpl. now rewrite append_nil_r.
  - cbn [strings.split_scan]. rewrite IH. cbn [rev].
    f_equal. clear IH. induction (rev cur) as [|x l IHl]; simpl; [reflexivity|].
    now rewrite IHl.
Qed.

(** Cutting once at the first separator byte. *)
Lemma SplitN2 (sep : ascii) (a b : string) :
  no_byte sep a = true ->
  strings.SplitN (a ++ String sep b) (String sep "") 2 = [a; b].
Proof.
  intros Ha. unfold strings.SplitN. cbn [Z.eqb Z.ltb Z.compare Z.to_nat Pos.to_nat Pos.iter_op].
  change (2 - 1)%nat with 1%nat.
  rewrite split_scan_pass by assumption.
  cbn [strings.split_scan strings.HasPrefix]. rewrite Ascii.eqb_refl. cbn [andb option_map Nat.pred].
  rewrite app_nil_r.
  pose proof (string_of_rev_rev a []) as E. rewrite app_nil_r in E. simpl in E.
  rewrite E. f_equal. cbn [String.length Nat.sub]. now rewrite split_scan_closed.
Qed.

Lemma Contains_byte (sep : ascii) (a b : string) :
  strings.Contains (a ++ String sep b) (String sep "") = true.
Proof.
  unfold strings.Contains.
  induction a as [|c a IH].
  - cbn [String.append strings.Index strings.HasPrefix]. now rewrite Ascii.eqb_refl.
  - cbn [String.append strings.Index].
    destruct (strings.HasPrefix (String c (a ++ String sep b)) (String sep "")); [reflexivity|].
    destruct (strings.Index (a ++ String sep b) (String sep "")); [reflexivity | discriminate].
Qed.

Lemma no_byte_app (c : ascii) (a b : string) :
  no_byte c (a ++ b) = no_byte c a && no_byte c b.
Proof.
  unfold no_byte. induction a as [|x a IH]; [reflexivity|].
  cbn [String.append all_bytes]. now rewrite IH, andb_assoc.
Qed.

(** * strconv: [Atoi] reads back what [%d] prints *)

Lemma string_of_uint_digits (d : uint) :
  all_bytes imageproxy.isDigit (NilEmpty.string_of_uint d) = true.
Proof. induction d; simpl; auto. Qed.

Lemma all_bytes_impl (P Q : ascii -> bool) (s : string) :
  (forall c, P c = true -> Q c = true) ->
  all_bytes P s = true -> all_bytes Q s = true.
Proof.
  intros HPQ. induction s as [|c s IH]; [reflexivity|].
  simpl. rewrite !andb_true_iff. intros [Hc Hs]. auto.
Qed.

Lemma isDigit_not (c d : ascii) :
  imageproxy.isDigit d = false -> imageproxy.isDigit c = true ->
  negb (Ascii.eqb c d) = true.
Proof.
  intros Hd Hc. destruct (Ascii.eqb_spec c d); [congruence | reflexivity].
Qed.

Lemma Itoa_bytes (z : Z) : all_bytes is_digit_or_minus (strconv.Itoa z) = true.
Proof.
  assert (H : forall d, all_bytes is_digit_or_minus (NilZero.string_of_uint d) = true).
  { intros d. destruct d; try reflexivity;
      apply (all_bytes_impl imageproxy.isDigit);
      try (intros c Hc; unfold is_digit_or_minus; now rewrite Hc);
      apply (string_of_uint_digits (_ d)). }
  unfold strconv.Itoa. destruct (Z.to_int z); simpl; [apply H|].
  apply H.
Qed.

Lemma Itoa_no_byte (c : ascii) (z : Z) :
  is_digit_or_minus c = false -> no_byte c (strconv.Itoa z) = true.
Proof.
  intros Hc. apply (all_bytes_impl is_digit_or_minus); [|apply Itoa_bytes].
  intros d Hd. destruct (Ascii.eqb_spec d c); [congruence | reflexivity].
Qed.

Lemma parse_digits_to_uint (p : positive) :
  strconv.parse_digits (NilEmpty.string_of_uint (Pos.to_uint p)) = Some (Zpos p).
Proof.
  unfold strconv.parse_digits.
  rewrite NilEmpty.usu. cbn [option_map].
  unfold Z.of_uint. rewrite DecimalPos.Unsigned.of_to.
  destruct (NilEmpty.string_of_uint (Pos.to_uint p)) eqn:E; [|reflexivity].
  exfalso. apply (DecimalPos.Unsigned.to_uint_nonnil p).
  destruct (Pos.to_uint p); try discriminate E; reflexivity.
Qed.

Lemma to_uint_string (p : positive) :
  NilZero.string_of_uint (Pos.to_uint p) = NilEmpty.string_of_uint (Pos.to_uint p)
  /\ exists c r, NilEmpty.string_of_uint (Pos.to_uint p) = String c r
                 /\ imageproxy.isDigit c = true.
Proof.
  pose proof (DecimalPos.Unsigned.to_uint_nonnil p) as Hn.
  destruct (Pos.to_uint p); try congruence; (split; [reflexivity|]);
    simpl; eexists _, _; (split; [reflexivity|reflexivity]).
Qed.

Lemma Atoi_Itoa (z : Z) : is_int z -> strconv.Atoi (strconv.Itoa z) = (z, true).
Proof.
  unfold is_int. intros Hz. unfold strconv.Itoa.
  destruct z as [|p|p]; [reflexivity| |]; cbn [Z.to_int NilZero.string_of_int].
  - destruct (to_uint_string p) as [-> [c [r [E Hc]]]].
    unfold strconv.Atoi.
    replace (match NilEmpty.string_of_uint (Pos.to_uint p) with
             | String "+" r0 => (false, r0)
             | String "-" r0 => (true, r0)
             | _ => (false, NilEmpty.string_of_uint (Pos.to_uint p))
             end) with (false, NilEmpty.string_of_uint (Pos.to_uint p)).
    2:{ rewrite E.
        destruct (Ascii.eqb_spec c "+") as [->|]; [discriminate Hc|].
        destruct (Ascii.eqb_spec c "-") as [->|]; [discriminate Hc|].
        destruct c as [[] [] [] [] [] [] [] []]; try reflexivity; congruence. }
    rewrite parse_digits_to_uint. unfold strconv.MaxInt64.
    destruct (Z.leb_spec (Z.pos p) (2 ^ 63 - 1)); [reflexivity | lia].
  - destruct (to_uint_string p) as [-> _].
    unfold strconv.Atoi. rewrite parse_digits_to_uint.
    destruct (Z.leb_spec (Z.pos p) (2 ^ 63)); [reflexivity | lia].
Qed.

(** * imageproxy: the option DSL *)

Lemma Split_commas (t0 : string) (ts : list string) :
  no_byte "," t0 = true -> Forall (fun t => no_byte "," t = true) ts ->
  strings.Split (t0 ++ commas ts) "," = t0 :: ts.
Proof.
  intros H0 Hts. revert t0 H0. induction Hts as [|t ts Ht Hts IH]; intros t0 H0.
  - simpl. rewrite append_nil_r. now apply (Split_last ",").
  - cbn [commas]. change ("," ++ t ++ commas ts)%string with (String "," (t ++ commas ts)).
    rewrite (Split_cons ",") by assumption. f_equal. now apply IH.
Qed.

Section OptionsCodec.

Variable FormatFloat : float64.t -> string.
Variable ParseFloat : string -> float64.t * bool.

Local Abbreviation Options_String := (imageproxy.Options_String FormatFloat).
Local Abbreviation ParseOptions := (imageproxy.ParseOptions ParseFloat).
Local Abbreviation parseOption := (imageproxy.parseOption ParseFloat).

Local Abbreviation prints_back := (prints_back FormatFloat ParseFloat).
Local Abbreviation size_text := (size_text FormatFloat).

Lemma Options_String_flags (o : imageproxy.Options) :
  Options_String o
  = let buf := (size_text o ++ commas (flags o))%string in
    if String.eqb buf "0x0" then ""%string else buf.
Proof.
  unfold imageproxy.Options_String, size_text, flags, flag.
  unfold imageproxy.optSizeDelimiter, imageproxy.optFit, imageproxy.optRotatePrefix,
    imageproxy.optFlipVertical, imageproxy.optFlipHorizontal,
    imageproxy.optQualityPrefix, imageproxy.optFormatPrefix.
  cbv zeta.
  destruct (imageproxy.Fit o), (negb (imageproxy.Rotate o =? 0)),
    (imageproxy.FlipVertical o), (imageproxy.FlipHorizontal o),
    (negb (imageproxy.Quality o =? 0)),
    (0 <? Z.of_nat (String.length (imageproxy.Format o)));
    cbn [app commas]; rewrite ?append_assoc, ?append_nil_r; reflexivity.
Qed.

Lemma float_text_inv (s : string) :
  float_text s = true ->
  exists c r, s = String c r
    /\ Ascii.eqb c "r" = false /\ Ascii.eqb c "q" = false /\ Ascii.eqb c "f" = false
    /\ no_byte "," s = true /\ no_byte "x" s = true.
Proof.
  destruct s as [|c r]; [discriminate|]. unfold float_text.
  rewrite !andb_true_iff, !negb_true_iff. intros [[[[H1 H2] H3] H4] H5].
  exists c, r. auto 10.
Qed.

(** The size option: both halves go through [ParseFloat]. *)
Lemma parseOption_size (st : imageproxy.Options) (w h : string) :
  float_text w = true -> float_text h = true ->
  parseOption st (w ++ "x" ++ h)
  = imageproxy.set_Height (imageproxy.set_Width st (fst (ParseFloat w)))
      (fst (ParseFloat h)).
Proof.
  intros Hw Hh.
  destruct (float_text_inv w Hw) as [c [r [-> [Hr [Hq [Hf [_ Hx]]]]]]].
  destruct (float_text_inv h Hh) as [c' [r' [-> _]]].
  unfold imageproxy.parseOption.
  cbn [String.append String.length Nat.eqb].
  unfold imageproxy.optFit, imageproxy.optFlipVertical, imageproxy.optFlipHorizontal,
    imageproxy.optRotatePrefix, imageproxy.optQualityPrefix, imageproxy.optFormatPrefix,
    imageproxy.optSizeDelimiter.
  cbn [String.eqb strings.HasPrefix]. rewrite (Ascii.eqb_sym "r"%char), (Ascii.eqb_sym "q"%char),
    (Ascii.eqb_sym "f"%char), Hr, Hq, Hf. cbn [andb].
  replace (String.eqb (String c (r ++ String "x" (String c' r'))) "fit") with false
    by (cbn [String.eqb]; now rewrite Hf).
  replace (String.eqb (String c (r ++ String "x" (String c' r'))) "fv") with false
    by (cbn [String.eqb]; now rewrite Hf).
  replace (String.eqb (String c (r ++ String "x" (String c' r'))) "fh") with false
    by (cbn [String.eqb]; now rewrite Hf).
  change (String c (r ++ String "x" (String c' r')))
    with (String c r ++ String "x" (String c' r'))%string.
  rewrite Contains_byte. unfold imageproxy.parseSize.
  rewrite SplitN2 by assumption.
  reflexivity.
Qed.

Lemma parseOption_rotate (st : imageproxy.Options) (z : Z) :
  is_int z ->
  parseOption st ("r" ++ strconv.Itoa z) = imageproxy.set_Rotate st z.
Proof.
  intros Hz. unfold imageproxy.parseOption, imageproxy.optRotatePrefix, strings.TrimPrefix.
  cbn. now rewrite Atoi_Itoa.
Qed.

Lemma parseOption_quality (st : imageproxy.Options) (z : Z) :
  is_int z ->
  parseOption st ("q" ++ strconv.Itoa z) = imageproxy.set_Quality st z.
Proof.
  intros Hz. unfold imageproxy.parseOption, imageproxy.optQualityPrefix, strings.TrimPrefix.
  cbn. now rewrite Atoi_Itoa.
Qed.

Lemma parseOption_format (st : imageproxy.Options) (f : string) :
  format_text f = true ->
  parseOption st ("f" ++ f) = imageproxy.set_Format st f.
Proof.
  unfold format_text. rewrite !andb_true_iff, !negb_true_iff.
  intros [[[_ Hit] Hv] Hh].
  unfold imageproxy.parseOption, imageproxy.optFormatPrefix, strings.TrimPrefix.
  cbn. rewrite Hit, Hv, Hh. reflexivity.
Qed.

Lemma fold_flag (st : imageproxy.Options) (b : bool) (t : string) (rest : list string) :
  fold_left parseOption (flag b t ++ rest) st
  = fold_left parseOption rest (if b then parseOption st t else st).
Proof. destruct b; reflexivity. Qed.

Lemma flags_no_comma (o : imageproxy.Options) :
  format_text (imageproxy.Format o) = true ->
  Forall (fun t => no_byte "," t = true) (flags o).
Proof.
  intros Hf. unfold format_text in Hf. rewrite !andb_true_iff in Hf.
  destruct Hf as [[[Hf _] _] _].
  unfold flags, flag. rewrite !Forall_app.
  repeat split;
    match goal with |- Forall _ (if ?b then _ else _) => destruct b end;
    repeat constructor.
  - apply (Itoa_no_byte ","). reflexivity.
  - apply (Itoa_no_byte ","). reflexivity.
  - exact Hf.
Qed.

Lemma commas_nil_inv (ts : list string) :
  no_byte "," (commas ts) = true -> ts = [].
Proof. destruct ts; [reflexivity | discriminate]. Qed.

Lemma flags_nil_inv (o : imageproxy.Options) :
  flags o = [] ->
  imageproxy.Fit o = false /\ imageproxy.Rotate o = 0
  /\ imageproxy.FlipVertical o = false /\ imageproxy.FlipHorizontal o = false
  /\ imageproxy.Quality o = 0 /\ imageproxy.Format o = ""%string.
Proof.
  unfold flags, flag.
  destruct (imageproxy.Fit o); [discriminate|].
  destruct (Z.eqb_spec (imageproxy.Rotate o) 0); [|discriminate].
  destruct (imageproxy.FlipVertical o); [discriminate|].
  destruct (imageproxy.FlipHorizontal o); [discriminate|].
  destruct (Z.eqb_spec (imageproxy.Quality o) 0); [|discriminate].
  destruct (imageproxy.Format o); [|discriminate]. auto 10.
Qed.

Lemma size_zero_inv (a b : string) :
  float_text a = true -> (a ++ "x" ++ b = "0x0")%string -> a = "0"%string /\ b = "0"%string.
Proof.
  intros Ha E.
  destruct (float_text_inv a Ha) as [c [r [-> [_ [_ [_ [_ Hx]]]]]]].
  cbn [String.append] in E. injection E as -> E.
  destruct r as [|d r].
  - cbn [String.append] in E. injection E as E. now subst.
  - exfalso. cbn [String.append] in E. injection E as -> E.
    discriminate Hx.
Qed.

(** What the parser makes of the printed options. *)
Lemma fold_flags (o st : imageproxy.Options) :
  is_int (imageproxy.Rotate o) -> is_int (imageproxy.Quality o) ->
  format_text (imageproxy.Format o) = true ->
  imageproxy.Fit st = false -> imageproxy.Rotate st = 0 ->
  imageproxy.FlipVertical st = false -> imageproxy.FlipHorizontal st = false ->
  imageproxy.Quality st = 0 -> imageproxy.Format st = ""%string ->
  fold_left parseOption (flags o) st
  = {| imageproxy.Width := imageproxy.Width st; imageproxy.Height := imageproxy.Height st;
       imageproxy.Fit := imageproxy.Fit o; imageproxy.Rotate := imageproxy.Rotate o;
       imageproxy.FlipVertical := imageproxy.FlipVertical o;
       imageproxy.FlipHorizontal := imageproxy.FlipHorizontal o;
       imageproxy.Quality := imageproxy.Quality o;
       imageproxy.Format := imageproxy.Format o |}.
Proof.
  intros HR HQ HF. destruct st as [w h fit rot fv fh q f]. cbn.
  intros -> -> -> -> -> ->.
  unfold flags. rewrite !fold_flag.
  rewrite <- (app_nil_r (flag (0 <? _) _)), fold_flag. cbn [fold_left].
  rewrite parseOption_format by assumption.
  rewrite parseOption_quality by assumption.
  change (parseOption ?a "fh") with (imageproxy.set_FlipHorizontal a true).
  change (parseOption ?a "fv") with (imageproxy.set_FlipVertical a true).
  rewrite parseOption_rotate by assumption.
  change (parseOption ?a "fit") with (imageproxy.set_Fit a true).
  destruct o as [ow oh ofit orot ofv ofh oq ofmt]. cbn [imageproxy.Width
    imageproxy.Height imageproxy.Fit imageproxy.Rotate imageproxy.FlipVertical
    imageproxy.FlipHorizontal imageproxy.Quality imageproxy.Format] in *.
  destruct ofit, ofv, ofh, (Z.eqb_spec orot 0), (Z.eqb_spec oq 0), ofmt;
    subst; reflexivity.
Qed.

(** C1 (amended): an [Options] value is read back from its text by
    [ParseOptions(o.String(), false)], field by field, when its format
    name has no comma and is none of [it], [v] and [h] (behind the letter
    [f] these spell other options), its rotation and quality are ints, and
    its two sizes print as floats that [ParseFloat] reads back; and the
    all-zero [Options] prints as the empty string, never as [0x0]. *)
Theorem ParseOptions_String (o : imageproxy.Options) :
  is_int (imageproxy.Rotate o) -> is_int (imageproxy.Quality o) ->
  format_text (imageproxy.Format o) = true ->
  prints_back (imageproxy.Width o) -> prints_back (imageproxy.Height o) ->
  FormatFloat float64.zero = "0"%string -> prints_back float64.zero ->
  ParseOptions (Options_String o) false = o
  /\ Options_String imageproxy.emptyOptions = ""%string
  /\ Options_String o <> "0x0"%string.
Proof.
  intros HR HQ HF [HWt HWp] [HHt HHp] Hz [_ Hzp].
  split; [|split].
  - rewrite Options_String_flags. cbv zeta.
    destruct (String.eqb_spec (size_text o ++ commas (flags o)) "0x0") as [E|_].
    + assert (Hc : no_byte "," (size_text o ++ commas (flags o)) = true)
        by (rewrite E; reflexivity).
      rewrite no_byte_app in Hc. apply andb_true_iff in Hc as [_ Hc].
      apply commas_nil_inv in Hc. rewrite Hc in E. cbn [commas] in E.
      rewrite append_nil_r in E. unfold size_text in E.
      apply size_zero_inv in E as [EW EH]; [|assumption].
      apply flags_nil_inv in Hc as (H1 & H2 & H3 & H4 & H5 & H6).
      rewrite EW in HWp. rewrite EH in HHp. rewrite Hz in Hzp.
      assert (imageproxy.Width o = float64.zero) by congruence.
      assert (imageproxy.Height o = float64.zero) by congruence.
      destruct o; cbn in *; subst. reflexivity.
    + unfold imageproxy.ParseOptions. cbn [andb].
      rewrite Split_commas.
      * cbn [fold_left]. unfold size_text.
        rewrite parseOption_size by assumption.
        rewrite HWp, HHp. cbn [fst].
        rewrite fold_flags by (assumption || reflexivity).
        destruct o; reflexivity.
      * unfold size_text. rewrite !no_byte_app.
        apply float_text_inv in HWt as (? & ? & ? & ? & ? & ? & -> & ?).
        apply float_text_inv in HHt as (? & ? & ? & ? & ? & ? & -> & ?).
        reflexivity.
      * now apply flags_no_comma.
  - unfold imageproxy.Options_String. cbn. rewrite Hz. reflexivity.
  - unfold imageproxy.Options_String. cbv zeta.
    match goal with |- (if String.eqb ?b _ then _ else _) <> _ =>
      destruct (String.eqb_spec b "0x0") as [E|E]; [discriminate | exact E] end.
Qed.

End OptionsCodec.

(** C1, at a concrete input. *)
Lemma ParseOptions_String_witness :
  let o := {| imageproxy.Width := float64.of_int 1; imageproxy.Height := float64.of_int 2;
              imageproxy.Fit := true; imageproxy.Rotate := 90;
              imageproxy.FlipVertical := true; imageproxy.FlipHorizontal := true;
              imageproxy.Quality := 80; imageproxy.Format := "png" |} in
  imageproxy.Options_String sample.FormatFloat o = "1x2,fit,r90,fv,fh,q80,fpng"%string
  /\ imageproxy.ParseOptions sample.ParseFloat
       (imageproxy.Options_String sample.FormatFloat o) false = o.
Proof.
  intros o. split; [reflexivity|].
  apply (ParseOptions_String sample.FormatFloat sample.ParseFloat o).
  - unfold is_int. simpl. lia.
  - unfold is_int. simpl. lia.
  - reflexivity.
  - split; reflexivity.
  - split; reflexivity.
  - reflexivity.
  - split; reflexivity.
Defined.

(** C1 as stated fails: the format name [it] prints as the option [fit]. *)
Lemma ParseOptions_String_format_it :
  let o := imageproxy.set_Format imageproxy.emptyOptions "it" in
  imageproxy.Options_String sample.FormatFloat o = "0x0,fit"%string
  /\ imageproxy.ParseOptions sample.ParseFloat
       (imageproxy.Options_String sample.FormatFloat o) false
     = imageproxy.set_Fit imageproxy.emptyOptions true
  /\ imageproxy.ParseOptions sample.ParseFloat
       (imageproxy.Options_String sample.FormatFloat o) false <> o.
Proof.
  cbv zeta. split; [reflexivity|]. split; [reflexivity|].
  intros E. apply (f_equal imageproxy.Fit) in E. discriminate E.
Qed.

(** * net/url: queries *)

Lemma Split_joinAmp (l : list string) :
  Forall (fun s => no_byte "&" s = true) l ->
  strings.Split (joinAmp l) "&" = match l with [] => [""%string] | _ => l end.
Proof.
  induction 1 as [|s l Hs Hl IH]; [reflexivity|].
  destruct l as [|s' l].
  - now apply (Split_last "&").
  - change (joinAmp (s :: s' :: l)) with (s ++ String "&" (joinAmp (s' :: l)))%string.
    rewrite (Split_cons "&") by assumption. now rewrite IH.
Qed.

Lemma ParseQuery_joinAmp (l : list string) :
  Forall (fun s => no_byte "&" s = true) l ->
  url.ParseQuery (joinAmp l) = omap url.parsePair l.
Proof.
  intros Hl. unfold url.ParseQuery. rewrite Split_joinAmp by assumption.
  destruct l; reflexivity.
Qed.

(** A [tk] setting never yields a pair under another key. *)
Lemma parsePair_tk (t : string) :
  url.parsePair ("tk=" ++ t) = None
  \/ exists v, url.parsePair ("tk=" ++ t) = Some ("tk"%string, v).
Proof.
  unfold url.parsePair. cbn [String.append String.eqb Ascii.eqb Bool.eqb].
  destruct (strings.Contains _ ";"); [now left|].
  cbn. destruct (url.QueryUnescape t) as [v|]; [right; now exists v | now left].
Qed.

Lemma Get_omap_tk (a b : list string) (s s' : string) :
  (url.parsePair s = None \/ exists v, url.parsePair s = Some ("tk"%string, v)) ->
  (url.parsePair s' = None \/ exists v, url.parsePair s' = Some ("tk"%string, v)) ->
  url.Get (omap url.parsePair (a ++ [s] ++ b)) "ts"
  = url.Get (omap url.parsePair (a ++ [s'] ++ b)) "ts".
Proof.
  intros Hs Hs'. induction a as [|x a IH].
  - cbn [app omap list_omap].
    destruct Hs as [->|[v ->]], Hs' as [->|[v' ->]]; reflexivity.
  - cbn [app omap list_omap] in *. destruct (url.parsePair x) as [[k v]|]; [|exact IH].
    cbn [url.Get]. now rewrite IH.
Qed.

Lemma isDigit_shouldEscape (c : ascii) :
  imageproxy.isDigit c = true -> url.shouldEscape c = false.
Proof.
  unfold imageproxy.isDigit, url.shouldEscape. intros ->.
  now rewrite orb_true_r.
Qed.

Lemma QueryEscape_digits (s : string) :
  imageproxy.allDigits s = true -> url.QueryEscape s = s.
Proof.
  induction s as [|c s IH]; [reflexivity|]. simpl.
  rewrite andb_true_iff. intros [Hc Hs].
  now rewrite (isDigit_shouldEscape c Hc), IH.
Qed.

Lemma matchTs_digits (s : string) :
  imageproxy.matchTs s = true ->
  imageproxy.allDigits (strings.drop 2 s) = true /\ strings.drop 2 s <> ""%string.
Proof.
  destruct s as [|a [|b [|c r]]]; try discriminate.
  - destruct a as [[] [] [] [] [] [] [] []]; discriminate.
  - destruct a as [[] [] [] [] [] [] [] []]; try discriminate;
      destruct b as [[] [] [] [] [] [] [] []]; discriminate.
  - destruct a as [[] [] [] [] [] [] [] []]; try discriminate;
      destruct b as [[] [] [] [] [] [] [] []]; try discriminate.
    intros H. split; [exact H | discriminate].
Qed.

Lemma splitForceTs_digits (path : string) :
  imageproxy.allDigits (fst (imageproxy.splitForceTs path)) = true.
Proof.
  unfold imageproxy.splitForceTs.
  destruct (strings.LastIndex path "/"); [|reflexivity].
  destruct (imageproxy.matchTs _) eqn:E; [|reflexivity].
  now apply matchTs_digits in E.
Qed.

Lemma canonicalQuery_expected (forceTs ts : string) :
  imageproxy.allDigits forceTs = true ->
  imageproxy.canonicalQuery forceTs ts = expected_query forceTs ts.
Proof.
  intros Hd. unfold imageproxy.canonicalQuery, expected_query.
  destruct forceTs as [|c f].
  - destruct ts; reflexivity.
  - cbn [String.length Z.of_nat Z.ltb Z.compare String.eqb negb].
    now rewrite QueryEscape_digits.
Qed.

(** * imageproxy: request normalisation *)

Section RequestFacts.

Variable ParseFloat : string -> float64.t * bool.
Variable url_Parse : string -> option url.URL.
Variable ResolveReference : url.URL -> url.URL -> url.URL.

Local Abbreviation NewRequest :=
  (imageproxy.NewRequest ParseFloat url_Parse ResolveReference).

(** The query left on the remote URL of an accepted request. *)
Lemma NewRequest_RawQuery (r : http.Request) (base : option url.URL)
    (req : imageproxy.Request) :
  NewRequest r base = Ok req ->
  let path := strings.drop 1 (url.Path (http.URL r)) in
  strings.HasPrefix path imageproxy.kCloudFrontPattern = true
  /\ url.RawQuery (imageproxy.URL req)
     = imageproxy.canonicalQuery
         (fst (imageproxy.splitForceTs
                 (strings.TrimPrefix path imageproxy.kCloudFrontPattern)))
         (url.Get (url.Query (http.URL r)) media_utils.ParamVersionTs).
Proof.
  unfold imageproxy.NewRequest.
  destruct (url.Path (http.URL r)) as [|c path]; [discriminate|].
  cbn [strings.drop].
  destruct (strings.HasPrefix path imageproxy.kCloudFrontPattern); [|discriminate].
  cbn [negb].
  destruct (imageproxy.splitForceTs _) as [forceTs p] eqn:E. cbn [fst].
  match goal with
  | |- match ?parts with _ => _ end = _ -> _ => destruct parts as [[u options]| |]
  end; try discriminate.
  destruct (negb (url.IsAbs _)); [discriminate|].
  destruct (_ && _); [discriminate|].
  intros [= <-]. split; reflexivity.
Qed.

(** Only the path, the headers and the first [ts] value of a request
    enter its normal form. *)
Lemma NewRequest_depends (r r' : http.Request) (base : option url.URL) :
  url.Path (http.URL r) = url.Path (http.URL r') ->
  http.Header_ r = http.Header_ r' ->
  url.Get (url.Query (http.URL r)) media_utils.ParamVersionTs
  = url.Get (url.Query (http.URL r')) media_utils.ParamVersionTs ->
  normalized (NewRequest r base) = normalized (NewRequest r' base).
Proof.
  intros HP HH HT. unfold imageproxy.NewRequest, imageproxy.HasWebpSupport.
  rewrite <- HP, <- HH, <- HT.
  destruct (url.Path (http.URL r)) as [|c path]; [reflexivity|].
  destruct (negb (strings.HasPrefix path imageproxy.kCloudFrontPattern)); [reflexivity|].
  destruct (imageproxy.splitForceTs _) as [forceTs p].
  match goal with
  | |- normalized (match ?parts with _ => _ end) = _ =>
      destruct parts as [[u options]| |]
  end; try reflexivity.
  destruct (negb (url.IsAbs _)); [reflexivity|].
  destruct (_ && _); reflexivity.
Qed.

(** C2 (amended): on an accepted request the path behind its first byte
    begins with [tools/im/], and the query of the normalised URL is [ts=]
    followed by the digits of a trailing [/ts<digits>] segment if there is
    one, else [ts=] followed by the query-escaped first value of the
    original [ts] parameter if that value is not empty, else empty.  Every
    other parameter is dropped: another value of the [tk] setting gives
    the same URL and options, hence the same cache key. *)
Theorem NewRequest_canonical_query (r : http.Request) (base : option url.URL)
    (req : imageproxy.Request) :
  NewRequest r base = Ok req ->
  let path := strings.drop 1 (url.Path (http.URL r)) in
  let forceTs :=
    fst (imageproxy.splitForceTs
           (strings.TrimPrefix path imageproxy.kCloudFrontPattern)) in
  let ts := url.Get (url.Query (http.URL r)) "ts" in
  strings.HasPrefix path "tools/im/" = true
  /\ imageproxy.allDigits forceTs = true
  /\ url.RawQuery (imageproxy.URL req) = expected_query forceTs ts
  /\ forall (a b : list string) (t t' : string),
       Forall (fun s => no_byte "&" s = true) (a ++ b) ->
       no_byte "&" t = true -> no_byte "&" t' = true ->
       url.RawQuery (http.URL r) = joinAmp (a ++ ["tk=" ++ t]%string ++ b) ->
       exists req',
         NewRequest (with_query r (joinAmp (a ++ ["tk=" ++ t']%string ++ b))) base = Ok req'
         /\ imageproxy.URL req' = imageproxy.URL req
         /\ imageproxy.Options_ req' = imageproxy.Options_ req.
Proof.
  intros Hreq path forceTs ts.
  destruct (NewRequest_RawQuery r base req Hreq) as [Hp Hq].
  pose proof (splitForceTs_digits
                (strings.TrimPrefix path imageproxy.kCloudFrontPattern)) as Hd.
  split; [exact Hp|]. split; [exact Hd|]. split.
  - rewrite Hq. now apply canonicalQuery_expected.
  - intros a b t t' Hab Ht Ht' Eq.
    apply Forall_app in Hab as [Ha Hb].
    assert (Hall : forall x, no_byte "&" x = true ->
              Forall (fun s => no_byte "&" s = true) (a ++ ["tk=" ++ x]%string ++ b)).
    { intros x Hx. rewrite !Forall_app. repeat split; try assumption.
      constructor; [exact Hx | constructor]. }
    pose proof (NewRequest_depends r
                  (with_query r (joinAmp (a ++ ["tk=" ++ t']%string ++ b))) base) as Hdep.
    rewrite Hreq in Hdep. cbn [normalized] in Hdep.
    destruct (NewRequest (with_query r _) base) as [req'| |] eqn:E';
      cbn [normalized] in Hdep.
    + exists req'. split; [reflexivity|].
      assert (Ok (imageproxy.URL req, imageproxy.Options_ req)
              = Ok (imageproxy.URL req', imageproxy.Options_ req')) as [= -> ->];
        [|split; reflexivity].
      apply Hdep; try reflexivity.
      unfold url.Query. cbn [with_query http.URL url.set_RawQuery url.RawQuery].
      rewrite Eq, !ParseQuery_joinAmp by (apply Hall; assumption).
      apply Get_omap_tk; apply parsePair_tk.
    + exfalso. enough (Ok (imageproxy.URL req, imageproxy.Options_ req) = Err msg)
        by discriminate.
      apply Hdep; try reflexivity.
      unfold url.Query. cbn [with_query http.URL url.set_RawQuery url.RawQuery].
      rewrite Eq, !ParseQuery_joinAmp by (apply Hall; assumption).
      apply Get_omap_tk; apply parsePair_tk.
    + exfalso.
      enough (Ok (imageproxy.URL req, imageproxy.Options_ req)
              = @Panic (url.URL * imageproxy.Options)) by discriminate.
      apply Hdep; try reflexivity.
      unfold url.Query. cbn [with_query http.URL url.set_RawQuery url.RawQuery].
      rewrite Eq, !ParseQuery_joinAmp by (apply Hall; assumption).
      apply Get_omap_tk; apply parsePair_tk.
Qed.

End RequestFacts.

(** C2, at a concrete input: the fourth scenario of the specification. *)
Lemma NewRequest_canonical_query_witness :
  let r := request "/tools/im/150/production/cover.png/ts1490782085" "tk=abc" ∅ in
  exists req,
    imageproxy.NewRequest sample.ParseFloat sample.url_Parse sample.ResolveReference
      r (Some sample.awss3) = Ok req
    /\ url.RawQuery (imageproxy.URL req) = "ts=1490782085"%string.
Proof.
  intros r.
  destruct (imageproxy.NewRequest sample.ParseFloat sample.url_Parse
              sample.ResolveReference r (Some sample.awss3)) as [req| |] eqn:E;
    try (vm_compute in E; discriminate E).
  exists req. split; [reflexivity|].
  destruct (NewRequest_canonical_query sample.ParseFloat sample.url_Parse
              sample.ResolveReference r (Some sample.awss3) req E) as (_ & _ & Hq & _).
  rewrite Hq. reflexivity.
Defined.

(** C2 as stated fails: a [ts] value is written escaped, so that the query
    is not [ts=] followed by the value, and an empty [ts] value is
    dropped. *)
Lemma NewRequest_query_escaped :
  let NewRequest r :=
    normalized (imageproxy.NewRequest sample.ParseFloat sample.url_Parse
                  sample.ResolveReference r (Some sample.awss3)) in
  let r1 := request "/tools/im/150/production/cover.png" "ts=a%20b&tk=abc" ∅ in
  let r2 := request "/tools/im/150/production/cover.png" "ts=&tk=abc" ∅ in
  (url.Get (url.Query (http.URL r1)) "ts" = "a b"%string
   /\ exists u o, NewRequest r1 = Ok (u, o) /\ url.RawQuery u = "ts=a+b"%string)
  /\ (url.ParseQuery (url.RawQuery (http.URL r2)) = [("ts", ""); ("tk", "abc")]%string
      /\ exists u o, NewRequest r2 = Ok (u, o) /\ url.RawQuery u = ""%string).
Proof.
  cbv zeta. split; (split; [reflexivity|]); eexists _, _; (split; [vm_compute; reflexivity|]);
    reflexivity.
Qed.

Section Geometry.

Variable Image : Type.
Variable Dx Dy : Image -> Z.
Variable imaging_Fit imaging_Resize imaging_Thumbnail : Image -> Z -> Z -> Image.
Variable imaging_FlipV imaging_FlipH : Image -> Image.
Variable imaging_Rotate90 imaging_Rotate180 imaging_Rotate270 : Image -> Image.

Local Abbreviation resizeParams := (imageproxy.resizeParams Image Dx Dy).
Local Abbreviation transformImage :=
  (imageproxy.transformImage Image Dx Dy imaging_Fit imaging_Resize imaging_Thumbnail
     imaging_FlipV imaging_FlipH imaging_Rotate90 imaging_Rotate180 imaging_Rotate270).

(** [resizeParams] on a request that is at least as large as the source. *)
Lemma resizeParams_large (m : Image) (opt : imageproxy.Options) :
  let IW := Dx m in
  let IH := Dy m in
  let W := imageproxy.requested IW (imageproxy.Width opt) in
  let H := imageproxy.requested IH (imageproxy.Height opt) in
  imageproxy.Fit opt = false -> 0 < IW -> 0 < IH -> IW <= W -> IH <= H ->
  let '(w, h) := if (IW <? W) || (IH <? H) then scaledBox IW IH W H else (W, H) in
  resizeParams m opt
  = if ((w =? IW) || (w =? 0)) && ((h =? IH) || (h =? 0)) then (0, 0, false)
    else (w, h, true).
Proof.
  intros IW IH W H HF HIW HIH HW HH.
  unfold imageproxy.resizeParams. fold IW IH W H. rewrite HF. cbn [negb andb].
  replace (0 <? W) with true by (symmetry; apply Z.ltb_lt; lia).
  replace (0 <? H) with true by (symmetry; apply Z.ltb_lt; lia).
  cbn [andb].
  destruct ((IW <? W) || (IH <? H)) eqn:E.
  - unfold scaledBox. reflexivity.
  - apply orb_false_iff in E as [E1 E2]. rewrite E1, E2. reflexivity.
Qed.

(** The dimensions after the flips and the rotation. *)
Lemma dims_after (opt : imageproxy.Options) (m : Image) :
  imaging_dims Dx Dy imaging_Thumbnail imaging_FlipV imaging_FlipH imaging_Rotate180 ->
  imageproxy.Rotate opt <> 90 -> imageproxy.Rotate opt <> 270 ->
  let m1 := if imageproxy.FlipVertical opt then imaging_FlipV m else m in
  let m2 := if imageproxy.FlipHorizontal opt then imaging_FlipH m1 else m1 in
  let m3 := if imageproxy.Rotate opt =? 90 then imaging_Rotate90 m2
            else if imageproxy.Rotate opt =? 180 then imaging_Rotate180 m2
            else if imageproxy.Rotate opt =? 270 then imaging_Rotate270 m2
            else m2 in
  Dx m3 = Dx m /\ Dy m3 = Dy m.
Proof.
  intros L H90 H270. cbv zeta.
  destruct (Z.eqb_spec (imageproxy.Rotate opt) 90); [contradiction|].
  destruct (Z.eqb_spec (imageproxy.Rotate opt) 270); [contradiction|].
  assert (H1 : forall x, Dx (if imageproxy.FlipVertical opt then imaging_FlipV x else x) = Dx x
                         /\ Dy (if imageproxy.FlipVertical opt then imaging_FlipV x else x) = Dy x)
    by (intros x; destruct (imageproxy.FlipVertical opt); [apply L | split; reflexivity]).
  assert (H2 : forall x, Dx (if imageproxy.FlipHorizontal opt then imaging_FlipH x else x) = Dx x
                         /\ Dy (if imageproxy.FlipHorizontal opt then imaging_FlipH x else x) = Dy x)
    by (intros x; destruct (imageproxy.FlipHorizontal opt); [apply L | split; reflexivity]).
  destruct (imageproxy.Rotate opt =? 180).
  - destruct (dims_Rotate180 _ _ _ _ _ _ L
                (if imageproxy.FlipHorizontal opt
                 then imaging_FlipH (if imageproxy.FlipVertical opt then imaging_FlipV m else m)
                 else (if imageproxy.FlipVertical opt then imaging_FlipV m else m))) as [-> ->].
    destruct (H2 (if imageproxy.FlipVertical opt then imaging_FlipV m else m)) as [-> ->].
    apply H1.
  - destruct (H2 (if imageproxy.FlipVertical opt then imaging_FlipV m else m)) as [-> ->].
    apply H1.
Qed.

(** C3 (amended): for a source of positive dimensions (IW, IH), options
    with Fit false and no quarter turn, and a requested box (W, H) with
    W >= IW and H >= IH: when W = IW and H = IH the image produced by
    [transformImage] has the dimensions (IW, IH).  When the request exceeds
    the source in a dimension, it is scaled to (w, h) = (W * s, H * s) with
    s = min(IW/W, IH/H); the image then has the dimensions (IW, IH) if w is
    0 or IW and h is 0 or IH, and otherwise, both being positive, exactly
    (w, h), the proportions of the request rather than those of the
    source. *)
Theorem transformImage_dimensions (m : Image) (opt : imageproxy.Options) :
  imaging_dims Dx Dy imaging_Thumbnail imaging_FlipV imaging_FlipH imaging_Rotate180 ->
  let IW := Dx m in
  let IH := Dy m in
  let W := imageproxy.requested IW (imageproxy.Width opt) in
  let H := imageproxy.requested IH (imageproxy.Height opt) in
  imageproxy.Fit opt = false ->
  imageproxy.Rotate opt <> 90 -> imageproxy.Rotate opt <> 270 ->
  0 < IW -> 0 < IH -> IW <= W -> IH <= H ->
  (W = IW -> H = IH ->
   Dx (transformImage m opt) = IW /\ Dy (transformImage m opt) = IH)
  /\ (IW < W \/ IH < H ->
      let '(w, h) := scaledBox IW IH W H in
      ((w = IW \/ w = 0) -> (h = IH \/ h = 0) ->
       Dx (transformImage m opt) = IW /\ Dy (transformImage m opt) = IH)
      /\ (0 < w -> 0 < h -> ~ (w = IW /\ h = IH) ->
          Dx (transformImage m opt) = w /\ Dy (transformImage m opt) = h)).
Proof.
  intros L IW IH W H HF H90 H270 HIW HIH HW HH.
  pose proof (resizeParams_large m opt HF HIW HIH HW HH) as HP.
  fold IW IH W H in HP. unfold imageproxy.transformImage.
  split.
  - intros EW EH. rewrite EW, EH in HP.
    rewrite !Z.ltb_irrefl in HP. cbn [orb] in HP. rewrite !Z.eqb_refl in HP.
    cbn [orb andb] in HP. rewrite HP.
    apply (dims_after opt m L H90 H270).
  - intros Hlt.
    replace ((IW <? W) || (IH <? H)) with true in HP
      by (symmetry; apply orb_true_iff; rewrite !Z.ltb_lt; exact Hlt).
    destruct (scaledBox IW IH W H) as [w h]. split.
    + intros Hw Hh.
      replace (((w =? IW) || (w =? 0)) && ((h =? IH) || (h =? 0))) with true in HP
        by (symmetry; rewrite andb_true_iff, !orb_true_iff, !Z.eqb_eq; tauto).
      rewrite HP. apply (dims_after opt m L H90 H270).
    + intros Hw Hh Hne.
      replace (((w =? IW) || (w =? 0)) && ((h =? IH) || (h =? 0))) with false in HP
        by (symmetry; rewrite andb_false_iff, !orb_false_iff, !Z.eqb_neq; lia).
      rewrite HP, HF.
      replace ((w =? 0) || (h =? 0)) with false
        by (symmetry; rewrite orb_false_iff, !Z.eqb_neq; lia).
      destruct (dims_after opt (imaging_Thumbnail m w h) L H90 H270) as [-> ->].
      apply (dims_Thumbnail _ _ _ _ _ _ L); assumption.
Qed.

End Geometry.

Lemma sample_imaging_dims :
  imaging_dims sample.Dx sample.Dy sample.imaging_Thumbnail
    sample.imaging_Flip sample.imaging_Flip sample.imaging_Rotate180.
Proof.
  split; try (intros; split; reflexivity).
  intros [x y] w h Hw Hh Hx Hy. unfold sample.imaging_Thumbnail, sample.empty.
  cbn [sample.Dx sample.Dy fst snd] in *.
  replace (w <=? 0) with false by (symmetry; apply Z.leb_gt; lia).
  replace (h <=? 0) with false by (symmetry; apply Z.leb_gt; lia).
  replace (x <=? 0) with false by (symmetry; apply Z.leb_gt; lia).
  replace (y <=? 0) with false by (symmetry; apply Z.leb_gt; lia).
  split; reflexivity.
Qed.

(** C3, at a concrete input: a 100x50 source and the request 200x100. *)
Lemma transformImage_dimensions_witness :
  let m : sample.Image := (100, 50) in
  let opt := imageproxy.ParseOptions sample.ParseFloat "200x100" false in
  imageproxy.requested 100 (imageproxy.Width opt) = 200
  /\ imageproxy.requested 50 (imageproxy.Height opt) = 100
  /\ scaledBox 100 50 200 100 = (100, 50)
  /\ sample_transformImage m opt = (100, 50).
Proof.
  intros m opt. split; [reflexivity|]. split; [reflexivity|]. split; [reflexivity|].
  pose proof (transformImage_dimensions sample.Image sample.Dx sample.Dy
                sample.imaging_Fit sample.imaging_Resize sample.imaging_Thumbnail
                sample.imaging_Flip sample.imaging_Flip
                sample.imaging_Rotate90 sample.imaging_Rotate180 sample.imaging_Rotate90
                m opt sample_imaging_dims) as H.
  cbv zeta in H.
  specialize (H ltac:(reflexivity) ltac:(discriminate) ltac:(discriminate)
                ltac:(reflexivity) ltac:(reflexivity)
                ltac:(vm_compute; discriminate) ltac:(vm_compute; discriminate)).
  destruct H as [_ H]. specialize (H ltac:(left; reflexivity)).
  change (scaledBox (sample.Dx m) (sample.Dy m)
            (imageproxy.requested (sample.Dx m) (imageproxy.Width opt))
            (imageproxy.requested (sample.Dy m) (imageproxy.Height opt)))
    with (100, 50) in H.
  destruct H as [H _].
  destruct (H ltac:(left; reflexivity) ltac:(left; reflexivity)) as [E1 E2].
  unfold sample_transformImage.
  apply injective_projections; [exact E1 | exact E2].
Defined.

(** C3 as stated fails: a 100x100 source and the request 200x100, which
    is at least as large in both dimensions, give a 100x50 image. *)
Lemma transformImage_keeps_requested_proportions :
  let m : sample.Image := (100, 100) in
  let opt := imageproxy.ParseOptions sample.ParseFloat "200x100" false in
  imageproxy.Fit opt = false
  /\ imageproxy.requested (sample.Dx m) (imageproxy.Width opt) = 200
  /\ imageproxy.requested (sample.Dy m) (imageproxy.Height opt) = 100
  /\ imageproxy.resizeParams sample.Image sample.Dx sample.Dy m opt = (100, 50, true)
  /\ sample_transformImage m opt = (100, 50)
  /\ sample_transformImage m opt <> (100, 100).
Proof.
  cbv zeta. repeat split; try reflexivity. vm_compute. discriminate.
Qed.

Section Formats.

Variable Image : Type.
Variable Dx Dy : Image -> Z.
Variable image_Decode : list ascii -> option (Image * string).
Variable imaging_Fit imaging_Resize imaging_Thumbnail : Image -> Z -> Z -> Image.
Variable imaging_FlipV imaging_FlipH : Image -> Image.
Variable imaging_Rotate90 imaging_Rotate180 imaging_Rotate270 : Image -> Image.
Variable webp_Encode jpeg_Encode : Image -> Z -> option (list ascii).
Variable png_Encode : Image -> option (list ascii).
Variable Frame X : Type.
Variable frame_Dx frame_Dy frame_MaxX frame_MaxY : Frame -> Z.
Variable NewRGBA : Z -> Z -> Image.
Variable draw_Over : Image -> Frame -> Image.
Variable toPaletted : Image -> Frame -> Frame.
Variable gif_DecodeAll : list ascii -> option (imageproxy.GIF Frame X).
Variable gif_EncodeAll : imageproxy.GIF Frame X -> option (list ascii).

Local Abbreviation transformImage :=
  (imageproxy.transformImage Image Dx Dy imaging_Fit imaging_Resize imaging_Thumbnail
     imaging_FlipV imaging_FlipH imaging_Rotate90 imaging_Rotate180 imaging_Rotate270).
Local Abbreviation GifProcess :=
  (imageproxy.GifProcess Image Frame X frame_Dx frame_Dy frame_MaxX frame_MaxY
     NewRGBA draw_Over toPaletted gif_DecodeAll gif_EncodeAll).
Local Abbreviation DetectFormat :=
  (imageproxy.DetectFormat Image image_Decode webp_Encode jpeg_Encode png_Encode
     Frame X frame_Dx frame_Dy frame_MaxX frame_MaxY
     NewRGBA draw_Over toPaletted gif_DecodeAll gif_EncodeAll).
Local Abbreviation Transform :=
  (imageproxy.Transform Image Dx Dy image_Decode
     imaging_Fit imaging_Resize imaging_Thumbnail imaging_FlipV imaging_FlipH
     imaging_Rotate90 imaging_Rotate180 imaging_Rotate270
     webp_Encode jpeg_Encode png_Encode
     Frame X frame_Dx frame_Dy frame_MaxX frame_MaxY
     NewRGBA draw_Over toPaletted gif_DecodeAll gif_EncodeAll).

(** C4: when the bytes decode as a GIF image, whatever format the options
    name, [DetectFormat] reports the format gif and re-encodes nothing, and
    [Transform] either returns the bytes as they are (no geometric option)
    or the output of [GifProcess], in both cases with the format gif; it
    fails only when [GifProcess] does.  The named format is never used. *)
Theorem gif_format_preserved (img : list ascii) (opt : imageproxy.Options)
    (m : Image) :
  image_Decode img = Some (m, media_utils.ImageFormatGif) ->
  DetectFormat img opt = Ok (None, "gif"%string)
  /\ Transform img opt
     = (if imageproxy.transform opt
        then match GifProcess img (fun m => transformImage m opt) with
             | Ok out => Ok (out, "gif"%string)
             | Err e => Err e
             | Panic => Panic
             end
        else Ok (img, "gif"%string))
  /\ forall out format, Transform img opt = Ok (out, format) -> format = "gif"%string.
Proof.
  intros Hdec.
  assert (HT : Transform img opt
     = (if imageproxy.transform opt
        then match GifProcess img (fun m => transformImage m opt) with
             | Ok out => Ok (out, "gif"%string)
             | Err e => Err e
             | Panic => Panic
             end
        else Ok (img, "gif"%string))).
  { unfold imageproxy.Transform. rewrite Hdec.
    unfold media_utils.ImageFormatGif. cbn [String.eqb Ascii.eqb Bool.eqb].
    rewrite !orb_true_r, !andb_true_r.
    destruct (imageproxy.transform opt); cbn [negb andb]; [|reflexivity].
    rewrite andb_false_r. reflexivity. }
  split; [|split].
  - unfold imageproxy.DetectFormat. rewrite Hdec.
    unfold media_utils.ImageFormatGif. cbn [String.eqb Ascii.eqb Bool.eqb].
    now rewrite !orb_true_r.
  - exact HT.
  - intros out format. rewrite HT.
    destruct (imageproxy.transform opt).
    + destruct (GifProcess _ _); [intros [= _ <-]; reflexivity | discriminate | discriminate].
    + intros [= _ <-]. reflexivity.
Qed.

End Formats.

(** C4, at a concrete input: a 100x100 GIF and the options [50x50,fpng]. *)
Lemma gif_format_preserved_witness :
  let img := sample.encode "gif" (100, 100) in
  let opt := imageproxy.ParseOptions sample.ParseFloat "50x50,fpng" false in
  sample.image_Decode img = Some ((100, 100), "gif"%string)
  /\ imageproxy.Format opt = "png"%string
  /\ sample_DetectFormat img opt = Ok (None, "gif"%string)
  /\ sample_Transform img opt = Ok (sample.encode "gif" (50, 50), "gif"%string).
Proof.
  intros img opt.
  assert (Hdec : sample.image_Decode img = Some ((100, 100), media_utils.ImageFormatGif))
    by reflexivity.
  split; [exact Hdec|]. split; [reflexivity|].
  destruct (gif_format_preserved sample.Image sample.Dx sample.Dy sample.image_Decode
              sample.imaging_Fit sample.imaging_Resize sample.imaging_Thumbnail
              sample.imaging_Flip sample.imaging_Flip
              sample.imaging_Rotate90 sample.imaging_Rotate180 sample.imaging_Rotate90
              (sample_encoder "webp") (sample_encoder "jpeg")
              (fun m => Some (sample.encode "png" m))
              sample.Image unit sample.Dx sample.Dy sample.Dx sample.Dy
              (fun w h => (w, h)) (fun canvas frame => canvas) (fun m frame => m)
              sample.gif_DecodeAll sample.gif_EncodeAll
              img opt (100, 100) Hdec) as (HD & HT & _).
  split; [exact HD|].
  unfold sample_Transform. rewrite HT. reflexivity.
Defined.

(** * imageproxy: the front handler *)

Section FrontFacts.

Variable FormatFloat : float64.t -> string.
Variable ParseFloat : string -> float64.t * bool.
Variable url_Parse : string -> option url.URL.
Variable ResolveReference : url.URL -> url.URL -> url.URL.
Variable URL_String : url.URL -> string.
Variable time_Parse_RFC1123 : string -> option Z.
Variable Client_Get : string -> option imageproxy.Response.

Local Abbreviation check304 := (imageproxy.check304 time_Parse_RFC1123).
Local Abbreviation writeResponseToWriter :=
  (imageproxy.writeResponseToWriter URL_String time_Parse_RFC1123).
Local Abbreviation allowed := (imageproxy.allowed FormatFloat url_Parse URL_String).
Local Abbreviation validSignature := imageproxy.validSignature.
Local Abbreviation serveImage :=
  (imageproxy.serveImage FormatFloat ParseFloat url_Parse ResolveReference URL_String
     time_Parse_RFC1123 Client_Get).

(** When [check304] answers yes: the entity tags agree, or both dates parse
    and the response is strictly older than the date of the request. *)
Lemma check304_true (req : http.Request) (resp : imageproxy.Response) :
  check304 req resp = true <->
  (http.Get (imageproxy.Header resp) "Etag" <> ""%string
   /\ http.Get (imageproxy.Header resp) "Etag"
      = http.Get (http.Header_ req) "If-None-Match")
  \/ (exists lastModified ifModSince,
         time_Parse_RFC1123 (http.Get (imageproxy.Header resp) "Last-Modified")
         = Some lastModified
         /\ time_Parse_RFC1123 (http.Get (http.Header_ req) "If-Modified-Since")
            = Some ifModSince
         /\ lastModified < ifModSince).
Proof.
  unfold imageproxy.check304.
  set (etag := http.Get (imageproxy.Header resp) "Etag").
  set (inm := http.Get (http.Header_ req) "If-None-Match").
  destruct (String.eqb_spec etag ""), (String.eqb_spec etag inm); cbn [negb andb].
  all: try (split; [intros _; left; split; assumption | reflexivity]).
  all: destruct (time_Parse_RFC1123 _) as [lm|];
    [destruct (time_Parse_RFC1123 _) as [ims|];
     [destruct (Z.ltb_spec lm ims)|]|].
  all: split; try discriminate; try (intros _; right; eauto; fail).
  all: intros [[H1 H2]|(a & b & Ha & Hb & Hlt)]; try congruence; try discriminate.
  all: injection Ha as <-; injection Hb as <-; lia.
Qed.

(** With the same date on both sides and no entity tag there is no 304,
    whatever the date parser makes of the text. *)
Lemma check304_same_date (s : string) (r : http.Request) (resp : imageproxy.Response) :
  http.Get (imageproxy.Header resp) "Etag" = ""%string ->
  http.Get (imageproxy.Header resp) "Last-Modified" = s ->
  http.Get (http.Header_ r) "If-Modified-Since" = s ->
  check304 r resp = false.
Proof.
  intros He Hl Hi. unfold imageproxy.check304. rewrite He, Hl, Hi. cbn.
  destruct (time_Parse_RFC1123 s); [|reflexivity].
  now rewrite Z.ltb_irrefl.
Qed.

Lemma validHost_nil (u : url.URL) : imageproxy.validHost [] u = false.
Proof. reflexivity. Qed.

(** C8: for a request that passes the format, referrer and host checks,
    [allowed] returns a nil error together with the result of the signature
    check, whatever that result is; and what [serveImage] writes (status,
    headers and body) is the same for every signing key and clock, that is,
    whether or not the signature verifies.  Only the log line carries the
    result. *)
Theorem allowed_signature_non_fatal (cfg : config.t) (now : Z)
    (p : imageproxy.Proxy) (r : imageproxy.Request) :
  (imageproxy.FileContentType (imageproxy.Format (imageproxy.Options_ r)) <> ""%string
   \/ imageproxy.Format (imageproxy.Options_ r) = ""%string) ->
  (imageproxy.Referrers p = []
   \/ exists orig, imageproxy.Original r = Some orig
                   /\ imageproxy.validReferrer url_Parse (imageproxy.Referrers p) orig = true) ->
  (imageproxy.Whitelist p = []
   \/ imageproxy.validHost (imageproxy.Whitelist p) (imageproxy.URL r) = true) ->
  allowed cfg now p r = Ok (validSignature cfg now r)
  /\ forall (inbound : http.Request) (cfg' : config.t) (now' : Z),
       option_map fst (serveImage cfg now p inbound)
       = option_map fst (serveImage cfg' now' p inbound).
Proof.
  intros Hf Hr Hw. split.
  - unfold imageproxy.allowed.
    replace ((String.length (imageproxy.FileContentType
                (imageproxy.Format (imageproxy.Options_ r))) =? 0)%nat
             && (0 <? Z.of_nat (String.length (imageproxy.Format (imageproxy.Options_ r)))))
      with false.
    2:{ symmetry. destruct Hf as [Hf|Hf].
        - destruct (imageproxy.FileContentType _); [congruence | reflexivity].
        - rewrite Hf. apply andb_false_r. }
    replace (if 0 <? len (imageproxy.Referrers p)
             then match imageproxy.Original r with
                  | Some orig => Some (imageproxy.validReferrer url_Parse
                                         (imageproxy.Referrers p) orig)
                  | None => None
                  end
             else Some true) with (Some true).
    2:{ destruct Hr as [->|(orig & -> & ->)]; [reflexivity|].
        now destruct (0 <? len (imageproxy.Referrers p)). }
    replace ((0 <? len (imageproxy.Whitelist p))
             && negb (imageproxy.validHost (imageproxy.Whitelist p) (imageproxy.URL r)))
      with false; [reflexivity|].
    destruct Hw as [->| ->]; [reflexivity | now rewrite andb_false_r].
  - intros inbound cfg' now'. unfold imageproxy.serveImage.
    destruct (imageproxy.NewRequest _ _ _ _ _) as [req| |]; try reflexivity.
    unfold imageproxy.allowed.
    destruct (_ && _); [reflexivity|].
    destruct (if 0 <? len (imageproxy.Referrers p) then _ else _) as [[|]|];
      try reflexivity.
    destruct (_ && _); [reflexivity|].
    destruct (Client_Get _) as [resp|]; [|reflexivity].
    unfold imageproxy.writeResponseToWriter.
    destruct (imageproxy.check304 _ _ _); reflexivity.
Qed.

End FrontFacts.

(** C5: the code at the failing input.  The request carries in
    [If-Modified-Since] the very date of the response's [Last-Modified];
    both parse to the same instant, so that the date of the request is not
    before the one of the response, and yet [check304] answers no and the
    handler writes the status 200 with the body. *)
Theorem check304_equal_dates :
  let date := "Mon, 02 Jan 2006 15:04:05 GMT"%string in
  let r := request "/tools/im/100x100/http://example.com/foo.jpg" ""
             {[ "If-Modified-Since"%string := [date] ]} in
  let resp := {| imageproxy.StatusCode := 200;
                 imageproxy.Header := {[ "Last-Modified"%string := [date] ]};
                 imageproxy.Body := sample.encode "jpeg" (100, 100) |} in
  sample.time_Parse_RFC1123 (http.Get (http.Header_ r) "If-Modified-Since")
  = Some 1136214245
  /\ sample.time_Parse_RFC1123 (http.Get (imageproxy.Header resp) "Last-Modified")
     = Some 1136214245
  /\ sample_check304 r resp = false
  /\ imageproxy.w_Status (fst (sample_writeResponseToWriter resp r false)) = 200
  /\ imageproxy.w_Body (fst (sample_writeResponseToWriter resp r false))
     = imageproxy.Body resp.
Proof.
  cbv zeta. repeat split; vm_compute; reflexivity.
Qed.

(** C8, at a concrete input: a request without signature. *)
Lemma allowed_signature_non_fatal_witness :
  let r := {| imageproxy.URL :=
                {| url.Scheme := "http"; url.Host := "awss3";
                   url.Path := "/production/cover.png";
                   url.RawQuery := ""; url.Fragment := "" |};
              imageproxy.Options_ :=
                imageproxy.ParseOptions sample.ParseFloat "150,fpng" false;
              imageproxy.Original :=
                Some (request "/tools/im/150,fpng/production/cover.png" "" ∅) |} in
  imageproxy.validSignature sample.cfg 1700000000 r = false
  /\ sample_allowed sample.cfg 1700000000 sample_proxy r = Ok false.
Proof.
  intros r. split; [reflexivity|].
  destruct (allowed_signature_non_fatal sample.FormatFloat sample.ParseFloat
              sample.url_Parse sample.ResolveReference sample.URL_String
              sample.time_Parse_RFC1123 sample.Client_Get
              sample.cfg 1700000000 sample_proxy r) as [H _].
  - left. discriminate.
  - left. reflexivity.
  - right. reflexivity.
  - exact H.
Defined.

(** * diskv: the accounting of the hot cache *)

Lemma cachedBytes_empty : diskv.cachedBytes ∅ = 0.
Proof. apply map_fold_empty. Qed.

Lemma cachedBytes_insert (m : gmap string (list ascii)) (k : string) (v : list ascii) :
  m !! k = None ->
  diskv.cachedBytes (<[k := v]> m) = diskv.valueSize v + diskv.cachedBytes m.
Proof.
  intros Hk. unfold diskv.cachedBytes.
  rewrite map_fold_insert_L; [reflexivity | intros; lia | exact Hk].
Qed.

Lemma cachedBytes_delete (m : gmap string (list ascii)) (k : string) (v : list ascii) :
  m !! k = Some v ->
  diskv.cachedBytes m = diskv.valueSize v + diskv.cachedBytes (delete k m).
Proof.
  intros Hk. unfold diskv.cachedBytes.
  rewrite (map_fold_delete_L _ _ k v m); [reflexivity | intros; lia | exact Hk].
Qed.

Lemma valueSize_nonneg (v : list ascii) : 0 <= diskv.valueSize v.
Proof. unfold diskv.valueSize, len. lia. Qed.

Lemma cachedBytes_nonneg (m : gmap string (list ascii)) : 0 <= diskv.cachedBytes m.
Proof.
  unfold diskv.cachedBytes.
  apply (map_fold_weak_ind (fun acc _ => 0 <= acc)); [lia|].
  intros k v m' acc _ Hacc. pose proof (valueSize_nonneg v). lia.
Qed.

Lemma cachedBytes_lookup (m : gmap string (list ascii)) (k : string) (v : list ascii) :
  m !! k = Some v -> diskv.valueSize v <= diskv.cachedBytes m.
Proof.
  intros Hk. rewrite (cachedBytes_delete m k v Hk).
  pose proof (cachedBytes_nonneg (delete k m)). lia.
Qed.

Lemma uint64_small (z : Z) : 0 <= z < 2 ^ 64 -> uint64 z = z.
Proof. intros H. unfold uint64. now apply Z.mod_small. Qed.

Section Accounting.

Variable max : Z.
Hypothesis max_range : 0 <= max < 2 ^ 63.

(** Removing a cached entry keeps the accounts. *)
Lemma uncacheWithLock_accounted (d : diskv.Diskv) (k : string) (v : list ascii) :
  diskv.CacheSizeMax (diskv.options d) = max ->
  accounted d -> diskv.cache d !! k = Some v ->
  accounted (diskv.uncacheWithLock d k (diskv.valueSize v))
  /\ diskv.cacheSize (diskv.uncacheWithLock d k (diskv.valueSize v))
     = diskv.cacheSize d - diskv.valueSize v.
Proof using max_range.
  intros Hmax [Hsum Hle] Hk. unfold accounted, diskv.uncacheWithLock. cbn.
  pose proof (cachedBytes_delete _ _ _ Hk) as Hd.
  pose proof (cachedBytes_nonneg (delete k (diskv.cache d))).
  pose proof (valueSize_nonneg v).
  rewrite uint64_small by lia. repeat split; lia.
Qed.

Lemma bustCacheWithLock_accounted (d : diskv.Diskv) (k : string) :
  diskv.CacheSizeMax (diskv.options d) = max ->
  accounted d -> accounted (diskv.bustCacheWithLock d k).
Proof using max_range.
  intros Hmax Hacc. unfold diskv.bustCacheWithLock.
  destruct (diskv.cache d !! k) as [v|] eqn:Hk; [|exact Hacc].
  now apply uncacheWithLock_accounted.
Qed.

(** The eviction loop: the accounts are kept, and at its end the value
    fits: either the loop stopped because it does, or the map is empty. *)
Lemma evict_accounted (entries : list (string * list ascii)) :
  forall (d : diskv.Diskv) (size : Z),
    diskv.CacheSizeMax (diskv.options d) = max ->
    accounted d -> 0 <= size <= max ->
    entries ≡ₚ map_to_list (diskv.cache d) ->
    let d' := diskv.evict entries d size in
    accounted d' /\ diskv.safe d' size = true
    /\ diskv.options d' = diskv.options d
    /\ (forall k, diskv.cache d !! k = None -> diskv.cache d' !! k = None).
Proof using max_range.
  induction entries as [|[k v] rest IH]; intros d size Hmax Hacc Hsize Hperm; cbn.
  - symmetry in Hperm. apply Permutation_nil_r, map_to_list_empty_iff in Hperm.
    split; [exact Hacc|]. split; [|split; [reflexivity | auto]].
    unfold diskv.safe. destruct Hacc as [Hsum _].
    rewrite Hsum, Hperm, cachedBytes_empty, Hmax. cbn.
    rewrite uint64_small by lia. apply Z.leb_le. lia.
  - destruct (diskv.safe d size) eqn:Hsafe.
    + split; [exact Hacc|]. split; [exact Hsafe|]. split; [reflexivity | auto].
    + assert (Hk : diskv.cache d !! k = Some v).
      { apply elem_of_map_to_list. rewrite <- Hperm. left. }
      destruct (uncacheWithLock_accounted d k v Hmax Hacc Hk) as [Hacc' _].
      specialize (IH (diskv.uncacheWithLock d k (diskv.valueSize v)) size Hmax Hacc' Hsize).
      cbn in IH. destruct IH as (H1 & H2 & H3 & H4).
      { apply (Permutation_cons_inv (a := (k, v))).
        rewrite Hperm. symmetry. now apply map_to_list_delete. }
      split; [exact H1|]. split; [exact H2|]. split; [exact H3|].
      intros j Hj. apply H4. cbn.
      destruct (decide (k = j)) as [->|Hne];
        [apply lookup_delete_eq | now rewrite lookup_delete_ne].
Qed.

(** Caching a value under a key that is not cached: a value larger than
    the maximum is refused with an error, any other value is stored, and
    neither panic is reached. *)
Lemma cacheWithLock_accounted (order : diskv.range_order) (d : diskv.Diskv)
    (k : string) (v : list ascii) :
  diskv.CacheSizeMax (diskv.options d) = max ->
  accounted d -> diskv.cache d !! k = None ->
  (forall m, order m ≡ₚ map_to_list m) ->
  if max <? diskv.valueSize v
  then exists e, diskv.cacheWithLock order d k v = Err e
  else exists d', diskv.cacheWithLock order d k v = Ok d'
                  /\ accounted d' /\ diskv.options d' = diskv.options d.
Proof using max_range.
  intros Hmax Hacc Hk Hord.
  unfold diskv.cacheWithLock, diskv.ensureCacheSpaceWithLock. rewrite Hmax.
  destruct (Z.ltb_spec max (diskv.valueSize v)) as [Hbig|Hfit].
  - eexists. reflexivity.
  - pose proof (valueSize_nonneg v) as Hnn.
    destruct (evict_accounted (order (diskv.cache d)) d (diskv.valueSize v)
                Hmax Hacc ltac:(lia) (Hord _)) as (Hacc' & Hsafe & Hopt & Hsub).
    set (d' := diskv.evict (order (diskv.cache d)) d (diskv.valueSize v)) in *.
    rewrite Hsafe. cbn [negb].
    assert (Hmax' : diskv.CacheSizeMax (diskv.options d') = max) by congruence.
    unfold diskv.safe in Hsafe. rewrite Hmax' in Hsafe |- *.
    apply Z.leb_le in Hsafe.
    replace (max <? uint64 (diskv.cacheSize d' + diskv.valueSize v)) with false
      by (symmetry; apply Z.ltb_ge; exact Hsafe).
    eexists. split; [reflexivity|]. cbn.
    destruct Hacc' as [Hsum Hle].
    pose proof (cachedBytes_nonneg (diskv.cache d')).
    assert (Hu : uint64 (diskv.cacheSize d' + diskv.valueSize v)
                 = diskv.cacheSize d' + diskv.valueSize v)
      by (apply uint64_small; lia).
    split; [|exact Hopt].
    unfold accounted. cbn. rewrite Hu in Hsafe |- *.
    rewrite cachedBytes_insert by (apply Hsub, Hk).
    rewrite Hmax'. split; lia.
Qed.

(** Every call keeps the accounts and the options, and does not panic. *)
Lemma step_accounted (d : diskv.Diskv) (c : diskv.call) :
  diskv.CacheSizeMax (diskv.options d) = max ->
  diskv.BasePath (diskv.options d) <> ""%string ->
  accounted d -> iterates c ->
  exists d', diskv.step d c = Some d' /\ accounted d'
             /\ diskv.options d' = diskv.options d.
Proof using max_range.
  intros Hmax Hbase Hacc Hit.
  destruct c as [k fs order|k written|k removed|removed|k on_disk]; cbn.
  - unfold diskv.Read, diskv.ReadStream.
    destruct (diskv.cache d !! k) as [v|] eqn:Hk; [exists d; auto|].
    destruct fs as [| |data closed]; try (exists d; auto; fail);
      (destruct (0 <? diskv.CacheSizeMax (diskv.options d)); [|exists d; auto]);
      cbn [diskv.ReadAll]; [exists d; auto|].
    unfold diskv.cacheWithoutLock.
    pose proof (cacheWithLock_accounted order d k data Hmax Hacc Hk Hit) as H.
    destruct (max <? diskv.valueSize data).
    + destruct H as [e ->]. exists d. auto.
    + destruct H as (d' & -> & Hacc' & Hopt). exists d'. auto.
  - unfold diskv.WriteStream.
    destruct (_ <=? 0); [exists d; auto|].
    destruct written; cbn; [|exists d; auto].
    eexists. split; [reflexivity|]. split.
    + now apply bustCacheWithLock_accounted.
    + unfold diskv.bustCacheWithLock. now destruct (diskv.cache d !! k).
  - unfold diskv.Erase.
    exists (diskv.bustCacheWithLock d k). split; [now destruct removed|]. split.
    + now apply bustCacheWithLock_accounted.
    + unfold diskv.bustCacheWithLock. now destruct (diskv.cache d !! k).
  - unfold diskv.EraseAll.
    destruct (diskv.BasePath (diskv.options d)) as [|c s] eqn:E; [congruence|]. cbn.
    eexists. split; [reflexivity|]. split; [|reflexivity].
    unfold accounted. cbn. rewrite cachedBytes_empty, Hmax. lia.
  - unfold diskv.Has. exists d. split; [now destruct (diskv.cache d !! k)|]. auto.
Qed.

Lemma run_accounted (cs : list diskv.call) :
  forall d,
    diskv.CacheSizeMax (diskv.options d) = max ->
    diskv.BasePath (diskv.options d) <> ""%string ->
    accounted d -> Forall iterates cs ->
    exists d', diskv.run d cs = Some d' /\ accounted d'
               /\ diskv.options d' = diskv.options d.
Proof using max_range.
  induction cs as [|c cs IH]; intros d Hmax Hbase Hacc Hit.
  - exists d. auto.
  - apply Forall_cons in Hit as [Hc Hcs].
    destruct (step_accounted d c Hmax Hbase Hacc Hc) as (d1 & Hs & Hacc1 & Hopt1).
    cbn. rewrite Hs.
    destruct (IH d1) as (d2 & Hr & Hacc2 & Hopt2); try assumption;
      try (rewrite Hopt1; assumption).
    exists d2. split; [exact Hr|]. split; [exact Hacc2 | congruence].
Qed.

End Accounting.

Lemma New_accounted (o : diskv.Options) :
  0 <= diskv.CacheSizeMax o ->
  accounted (diskv.New o)
  /\ diskv.CacheSizeMax (diskv.options (diskv.New o)) = diskv.CacheSizeMax o
  /\ diskv.BasePath (diskv.options (diskv.New o)) <> ""%string.
Proof.
  intros Hmax. unfold diskv.New, accounted. cbn.
  rewrite cachedBytes_empty.
  destruct (String.eqb_spec (diskv.BasePath o) ""); cbn; repeat split; try lia;
    [discriminate | assumption].
Qed.

(** Calls that run one after the other.  Starting from [New], after
    every sequence of calls of [Read], [WriteStream], [Erase], [EraseAll]
    and [Has], each completed before the next one starts, no call has
    panicked, [cacheSize] is the sum of the lengths of the cached values
    and is at most [CacheSizeMax]; and [cacheWithLock] refuses a value
    longer than [CacheSizeMax] with an error.  ([CacheSizeMax] is below
    2^63, so that no sum of [uint64] values wraps.) *)
Lemma sequential_calls_accounted (o : diskv.Options) (cs : list diskv.call) :
  0 <= diskv.CacheSizeMax o < 2 ^ 63 ->
  Forall iterates cs ->
  (exists d, diskv.run (diskv.New o) cs = Some d
             /\ diskv.cacheSize d = diskv.cachedBytes (diskv.cache d)
             /\ diskv.cacheSize d <= diskv.CacheSizeMax o
             /\ map_Forall (fun _ val => len val <= diskv.CacheSizeMax o) (diskv.cache d))
  /\ forall order d key val,
       diskv.CacheSizeMax (diskv.options d) < len val ->
       exists e, diskv.cacheWithLock order d key val = Err e.
Proof.
  intros Hmax Hit. split.
  - destruct (New_accounted o ltac:(lia)) as (Hacc & HM & HB).
    destruct (run_accounted (diskv.CacheSizeMax o) Hmax cs (diskv.New o) HM HB Hacc Hit)
      as (d & Hrun & [Hsum Hle] & Hopt).
    rewrite Hopt, HM in Hle.
    exists d. repeat split; try assumption.
    intros k v Hk. pose proof (cachedBytes_lookup _ _ _ Hk) as Hv.
    unfold diskv.valueSize in Hv. lia.
  - intros order d key val Hbig.
    unfold diskv.cacheWithLock, diskv.ensureCacheSpaceWithLock, diskv.valueSize.
    apply Z.ltb_lt in Hbig. rewrite Hbig. eexists. reflexivity.
Qed.

(** At a concrete store and sequence of calls. *)
Lemma sequential_calls_accounted_sample :
  0 <= diskv.CacheSizeMax sample_store < 2 ^ 63
  /\ Forall iterates sample_calls
  /\ exists d, diskv.run (diskv.New sample_store) sample_calls = Some d
               /\ diskv.cacheSize d = diskv.cachedBytes (diskv.cache d)
               /\ diskv.cacheSize d <= 10.
Proof.
  assert (H1 : 0 <= diskv.CacheSizeMax sample_store < 2 ^ 63) by (cbn; lia).
  assert (H2 : Forall iterates sample_calls)
    by (repeat constructor; intros m; reflexivity).
  split; [exact H1|]. split; [exact H2|].
  destruct (sequential_calls_accounted sample_store sample_calls H1 H2)
    as [(d & Hrun & Hsum & Hle & _) _].
  exists d. split; [exact Hrun|]. split; [exact Hsum | exact Hle].
Defined.

(** * diskv: reads whose critical sections overlap *)

(** A call of [Read] is the two sections [ReadStream] and [ReadAll], one
    after the other. *)
Lemma Read_two_sections (order : diskv.range_order) (d : diskv.Diskv)
    (key : string) (fs : diskv.disk_read) :
  option_map diskv.store
    (diskv.interleave (diskv.start d)
       [diskv.EvReadStream key fs; diskv.EvReadAll 0 fs order])
  = option_map fst (diskv.Read order d key fs).
Proof.
  unfold diskv.Read. cbn.
  destruct (diskv.ReadStream d key fs) as [rc| |] eqn:E; cbn; try reflexivity.
  - destruct (diskv.ReadAll order d rc fs) as [[d' r]|]; reflexivity.
  - unfold diskv.ReadStream in E.
    destruct (diskv.cache d !! key); [discriminate|].
    destruct fs; try discriminate;
      destruct (0 <? diskv.CacheSizeMax (diskv.options d)); discriminate.
Qed.

(** Caching under a key that is cached already, with room for the new
    value: the entry is replaced, and [cacheSize] grows by the whole
    length of the new value; the length of the replaced value stays
    counted. *)
Lemma cacheWithLock_cached_key (order : diskv.range_order) (d : diskv.Diskv)
    (key : string) (old val : list ascii) :
  diskv.cache d !! key = Some old ->
  0 <= diskv.cacheSize d ->
  diskv.cacheSize d + len val <= diskv.CacheSizeMax (diskv.options d) < 2 ^ 64 ->
  exists d', diskv.cacheWithLock order d key val = Ok d'
             /\ diskv.cache d' = <[key := val]> (diskv.cache d)
             /\ diskv.cacheSize d' = diskv.cacheSize d + len val
             /\ diskv.cachedBytes (diskv.cache d')
                = diskv.cachedBytes (diskv.cache d) - len old + len val.
Proof.
  intros Hk Hsize Hroom.
  pose proof (valueSize_nonneg val) as Hval. unfold diskv.valueSize in Hval.
  assert (Hu : uint64 (diskv.cacheSize d + len val) = diskv.cacheSize d + len val)
    by (apply uint64_small; lia).
  assert (Hsafe : diskv.safe d (len val) = true)
    by (unfold diskv.safe; rewrite Hu; apply Z.leb_le; lia).
  assert (Hev : diskv.evict (order (diskv.cache d)) d (len val) = d).
  { destruct (order (diskv.cache d)) as [|[k v] rest]; cbn; [reflexivity|].
    now rewrite Hsafe. }
  unfold diskv.cacheWithLock, diskv.ensureCacheSpaceWithLock, diskv.valueSize.
  replace (diskv.CacheSizeMax (diskv.options d) <? len val) with false
    by (symmetry; apply Z.ltb_ge; lia).
  rewrite Hev, Hsafe. cbn [negb]. rewrite Hu.
  replace (diskv.CacheSizeMax (diskv.options d) <? diskv.cacheSize d + len val)
    with false by (symmetry; apply Z.ltb_ge; lia).
  eexists. split; [reflexivity|]. cbn. repeat split.
  rewrite <- (insert_delete_eq (diskv.cache d) key val).
  rewrite cachedBytes_insert by apply lookup_delete_eq.
  rewrite (cachedBytes_delete _ _ _ Hk). unfold diskv.valueSize. lia.
Qed.

(** C10: the accounting of the hot cache does not hold when the critical
    sections of two reads of one key overlap.  In a store of at most ten
    cached bytes, two calls of [Read] on the key of a five-byte file, each
    finding the key uncached before the other one has cached it, leave
    [cacheSize] at 10 while five bytes are cached; no call has panicked so
    far, and the next [Read], of a six-byte file under another key, panics
    in [ensureCacheSpaceWithLock]. *)
Theorem overlapping_reads_break_accounting :
  exists w,
    diskv.interleave (diskv.start (diskv.New sample_store)) overlapping_reads = Some w
    /\ diskv.cacheSize (diskv.store w) = 10
    /\ diskv.cachedBytes (diskv.cache (diskv.store w)) = 5
    /\ diskv.cache (diskv.store w) = {[ "k"%string := bytes_of_string "12345" ]}
    /\ ~ accounted (diskv.store w)
    /\ diskv.ensureCacheSpaceWithLock map_to_list (diskv.store w) 6 = Panic
    /\ diskv.Read map_to_list (diskv.store w) "j"
         (diskv.ReadsAll (bytes_of_string "123456") true) = None.
Proof.
  eexists. split; [vm_compute; reflexivity|].
  split; [reflexivity|].
  split; [vm_compute; reflexivity|].
  split; [vm_compute; reflexivity|].
  split; [intros [Hsum _]; vm_compute in Hsum; discriminate|].
  split; vm_compute; reflexivity.
Qed.

(** * diskv: what a read caches and what a write busts *)

(** The eviction loop only removes entries. *)
Lemma evict_lookup (entries : list (string * list ascii)) :
  forall (d : diskv.Diskv) (size : Z) (k : string) (v : list ascii),
    diskv.cache (diskv.evict entries d size) !! k = Some v ->
    diskv.cache d !! k = Some v.
Proof.
  induction entries as [|[k0 v0] rest IH]; intros d size k v H; cbn in H.
  - exact H.
  - destruct (diskv.safe d size); [exact H|].
    apply IH in H. cbn in H.
    apply lookup_delete_Some in H as [_ H]. exact H.
Qed.

(** With room for the value, the loop stops before its first entry. *)
Lemma evict_safe (entries : list (string * list ascii)) (d : diskv.Diskv) (size : Z) :
  diskv.safe d size = true -> diskv.evict entries d size = d.
Proof.
  intros H. destruct entries as [|[k v] rest]; cbn; [reflexivity|]. now rewrite H.
Qed.

Lemma bustCacheWithLock_lookup (d : diskv.Diskv) (key k : string) :
  diskv.cache (diskv.bustCacheWithLock d key) !! k
  = if decide (key = k) then None else diskv.cache d !! k.
Proof.
  unfold diskv.bustCacheWithLock.
  destruct (diskv.cache d !! key) as [v|] eqn:Hk; cbn.
  - destruct (decide (key = k)) as [->|Hne];
      [apply lookup_delete_eq | now apply lookup_delete_ne].
  - destruct (decide (key = k)) as [<-|Hne]; [exact Hk | reflexivity].
Qed.

(** What [Read] does with a file that is read to its end, on a store that
    keeps the accounts. *)
Lemma Read_file (d : diskv.Diskv) (key : string) (data : list ascii)
    (closed : bool) (order : diskv.range_order) :
  0 <= diskv.CacheSizeMax (diskv.options d) < 2 ^ 63 ->
  accounted d ->
  (forall m, order m ≡ₚ map_to_list m) ->
  diskv.cache d !! key = None ->
  exists d',
    diskv.Read order d key (diskv.ReadsAll data closed)
    = Some (d', if closed then Ok data else Err "close")
    /\ accounted d'
    /\ diskv.options d' = diskv.options d
    /\ (forall k v, diskv.cache d' !! k = Some v ->
          (k = key /\ v = data) \/ diskv.cache d !! k = Some v)
    /\ (0 < diskv.CacheSizeMax (diskv.options d) ->
        len data <= diskv.CacheSizeMax (diskv.options d) ->
        diskv.cache d' !! key = Some data)
    /\ (diskv.CacheSizeMax (diskv.options d) < len data
        \/ diskv.CacheSizeMax (diskv.options d) = 0 -> d' = d)
    /\ (diskv.cacheSize d + len data <= diskv.CacheSizeMax (diskv.options d) ->
        0 < diskv.CacheSizeMax (diskv.options d) ->
        diskv.cache d' = <[key := data]> (diskv.cache d)).
Proof.
  intros Hmax Hacc Hord Hk.
  remember (diskv.CacheSizeMax (diskv.options d)) as max eqn:Emax.
  unfold diskv.Read, diskv.ReadStream. rewrite Hk, <- Emax.
  destruct (Z.ltb_spec 0 max) as [Hpos|Hzero]; cbn [diskv.ReadAll];
    unfold diskv.cacheWithoutLock.
  2:{ exists d. split; [reflexivity|]. split; [exact Hacc|]. split; [reflexivity|].
      split; [auto|]. split; [intros; exfalso; lia|]. split; [auto|].
      intros; exfalso; lia. }
  pose proof (cacheWithLock_accounted max Hmax order d key data
                (eq_sym Emax) Hacc Hk Hord) as H.
  unfold diskv.valueSize in H.
  destruct (Z.ltb_spec max (len data)) as [Hbig|Hfit].
  - destruct H as [e He]. rewrite He.
    exists d. split; [reflexivity|]. split; [exact Hacc|]. split; [reflexivity|].
    split; [auto|]. split; [intros; exfalso; lia|]. split; [auto|].
    pose proof (cachedBytes_nonneg (diskv.cache d)). destruct Hacc as [Hsum _].
    intros; exfalso; lia.
  - destruct H as (d' & He & Hacc' & Hopt). rewrite He.
    exists d'. split; [reflexivity|]. split; [exact Hacc'|]. split; [exact Hopt|].
    (* the store that [cacheWithLock] returns *)
    unfold diskv.cacheWithLock, diskv.ensureCacheSpaceWithLock, diskv.valueSize in He.
    rewrite <- Emax in He.
    replace (max <? len data) with false in He by (symmetry; apply Z.ltb_ge; exact Hfit).
    set (d1 := diskv.evict (order (diskv.cache d)) d (len data)) in *.
    destruct (negb (diskv.safe d1 (len data))); [discriminate He|].
    destruct (diskv.CacheSizeMax (diskv.options d1) <? _); [discriminate He|].
    injection He as <-. cbn.
    split; [|split; [|split]].
    + intros k v Hkv. destruct (decide (key = k)) as [<-|Hne].
      * rewrite lookup_insert_eq in Hkv. injection Hkv as <-. now left.
      * rewrite lookup_insert_ne in Hkv by exact Hne. right.
        now apply (evict_lookup _ _ _ _ _ Hkv).
    + intros _ _. apply lookup_insert_eq.
    + intros [?|?]; exfalso; lia.
    + intros Hroom _. subst d1. rewrite evict_safe; [reflexivity|].
      unfold diskv.safe. rewrite <- Emax. destruct Hacc as [Hsum _].
      pose proof (cachedBytes_nonneg (diskv.cache d)).
      assert (0 <= len data) by (unfold len; lia).
      rewrite uint64_small by lia. apply Z.leb_le. exact Hroom.
Qed.

(** X1: a read caches what it reads.  On a store that keeps the accounts,
    with a positive [CacheSizeMax], a call of [Read] on a key that is not
    cached, whose file is read to its end and is not longer than
    [CacheSizeMax], does not panic, returns the bytes and puts them in the
    cache under that key, and the accounts are kept; every later read of the
    key returns the bytes from memory, whatever the disk then holds, and
    leaves the store as it is. *)
Theorem Read_caches (d : diskv.Diskv) (key : string) (data : list ascii)
    (closed : bool) (order : diskv.range_order) :
  0 < diskv.CacheSizeMax (diskv.options d) < 2 ^ 63 ->
  accounted d ->
  (forall m, order m ≡ₚ map_to_list m) ->
  diskv.cache d !! key = None ->
  len data <= diskv.CacheSizeMax (diskv.options d) ->
  exists d',
    diskv.Read order d key (diskv.ReadsAll data closed)
    = Some (d', if closed then Ok data else Err "close")
    /\ diskv.cache d' !! key = Some data
    /\ accounted d'
    /\ forall order' fs, diskv.Read order' d' key fs = Some (d', Ok data).
Proof.
  intros Hmax Hacc Hord Hk Hlen.
  destruct (Read_file d key data closed order ltac:(lia) Hacc Hord Hk)
    as (d' & HR & Hacc' & _ & _ & Hin & _).
  exists d'. split; [exact HR|].
  assert (Hc : diskv.cache d' !! key = Some data) by (apply Hin; lia).
  split; [exact Hc|]. split; [exact Hacc'|].
  intros order' fs. unfold diskv.Read, diskv.ReadStream. now rewrite Hc.
Qed.

Lemma Read_caches_witness :
  exists d',
    diskv.Read map_to_list (diskv.New sample_store) "a"
      (diskv.ReadsAll (bytes_of_string "123456") true)
    = Some (d', Ok (bytes_of_string "123456"))
    /\ diskv.cache d' !! "a"%string = Some (bytes_of_string "123456").
Proof.
  destruct (Read_caches (diskv.New sample_store) "a" (bytes_of_string "123456")
              true map_to_list) as (d' & H1 & H2 & _).
  - cbn. lia.
  - split; [reflexivity | cbn; lia].
  - intros m. reflexivity.
  - reflexivity.
  - vm_compute. discriminate.
  - exists d'. split; [exact H1 | exact H2].
Defined.

(** X2: a value that is too large is served and not cached.  Reading a
    key that is not cached, whose file is longer than [CacheSizeMax] (or
    with [CacheSizeMax] 0), returns the bytes of the file and leaves the
    store as it is, whatever the store holds: the next read goes to the
    disk again. *)
Theorem Read_oversize (d : diskv.Diskv) (key : string) (data : list ascii)
    (order : diskv.range_order) :
  diskv.cache d !! key = None ->
  diskv.CacheSizeMax (diskv.options d) < len data
  \/ diskv.CacheSizeMax (diskv.options d) = 0 ->
  diskv.Read order d key (diskv.ReadsAll data true) = Some (d, Ok data)
  /\ diskv.Read order d key diskv.NoFile = Some (d, Err "stat").
Proof.
  intros Hk Hbig.
  split; [|unfold diskv.Read, diskv.ReadStream; now rewrite Hk].
  unfold diskv.Read, diskv.ReadStream. rewrite Hk.
  destruct (Z.ltb_spec 0 (diskv.CacheSizeMax (diskv.options d))) as [Hpos|_];
    [|reflexivity].
  cbn [diskv.ReadAll].
  unfold diskv.cacheWithoutLock, diskv.cacheWithLock,
    diskv.ensureCacheSpaceWithLock, diskv.valueSize.
  replace (diskv.CacheSizeMax (diskv.options d) <? len data) with true
    by (symmetry; apply Z.ltb_lt; lia).
  reflexivity.
Qed.

Lemma Read_oversize_witness :
  diskv.Read map_to_list (diskv.New sample_store) "c"
    (diskv.ReadsAll (bytes_of_string "0123456789A") true)
  = Some (diskv.New sample_store, Ok (bytes_of_string "0123456789A")).
Proof.
  apply (Read_oversize (diskv.New sample_store) "c" (bytes_of_string "0123456789A")
           map_to_list).
  - reflexivity.
  - left. vm_compute. reflexivity.
Defined.

(** X3: caching never invents or alters an entry, and evicts nothing
    while there is room.  After a read that went to the disk and did not
    panic, every cached entry is the one just read or was cached before
    with the same bytes; and when [cacheSize] and the length of the new
    value together do not exceed [CacheSizeMax], the cache is the old one
    with the new entry added and [cacheSize] has grown by that length. *)
Theorem Read_evicts_only_for_room (d d' : diskv.Diskv) (key : string)
    (data : list ascii) (closed : bool) (order : diskv.range_order)
    (r : result (list ascii)) :
  diskv.cache d !! key = None ->
  diskv.Read order d key (diskv.ReadsAll data closed) = Some (d', r) ->
  (forall k v, diskv.cache d' !! k = Some v ->
     (k = key /\ v = data) \/ diskv.cache d !! k = Some v)
  /\ (0 < diskv.CacheSizeMax (diskv.options d) < 2 ^ 64 ->
      0 <= diskv.cacheSize d ->
      diskv.cacheSize d + len data <= diskv.CacheSizeMax (diskv.options d) ->
      diskv.cache d' = <[key := data]> (diskv.cache d)
      /\ diskv.cacheSize d' = diskv.cacheSize d + len data).
Proof.
  intros Hk HR.
  unfold diskv.Read, diskv.ReadStream in HR. rewrite Hk in HR.
  assert (Hlen : 0 <= len data) by (unfold len; lia).
  destruct (Z.ltb_spec 0 (diskv.CacheSizeMax (diskv.options d))) as [Hpos|Hzero];
    cbn [diskv.ReadAll] in HR.
  2:{ injection HR as <- _. split; [auto|]. intros; exfalso; lia. }
  unfold diskv.cacheWithoutLock, diskv.cacheWithLock,
    diskv.ensureCacheSpaceWithLock, diskv.valueSize in HR.
  destruct (Z.ltb_spec (diskv.CacheSizeMax (diskv.options d)) (len data)) as [Hbig|Hfit].
  { injection HR as <- _. split; [auto|]. intros; exfalso; lia. }
  remember (diskv.evict (order (diskv.cache d)) d (len data)) as d1 eqn:E1.
  destruct (negb (diskv.safe d1 (len data))); [discriminate HR|].
  destruct (diskv.CacheSizeMax (diskv.options d1) <? _); [discriminate HR|].
  injection HR as <- _. cbn. split.
  - intros k v Hkv. destruct (decide (key = k)) as [<-|Hne].
    + rewrite lookup_insert_eq in Hkv. injection Hkv as <-. now left.
    + rewrite lookup_insert_ne in Hkv by exact Hne. right.
      rewrite E1 in Hkv. now apply (evict_lookup _ _ _ _ _ Hkv).
  - intros Hmax Hsize Hroom.
    assert (Hu : uint64 (diskv.cacheSize d + len data) = diskv.cacheSize d + len data)
      by (apply uint64_small; lia).
    rewrite evict_safe in E1
      by (unfold diskv.safe; rewrite Hu; apply Z.leb_le; exact Hroom).
    subst d1. now rewrite Hu.
Qed.

Lemma Read_evicts_only_for_room_witness :
  exists d',
    diskv.Read map_to_list (diskv.New sample_store) "a"
      (diskv.ReadsAll (bytes_of_string "123456") true)
    = Some (d', Ok (bytes_of_string "123456"))
    /\ diskv.cache d' = {[ "a"%string := bytes_of_string "123456" ]}
    /\ diskv.cacheSize d' = 6.
Proof.
  destruct (diskv.Read map_to_list (diskv.New sample_store) "a"
              (diskv.ReadsAll (bytes_of_string "123456") true))
    as [[d' r]|] eqn:E; [|vm_compute in E; discriminate E].
  assert (Hr : r = Ok (bytes_of_string "123456"))
    by (vm_compute in E; injection E as _ <-; reflexivity).
  destruct (Read_evicts_only_for_room (diskv.New sample_store) d' "a"
              (bytes_of_string "123456") true map_to_list r) as [_ H].
  - reflexivity.
  - exact E.
  - destruct H as [H1 H2];
      [cbn; lia | cbn; lia | vm_compute; discriminate|].
    exists d'. rewrite Hr. split; [reflexivity|]. split; [exact H1 | exact H2].
Defined.

(** X4: a completed write busts the cached value.  After [WriteStream]
    has written the file of a non-empty key, the key is no longer cached
    and the other entries are as before, so that the next [ReadStream] of
    the key goes to the disk and does not hand back bytes cached earlier;
    a write that fails, or an empty key, leaves the cache as it is. *)
Theorem WriteStream_busts (d : diskv.Diskv) (key : string) :
  key <> ""%string ->
  let d' := fst (diskv.WriteStream d key true) in
  snd (diskv.WriteStream d key true) = Ok tt
  /\ diskv.cache d' !! key = None
  /\ (forall k, k <> key -> diskv.cache d' !! k = diskv.cache d !! k)
  /\ (forall fs val, diskv.ReadStream d' key fs <> Ok (diskv.Buffer val))
  /\ diskv.ReadStream d' key diskv.NoFile = Err "stat"
  /\ fst (diskv.WriteStream d key false) = d
  /\ fst (diskv.WriteStream d "" true) = d.
Proof.
  intros Hkey d'.
  assert (E : diskv.WriteStream d key true = (diskv.bustCacheWithLock d key, Ok tt)).
  { unfold diskv.WriteStream. destruct key as [|c s]; [congruence|]. reflexivity. }
  subst d'. rewrite E. cbn [fst snd].
  split; [reflexivity|].
  assert (Hnone : diskv.cache (diskv.bustCacheWithLock d key) !! key = None).
  { rewrite bustCacheWithLock_lookup. now destruct (decide (key = key)). }
  split; [exact Hnone|]. split.
  { intros k Hne. rewrite bustCacheWithLock_lookup.
    destruct (decide (key = k)); [congruence | reflexivity]. }
  split.
  { intros fs val. unfold diskv.ReadStream. rewrite Hnone.
    destruct fs; try discriminate;
      destruct (0 <? _); discriminate. }
  split; [unfold diskv.ReadStream; now rewrite Hnone|].
  split; [|reflexivity].
  unfold diskv.WriteStream. now destruct (_ <=? 0).
Qed.

Lemma WriteStream_busts_witness :
  let d := {| diskv.options := sample_store;
              diskv.cache := {[ "b"%string := bytes_of_string "abcdef" ]};
              diskv.cacheSize := 6 |} in
  diskv.cache (fst (diskv.WriteStream d "b" true)) !! "b"%string = None
  /\ diskv.ReadStream (fst (diskv.WriteStream d "b" true)) "b" diskv.NoFile = Err "stat".
Proof.
  intros d.
  destruct (WriteStream_busts d "b") as (_ & H1 & _ & _ & H2 & _).
  - discriminate.
  - split; [exact H1 | exact H2].
Defined.

(** X5: erasing busts the cache whether or not the file could be
    removed.  After [Erase] the key is not cached and the other entries are
    as before, and [Has] answers for that key what the disk says; after
    [EraseAll] nothing is cached.  [Has] itself answers true for a cached
    key without looking at the disk, and never changes the store. *)
Theorem Erase_busts (d : diskv.Diskv) (key : string) (removed on_disk : bool) :
  let d' := fst (diskv.Erase d key removed) in
  diskv.cache d' !! key = None
  /\ (forall k, k <> key -> diskv.cache d' !! k = diskv.cache d !! k)
  /\ diskv.Has d' key on_disk = (d', on_disk)
  /\ (forall d'' r k, diskv.EraseAll d removed = Some (d'', r) ->
        diskv.cache d'' !! k = None /\ diskv.cacheSize d'' = 0
        /\ diskv.Has d'' k on_disk = (d'', on_disk))
  /\ (forall k v, diskv.cache d !! k = Some v -> diskv.Has d k on_disk = (d, true)).
Proof.
  intros d'.
  assert (E : d' = diskv.bustCacheWithLock d key).
  { unfold d', diskv.Erase. now destruct removed. }
  assert (Hnone : diskv.cache d' !! key = None).
  { rewrite E, bustCacheWithLock_lookup. now destruct (decide (key = key)). }
  split; [exact Hnone|]. split.
  { intros k Hne. rewrite E, bustCacheWithLock_lookup.
    destruct (decide (key = k)); [congruence | reflexivity]. }
  split; [unfold diskv.Has; now rewrite Hnone|]. split.
  - intros d'' r k H. unfold diskv.EraseAll in H.
    destruct (_ <=? 0); [discriminate|]. injection H as <- _. cbn.
    split; [apply lookup_empty|]. split; [reflexivity|].
    unfold diskv.Has. cbn. now rewrite lookup_empty.
  - intros k v Hk. unfold diskv.Has. now rewrite Hk.
Qed.

(** * media_utils: signed URLs on their way through a request *)

Lemma append_inv_head (a b c : string) : (a ++ b = a ++ c)%string -> b = c.
Proof.
  induction a as [|x a IH]; cbn; [auto|]. intros H. injection H as H. auto.
Qed.

Lemma stripSlash_slash (p : string) : media_utils.stripSlash (String "/" p) = p.
Proof. reflexivity. Qed.

(** Verification and signing read the path behind one leading slash. *)
Lemma SimpleVerify_path (cfg : config.t) (now : Z) (a b ts token : string) (ce : bool) :
  media_utils.stripSlash a = media_utils.stripSlash b ->
  media_utils.SimpleVerify cfg now a ts token ce
  = media_utils.SimpleVerify cfg now b ts token ce.
Proof. intros E. unfold media_utils.SimpleVerify. now rewrite E. Qed.

Lemma signToken_path (cfg : config.t) (a b ts : string) (t : Z) :
  media_utils.stripSlash a = media_utils.stripSlash b ->
  media_utils.signToken cfg a ts t = media_utils.signToken cfg b ts t.
Proof. intros E. unfold media_utils.signToken. now rewrite E. Qed.

(** The characters of a token are letters, digits, [-] and [_]: none of
    them is escaped in a query. *)
Lemma encode_unreserved (v : Z) : url.shouldEscape (base64.encode v) = false.
Proof.
  unfold base64.encode.
  assert (H : (Z.to_nat (Z.land v 63) < 64)%nat).
  { assert (0 <= Z.land v 63 < 64); [|lia].
    change 63 with (Z.ones 6). rewrite Z.land_ones by lia.
    apply Z.mod_pos_bound. lia. }
  remember (Z.to_nat (Z.land v 63)) as n eqn:E. clear E.
  do 64 (destruct n as [|n]; [reflexivity|]). lia.
Qed.

Lemma Encode_unreserved (src : list ascii) :
  Forall (fun c => url.shouldEscape c = false) (base64.Encode src).
Proof.
  induction src as [| a | a b | a b c l IH] using list_ind3; cbn [base64.Encode];
    repeat (constructor; [apply encode_unreserved|]); auto.
Qed.

Lemma all_bytes_Forall (P : ascii -> bool) (l : list ascii) :
  Forall (fun c => P c = true) l -> all_bytes P (string_of_list_ascii l) = true.
Proof.
  induction 1 as [|c l Hc _ IH]; [reflexivity|]. cbn. now rewrite Hc, IH.
Qed.

Lemma EncodeToString_unreserved (src : list ascii) :
  all_bytes (fun c => negb (url.shouldEscape c)) (base64.EncodeToString src) = true.
Proof.
  apply all_bytes_Forall. eapply Forall_impl; [apply Encode_unreserved|].
  cbn. intros c ->. reflexivity.
Qed.

Lemma Encode_length (src : list ascii) :
  (length src <= length (base64.Encode src))%nat.
Proof.
  induction src as [| a | a b | a b c l IH] using list_ind3; cbn [base64.Encode length];
    lia.
Qed.

Lemma length_string_of_list (l : list ascii) :
  String.length (string_of_list_ascii l) = length l.
Proof. induction l as [|c l IH]; [reflexivity|]. cbn. now rewrite IH. Qed.

Lemma signToken_length (cfg : config.t) (path ts : string) (t : Z) :
  (36 <= String.length (media_utils.signToken cfg path ts t))%nat.
Proof.
  unfold media_utils.signToken, media_utils.SimpleTimeToStr, base64.EncodeToString.
  rewrite length_string_of_list.
  etransitivity; [|apply Encode_length].
  rewrite length_app, PutUint32_length.
  unfold media_utils.SimpleToken. rewrite hmac_Sum_length. lia.
Qed.

(** A text without escaped characters is its own unescaped form, and has
    none of the separators of a query. *)
Lemma QueryUnescape_unreserved (s : string) :
  all_bytes (fun c => negb (url.shouldEscape c)) s = true ->
  url.QueryUnescape s = Some s.
Proof.
  induction s as [|c s IH]; [reflexivity|].
  cbn [all_bytes]. intros H. apply andb_true_iff in H as [Hc Hs].
  specialize (IH Hs).
  destruct (Ascii.eqb_spec c "%") as [->|Hp]; [discriminate Hc|].
  destruct (Ascii.eqb_spec c "+") as [->|Hq]; [discriminate Hc|].
  assert (E : url.QueryUnescape (String c s)
              = option_map (String c) (url.QueryUnescape s)).
  { destruct c as [[] [] [] [] [] [] [] []]; try reflexivity; congruence. }
  rewrite E, IH. reflexivity.
Qed.

Lemma unreserved_no_byte (c : ascii) (s : string) :
  url.shouldEscape c = true ->
  all_bytes (fun c => negb (url.shouldEscape c)) s = true -> no_byte c s = true.
Proof.
  intros Hc. apply all_bytes_impl. intros d Hd.
  destruct (Ascii.eqb_spec d c) as [->|_]; [|reflexivity].
  rewrite Hc in Hd. discriminate Hd.
Qed.

Lemma Index_no_byte (c : ascii) (s : string) :
  no_byte c s = true -> strings.Index s (String c "") = None.
Proof.
  induction s as [|d s IH]; [reflexivity|].
  unfold no_byte. cbn [all_bytes]. intros H. apply andb_true_iff in H as [Hd Hs].
  cbn [strings.Index strings.HasPrefix].
  rewrite Ascii.eqb_sym. apply negb_true_iff in Hd. rewrite Hd. cbn.
  now rewrite (IH Hs).
Qed.

(** One setting [key=value] of a query whose value needs no escaping. *)
Lemma parsePair_unreserved (k0 k1 : ascii) (v : string) :
  url.shouldEscape k0 = false -> url.shouldEscape k1 = false ->
  all_bytes (fun c => negb (url.shouldEscape c)) v = true ->
  url.parsePair (String k0 (String k1 (String "=" v)))
  = Some (String k0 (String k1 ""), v).
Proof.
  intros H0 H1 Hv. unfold url.parsePair.
  change (String.eqb (String k0 (String k1 (String "=" v))) "") with false. cbv iota.
  assert (Hsemi : strings.Contains (String k0 (String k1 (String "=" v))) ";" = false).
  { unfold strings.Contains. rewrite (Index_no_byte ";"); [reflexivity|].
    unfold no_byte. cbn [all_bytes].
    destruct (Ascii.eqb_spec k0 ";") as [->|_]; [discriminate H0|].
    destruct (Ascii.eqb_spec k1 ";") as [->|_]; [discriminate H1|].
    cbn. now apply (unreserved_no_byte ";"). }
  rewrite Hsemi.
  assert (Hidx : strings.Index (String k0 (String k1 (String "=" v))) "=" = Some 2%nat).
  { cbn [strings.Index strings.HasPrefix].
    destruct (Ascii.eqb_spec "=" k0) as [<-|_]; [discriminate H0|].
    destruct (Ascii.eqb_spec "=" k1) as [<-|_]; [discriminate H1|].
    cbn. reflexivity. }
  rewrite Hidx. cbn [strings.take strings.drop].
  rewrite (QueryUnescape_unreserved v Hv).
  rewrite (QueryUnescape_unreserved (String k0 (String k1 "")))
    by (cbn; now rewrite H0, H1).
  reflexivity.
Qed.

(** The query of a signed URL, read back by [url.Query]. *)
Lemma signed_query (ts token : string) :
  all_bytes (fun c => negb (url.shouldEscape c)) ts = true ->
  all_bytes (fun c => negb (url.shouldEscape c)) token = true ->
  let q := ((if (0 <? Z.of_nat (String.length ts))%Z then "ts=" ++ ts ++ "&tk=" else "tk=")
            ++ token)%string in
  url.Get (url.ParseQuery q) "ts" = ts /\ url.Get (url.ParseQuery q) "tk" = token.
Proof.
  intros Hts Htk q. subst q.
  assert (Ha : forall s, all_bytes (fun c => negb (url.shouldEscape c)) s = true ->
                         no_byte "&" s = true)
    by (intros s; now apply unreserved_no_byte).
  destruct ts as [|c ts].
  - change ((if (0 <? Z.of_nat (String.length ""))%Z then "ts=" ++ "" ++ "&tk=" else "tk=")
            ++ token)%string
      with (joinAmp [String "t" (String "k" (String "=" token))]).
    rewrite ParseQuery_joinAmp
      by (constructor; [exact (Ha token Htk) | constructor]).
    unfold omap, list_omap. rewrite parsePair_unreserved by (reflexivity || assumption).
    split; reflexivity.
  - replace (0 <? Z.of_nat (String.length (String c ts))) with true
      by (symmetry; apply Z.ltb_lt; cbn; lia).
    replace (("ts=" ++ String c ts ++ "&tk=") ++ token)%string
      with (joinAmp [String "t" (String "s" (String "=" (String c ts)));
                     String "t" (String "k" (String "=" token))]).
    2:{ cbn [joinAmp]. cbn. f_equal. f_equal. f_equal. f_equal.
        now rewrite !append_assoc. }
    rewrite ParseQuery_joinAmp.
    2:{ constructor; [|constructor; [|constructor]].
        - exact (Ha (String c ts) Hts).
        - exact (Ha token Htk). }
    unfold omap, list_omap.
    rewrite !parsePair_unreserved by (reflexivity || assumption).
    split; reflexivity.
Qed.

(** X6: signing and verification agree up to one leading slash, and
    without the expiry check for every expiry and clock.  The token that
    [SimpleSignUrlWithTime] makes for a path verifies against that path with
    or without a leading slash; with [checkExpire] false it verifies
    whatever the expiry and the clock are, and with [checkExpire] true
    exactly while the clock is not past the expiry as the four bytes of the
    token hold it. *)
Theorem SimpleVerify_leading_slash (cfg : config.t) (now : Z) (p ts : string)
    (t : Z) (checkExpire : bool) :
  strings.HasPrefix p "/" = false ->
  let token := media_utils.signToken cfg p ts t in
  media_utils.signToken cfg (String "/" p) ts t = token
  /\ media_utils.SimpleVerify cfg now (String "/" p) ts token checkExpire
     = negb (checkExpire && (now >? uint32 t))
  /\ media_utils.SimpleVerify cfg now p ts token checkExpire
     = negb (checkExpire && (now >? uint32 t))
  /\ media_utils.SimpleVerify cfg now p ts token false = true.
Proof.
  intros Hp token.
  assert (E : media_utils.stripSlash (String "/" p) = media_utils.stripSlash p).
  { rewrite stripSlash_slash. unfold media_utils.stripSlash. now rewrite Hp. }
  split; [now apply signToken_path|]. split; [|split].
  - rewrite (SimpleVerify_path cfg now _ p) by exact E.
    apply SimpleVerify_signToken_eq.
  - apply SimpleVerify_signToken_eq.
  - unfold token. rewrite SimpleVerify_signToken_eq. reflexivity.
Qed.

Lemma SimpleVerify_leading_slash_witness :
  strings.HasPrefix "production/cover.png" "/" = false
  /\ media_utils.signToken sample.cfg "/production/cover.png" "121212" 1700000010
     = media_utils.signToken sample.cfg "production/cover.png" "121212" 1700000010.
Proof.
  split; [reflexivity|].
  destruct (SimpleVerify_leading_slash sample.cfg 1700000000 "production/cover.png"
              "121212" 1700000010 true) as [H _].
  - reflexivity.
  - exact H.
Defined.

(** X7: a signed URL passes the signature check of the proxy until it
    expires.  For a version stamp [ts] of letters, digits and [-_.~] and an
    expiry [0 <= t < 2^32]: a request whose path is the signed path behind
    a slash and whose query is the query of
    [SimpleSignUrlWithTime(p, ts, t)] has a valid signature exactly while
    [now <= t]. *)
Theorem validSignature_signed_url (cfg : config.t) (now : Z) (p ts : string) (t : Z)
    (r : imageproxy.Request) (orig : http.Request) :
  0 <= t < 2 ^ 32 ->
  all_bytes (fun c => negb (url.shouldEscape c)) ts = true ->
  imageproxy.Original r = Some orig ->
  url.Path (http.URL orig) = String "/" (media_utils.stripSlash p) ->
  media_utils.SimpleSignUrlWithTime cfg p ts t
  = (media_utils.stripSlash p ++ "?" ++ url.RawQuery (http.URL orig))%string ->
  imageproxy.validSignature cfg now r = (now <=? t).
Proof.
  intros Ht Hts Horig Hpath Hurl.
  rewrite SimpleSignUrlWithTime_token in Hurl.
  apply append_inv_head in Hurl.
  set (token := media_utils.signToken cfg p ts t) in *.
  assert (Htk : all_bytes (fun c => negb (url.shouldEscape c)) token = true)
    by apply EncodeToString_unreserved.
  destruct (signed_query ts token Hts Htk) as [Gts Gtk].
  unfold imageproxy.validSignature. rewrite Horig.
  unfold url.Query, media_utils.ParamVersionTs, media_utils.ParamToken.
  assert (Eq : url.RawQuery (http.URL orig)
               = ((if (0 <? Z.of_nat (String.length ts))%Z
                   then "ts=" ++ ts ++ "&tk=" else "tk=")
                  ++ token)%string).
  { symmetry.
    apply (append_inv_head "?").
    rewrite <- Hurl. now destruct (0 <? Z.of_nat (String.length ts)). }
  rewrite Eq, Gts, Gtk.
  pose proof (signToken_length cfg p ts t) as Hlen. fold token in Hlen.
  replace (Z.of_nat (String.length token) <=? 5) with false
    by (symmetry; apply Z.leb_gt; lia).
  rewrite Hpath.
  rewrite (SimpleVerify_path cfg now _ p) by apply stripSlash_slash.
  unfold token. rewrite SimpleVerify_signToken_eq. cbn [andb].
  unfold uint32. rewrite Z.mod_small by lia.
  rewrite Z.gtb_ltb. destruct (Z.ltb_spec t now), (Z.leb_spec now t); (reflexivity || lia).
Qed.

Lemma validSignature_signed_url_witness :
  let p := "/tools/im/150/production/cover.png"%string in
  let signed := media_utils.SimpleSignUrlWithTime sample.cfg p "121212" 1700000010 in
  let orig := request p (snd (sample.cut signed "?")) ∅ in
  let r := {| imageproxy.URL := sample.awss3;
              imageproxy.Options_ := imageproxy.ParseOptions sample.ParseFloat "150" false;
              imageproxy.Original := Some orig |} in
  imageproxy.validSignature sample.cfg 1700000000 r = true
  /\ imageproxy.validSignature sample.cfg 1700000011 r = false.
Proof.
  intros p signed orig r. split.
  - apply (validSignature_signed_url sample.cfg 1700000000
             "tools/im/150/production/cover.png" "121212" 1700000010 r orig).
    + lia.
    + reflexivity.
    + reflexivity.
    + reflexivity.
    + vm_compute. reflexivity.
  - apply (validSignature_signed_url sample.cfg 1700000011
             "tools/im/150/production/cover.png" "121212" 1700000010 r orig).
    + lia.
    + reflexivity.
    + reflexivity.
    + reflexivity.
    + vm_compute. reflexivity.
Defined.




(** * imageproxy: what the front handler accepts and what it answers *)

Lemma HasPrefix_split (p s : string) :
  strings.HasPrefix s p = true -> s = (p ++ strings.drop (String.length p) s)%string.
Proof.
  revert s. induction p as [|c p IH]; intros s H; [reflexivity|].
  destruct s as [|d s]; [discriminate H|].
  cbn in H. apply andb_true_iff in H as [Hc Hs].
  apply Ascii.eqb_eq in Hc as ->. cbn. f_equal. now apply IH.
Qed.

Lemma copyHeader_lookup (w : http.Header) (r : imageproxy.Response) (h k : string) :
  imageproxy.copyHeader w r h !! k
  = if decide (h = k)
    then match imageproxy.Header r !! h with Some v => Some v | None => w !! k end
    else w !! k.
Proof.
  unfold imageproxy.copyHeader.
  destruct (imageproxy.Header r !! h) as [v|]; destruct (decide (h = k)) as [->|Hne];
    try reflexivity; [apply lookup_insert_eq | now apply lookup_insert_ne].
Qed.

Section Handler.

Variable FormatFloat : float64.t -> string.
Variable ParseFloat : string -> float64.t * bool.
Variable url_Parse : string -> option url.URL.
Variable ResolveReference : url.URL -> url.URL -> url.URL.
Variable URL_String : url.URL -> string.
Variable time_Parse_RFC1123 : string -> option Z.
Variable Client_Get : string -> option imageproxy.Response.
Variable cfg : config.t.
Variable now : Z.

Local Abbreviation NewRequest :=
  (imageproxy.NewRequest ParseFloat url_Parse ResolveReference).
Local Abbreviation allowed := (imageproxy.allowed FormatFloat url_Parse URL_String).
Local Abbreviation writeResponseToWriter :=
  (imageproxy.writeResponseToWriter URL_String time_Parse_RFC1123).
Local Abbreviation serveImage :=
  (imageproxy.serveImage FormatFloat ParseFloat url_Parse ResolveReference URL_String
     time_Parse_RFC1123 Client_Get cfg now).

(** X9: an accepted request names an http or https URL.  Whatever the
    path, the base URL and the library's URL parser are, a request that
    [NewRequest] returns has a remote URL with the scheme http or https;
    it keeps the inbound request as its original, and its path started
    with [/tools/im/]. *)
Theorem NewRequest_scheme (r : http.Request) (base : option url.URL)
    (req : imageproxy.Request) :
  NewRequest r base = Ok req ->
  (url.Scheme (imageproxy.URL req) = "http"%string
   \/ url.Scheme (imageproxy.URL req) = "https"%string)
  /\ imageproxy.Original req = Some r
  /\ exists c rest, url.Path (http.URL r) = String c ("tools/im/" ++ rest).
Proof.
  unfold imageproxy.NewRequest.
  destruct (url.Path (http.URL r)) as [|c path] eqn:EP; [discriminate|].
  destruct (strings.HasPrefix path imageproxy.kCloudFrontPattern) eqn:Hpre;
    [|discriminate].
  cbn [negb].
  destruct (imageproxy.splitForceTs _) as [forceTs path'].
  match goal with
  | |- match ?parts with _ => _ end = _ -> _ => destruct parts as [[u options]|e|]
  end; try discriminate.
  destruct base as [b|].
  - destruct (url.IsAbs (ResolveReference b u)); [|discriminate]. cbn [negb].
    destruct (String.eqb_spec (url.Scheme (ResolveReference b u)) "http") as [E1|E1];
      [|destruct (String.eqb_spec (url.Scheme (ResolveReference b u)) "https") as [E2|E2]];
      cbn [negb andb]; try discriminate; intros [= <-]; cbn;
      (split; [auto | split; [reflexivity|]]).
    all: exists c; eexists; f_equal; exact (HasPrefix_split _ _ Hpre).
  - destruct (url.IsAbs u); [|discriminate]. cbn [negb].
    destruct (String.eqb_spec (url.Scheme u) "http") as [E1|E1];
      [|destruct (String.eqb_spec (url.Scheme u) "https") as [E2|E2]];
      cbn [negb andb]; try discriminate; intros [= <-]; cbn;
      (split; [auto | split; [reflexivity|]]).
    all: exists c; eexists; f_equal; exact (HasPrefix_split _ _ Hpre).
Qed.


(** X11: only the caching headers of the origin are forwarded.  What
    [writeResponseToWriter] writes carries [Cache-Control], [Last-Modified],
    [Expires], [Etag] and [Link] as the response has them, [Vary: Accept],
    and, unless it answers 304, [Content-Length] and [Content-Type] of the
    response and [Access-Control-Allow-Origin: *]; no other header of the
    response (a cookie, say) reaches the client. *)
Theorem writeResponseToWriter_headers (resp : imageproxy.Response) (r : http.Request)
    (signOK : bool) (k : string) :
  let w := fst (writeResponseToWriter resp r signOK) in
  let is304 := imageproxy.check304 time_Parse_RFC1123 r resp in
  (k ∈ ["Cache-Control"; "Last-Modified"; "Expires"; "Etag"; "Link"]%string ->
   imageproxy.w_Header w !! k = imageproxy.Header resp !! k)
  /\ imageproxy.w_Header w !! "Vary"%string = Some ["Accept"%string]
  /\ (k ∈ ["Content-Length"; "Content-Type"]%string ->
      imageproxy.w_Header w !! k = if is304 then None else imageproxy.Header resp !! k)
  /\ imageproxy.w_Header w !! "Access-Control-Allow-Origin"%string
     = (if is304 then None else Some ["*"%string])
  /\ (k ∉ ["Cache-Control"; "Last-Modified"; "Expires"; "Etag"; "Link"; "Vary";
            "Content-Length"; "Content-Type"; "Access-Control-Allow-Origin"]%string ->
      imageproxy.w_Header w !! k = None).
Proof.
  intros w is304. subst w is304. unfold imageproxy.writeResponseToWriter.
  destruct (imageproxy.check304 _ r resp); cbn [fst imageproxy.w_Header];
    unfold imageproxy.Header_Add;
    (split; [|split; [|split; [|split]]]).
  all: rewrite ?not_elem_of_cons, ?elem_of_cons, ?elem_of_nil.
  all: try (intros H; decompose [or and] H; subst; try contradiction).
  all: cbv delta [http.Header].
  all: repeat first
         [ rewrite lookup_insert_eq
         | (rewrite lookup_insert_ne; [|first [discriminate | congruence]])
         | rewrite copyHeader_lookup
         | rewrite lookup_empty
         | rewrite decide_True by reflexivity
         | (rewrite decide_False; [|first [discriminate | congruence]])
         | progress cbv delta [http.Header] ].
  all: repeat match goal with
              | |- context [match ?x with _ => _ end] => destruct x
              end.
  all: first [reflexivity | apply lookup_empty | idtac].
Qed.

End Handler.

Lemma NewRequest_scheme_witness :
  let r := request "/tools/im/150/production/cover.png" "" ∅ in
  exists req,
    imageproxy.NewRequest sample.ParseFloat sample.url_Parse sample.ResolveReference
      r (Some sample.awss3) = Ok req
    /\ (url.Scheme (imageproxy.URL req) = "http"%string
        \/ url.Scheme (imageproxy.URL req) = "https"%string).
Proof.
  intros r.
  destruct (imageproxy.NewRequest sample.ParseFloat sample.url_Parse
              sample.ResolveReference r (Some sample.awss3)) as [req| |] eqn:E;
    try (vm_compute in E; discriminate E).
  exists req. split; [reflexivity|].
  destruct (NewRequest_scheme sample.ParseFloat sample.url_Parse
              sample.ResolveReference r (Some sample.awss3) req E) as [H _].
  exact H.
Defined.

(** * imageproxy: the host whitelist and the format check *)

Lemma length_append (a b : string) :
  String.length (a ++ b) = (String.length a + String.length b)%nat.
Proof. induction a as [|c a IH]; cbn; [reflexivity | now rewrite IH]. Qed.

Lemma drop_append (a b : string) : strings.drop (String.length a) (a ++ b) = b.
Proof. induction a as [|c a IH]; cbn; [reflexivity | exact IH]. Qed.

Lemma HasSuffix_append (a b : string) : strings.HasSuffix (a ++ b) b = true.
Proof.
  unfold strings.HasSuffix. rewrite length_append.
  replace (String.length a + String.length b - String.length b)%nat
    with (String.length a) by lia.
  rewrite drop_append, String.eqb_refl, andb_true_r.
  apply Nat.leb_le. lia.
Qed.

Lemma validHost_app (hs hs' : list string) (u : url.URL) :
  imageproxy.validHost (hs ++ hs') u
  = imageproxy.validHost hs u || imageproxy.validHost hs' u.
Proof.
  induction hs as [|h hs IH]; [reflexivity|]. cbn [app imageproxy.validHost].
  destruct (String.eqb (url.Host u) h); [reflexivity|].
  destruct (strings.HasPrefix h "*." && strings.HasSuffix (url.Host u) (strings.drop 2 h));
    [reflexivity | exact IH].
Qed.

(** X12: the host whitelist.  A list of patterns admits a URL when one of
    them admits it, so that adding patterns never shuts a host out and the
    empty list admits none.  A pattern without the prefix [*.] admits its
    own text only.  A pattern [*.d] admits every host whose text ends in
    [d]: the host [d] itself and [x.d], and also a host such as [xd] that
    has no dot in front of [d]. *)
Theorem validHost_patterns (hs hs' : list string) (u : url.URL) (h d pre : string) :
  imageproxy.validHost [] u = false
  /\ imageproxy.validHost (hs ++ hs') u
     = imageproxy.validHost hs u || imageproxy.validHost hs' u
  /\ (strings.HasPrefix h "*." = false ->
      imageproxy.validHost [h] u = String.eqb (url.Host u) h)
  /\ (imageproxy.validHost ["*." ++ d]%string u
      = String.eqb (url.Host u) ("*." ++ d) || strings.HasSuffix (url.Host u) d)
  /\ (url.Host u = (pre ++ d)%string -> imageproxy.validHost ["*." ++ d]%string u = true).
Proof.
  split; [reflexivity|]. split; [apply validHost_app|]. split; [|split].
  - intros Hh. cbn [imageproxy.validHost]. rewrite Hh. cbn [andb].
    now destruct (String.eqb (url.Host u) h).
  - cbn [imageproxy.validHost].
    change (strings.HasPrefix ("*." ++ d) "*.") with true.
    change (strings.drop 2 ("*." ++ d)) with d. cbn [andb].
    destruct (String.eqb (url.Host u) ("*." ++ d)); [reflexivity|]. cbn [orb].
    now destruct (strings.HasSuffix (url.Host u) d).
  - intros E. cbn [imageproxy.validHost].
    change (strings.HasPrefix ("*." ++ d) "*.") with true.
    change (strings.drop 2 ("*." ++ d)) with d. cbn [andb].
    destruct (String.eqb (url.Host u) ("*." ++ d)); [reflexivity|].
    rewrite E, HasSuffix_append. reflexivity.
Qed.


Section Formats403.

Variable FormatFloat : float64.t -> string.
Variable ParseFloat : string -> float64.t * bool.
Variable url_Parse : string -> option url.URL.
Variable ResolveReference : url.URL -> url.URL -> url.URL.
Variable URL_String : url.URL -> string.
Variable time_Parse_RFC1123 : string -> option Z.
Variable Client_Get : string -> option imageproxy.Response.
Variable cfg : config.t.
Variable now : Z.


End Formats403.


(** * imageproxy: the format and the quality of the output *)

Section Output.

Variable Image : Type.
Variable Dx Dy : Image -> Z.
Variable image_Decode : list ascii -> option (Image * string).
Variable imaging_Fit imaging_Resize imaging_Thumbnail : Image -> Z -> Z -> Image.
Variable imaging_FlipV imaging_FlipH : Image -> Image.
Variable imaging_Rotate90 imaging_Rotate180 imaging_Rotate270 : Image -> Image.
Variable webp_Encode jpeg_Encode : Image -> Z -> option (list ascii).
Variable png_Encode : Image -> option (list ascii).
Variable Frame X : Type.
Variable frame_Dx frame_Dy frame_MaxX frame_MaxY : Frame -> Z.
Variable NewRGBA : Z -> Z -> Image.
Variable draw_Over : Image -> Frame -> Image.
Variable toPaletted : Image -> Frame -> Frame.
Variable gif_DecodeAll : list ascii -> option (imageproxy.GIF Frame X).
Variable gif_EncodeAll : imageproxy.GIF Frame X -> option (list ascii).

Local Abbreviation resizeParams := (imageproxy.resizeParams Image Dx Dy).
Local Abbreviation DetectFormat :=
  (imageproxy.DetectFormat Image image_Decode webp_Encode jpeg_Encode png_Encode
     Frame X frame_Dx frame_Dy frame_MaxX frame_MaxY NewRGBA draw_Over toPaletted
     gif_DecodeAll gif_EncodeAll).
Local Abbreviation Transform :=
  (imageproxy.Transform Image Dx Dy image_Decode imaging_Fit imaging_Resize
     imaging_Thumbnail imaging_FlipV imaging_FlipH imaging_Rotate90 imaging_Rotate180
     imaging_Rotate270 webp_Encode jpeg_Encode png_Encode
     Frame X frame_Dx frame_Dy frame_MaxX frame_MaxY NewRGBA draw_Over toPaletted
     gif_DecodeAll gif_EncodeAll).

Lemma encoded_format (out : option (list ascii)) (format codec : string)
    (b : list ascii) (f : string) :
  imageproxy.encoded out format codec = Ok (b, f) -> f = format.
Proof. unfold imageproxy.encoded. destruct out; [intros [= _ <-]; reflexivity | discriminate]. Qed.

(** X14: the format of the output.  For a source that decodes as jpeg,
    png or webp and options whose format passes the access check (empty,
    or one of jpeg, jpg, gif, png, webp), whatever [Transform] and
    [DetectFormat] return has the same format: the one of the source when
    the options name none, jpeg when they name jpg, and the named one
    otherwise.  That format always has a content type, and neither
    function fails for an unsupported format. *)
Theorem output_format (img : list ascii) (opt : imageproxy.Options)
    (m : Image) (src : string) :
  image_Decode img = Some (m, src) ->
  src ∈ ["jpeg"; "png"; "webp"]%string ->
  imageproxy.Format opt ∈ [""; "jpeg"; "jpg"; "gif"; "png"; "webp"]%string ->
  let target :=
    if String.eqb (imageproxy.Format opt) "" then src
    else if String.eqb (imageproxy.Format opt) "jpg" then "jpeg"%string
    else imageproxy.Format opt in
  (forall out f, Transform img opt = Ok (out, f) -> f = target)
  /\ (forall out f, DetectFormat img opt = Ok (out, f) -> f = target)
  /\ imageproxy.FileContentType target <> ""%string
  /\ (forall x, Transform img opt <> Err ("image format " ++ x ++ " not supported"))
  /\ (forall x, DetectFormat img opt <> Err ("image format " ++ x ++ " not supported")).
Proof.
  intros Hdec Hsrc Hfmt target. subst target.
  unfold imageproxy.Transform, imageproxy.DetectFormat. rewrite Hdec.
  unfold media_utils.ImageFormatGif, media_utils.ImageFormatWebp,
    media_utils.ImageFormatJpg, media_utils.ImageFormatJpeg, media_utils.ImageFormatPng.
  repeat (apply elem_of_cons in Hsrc as [->|Hsrc]);
    try (apply elem_of_nil in Hsrc; contradiction);
    repeat (apply elem_of_cons in Hfmt as [->|Hfmt]);
    try (apply elem_of_nil in Hfmt; contradiction);
    destruct (imageproxy.transform opt); cbn;
    repeat match goal with
           | |- context [Z.of_nat ?n] =>
               let v := eval vm_compute in (Z.of_nat n) in
               change (Z.of_nat n) with v
           end;
    cbn;
    (split; [|split; [|split; [|split]]]);
    try (intros out f H); try (intros x H); try discriminate;
    unfold imageproxy.encoded, imageproxy.GifProcess in *;
    repeat match type of H with
           | context [match ?x with _ => _ end] =>
               lazymatch x with
               | context [match _ with _ => _ end] => fail
               | _ => destruct x
               end
           end;
    first [ discriminate H
          | injection H as <- <-; reflexivity
          | cbn [String.append] in H; discriminate H ].
Qed.

(** X15: the quality.  A quality of 0 stands for 80: [Transform] and
    [DetectFormat] return the same for options without quality and for the
    same options with quality 80.  For a source that decodes as gif, and
    for a png output, the quality is not read at all. *)
Theorem quality_default (img : list ascii) (opt : imageproxy.Options) (q : Z) :
  (imageproxy.Quality opt = 0 ->
   Transform img opt = Transform img (imageproxy.set_Quality opt imageproxy.defaultQuality)
   /\ DetectFormat img opt
      = DetectFormat img (imageproxy.set_Quality opt imageproxy.defaultQuality))
  /\ (forall m src,
        image_Decode img = Some (m, src) ->
        src = "gif"%string
        \/ (src <> "gif"%string /\ imageproxy.Format opt = "png"%string)
        \/ (src = "png"%string /\ imageproxy.Format opt = ""%string) ->
        Transform img (imageproxy.set_Quality opt q) = Transform img opt
        /\ DetectFormat img (imageproxy.set_Quality opt q) = DetectFormat img opt).
Proof.
  split.
  - intros Hq. unfold imageproxy.Transform, imageproxy.DetectFormat,
      imageproxy.quality_of, imageproxy.transform, imageproxy.transformImage,
      imageproxy.resizeParams.
    cbn [imageproxy.set_Quality imageproxy.Quality imageproxy.Format imageproxy.Width
         imageproxy.Height imageproxy.Rotate imageproxy.Fit imageproxy.FlipVertical
         imageproxy.FlipHorizontal].
    rewrite Hq. split; reflexivity.
  - intros m src Hdec Hcase.
    unfold imageproxy.Transform, imageproxy.DetectFormat,
      imageproxy.quality_of, imageproxy.transform, imageproxy.transformImage,
      imageproxy.resizeParams.
    cbn [imageproxy.set_Quality imageproxy.Quality imageproxy.Format imageproxy.Width
         imageproxy.Height imageproxy.Rotate imageproxy.Fit imageproxy.FlipVertical
         imageproxy.FlipHorizontal].
    rewrite Hdec.
    unfold media_utils.ImageFormatGif, media_utils.ImageFormatWebp,
      media_utils.ImageFormatJpg, media_utils.ImageFormatJpeg, media_utils.ImageFormatPng.
    destruct Hcase as [->|[[Hng ->]|[-> ->]]].
    + rewrite !orb_true_r, !andb_false_r. cbn [String.eqb Ascii.eqb Bool.eqb].
      split; reflexivity.
    + apply String.eqb_neq in Hng. rewrite Hng.
      rewrite (String.eqb_sym "gif" src), Hng.
      change (0 <? Z.of_nat (String.length "png")) with true.
      cbn [String.eqb Ascii.eqb Bool.eqb negb andb orb]. split; reflexivity.
    + cbn [String.eqb Ascii.eqb Bool.eqb negb andb orb String.length].
      change (0 <? Z.of_nat 0) with false. cbn [andb]. split; reflexivity.
Qed.

(** X16: outside the rescaling of an oversized box, a resize stays within
    the source.  With the requested width [W] and height [H] in pixels,
    when the options say fit, or one of [W] and [H] is not positive, or
    neither exceeds the source: each dimension is cut down to the one of
    the source, no resize is asked for when the result is the source's own
    size (0 standing for any), and a resize that is asked for is never
    larger than the source in either dimension. *)
Theorem resizeParams_within_source (m : Image) (opt : imageproxy.Options) :
  let W := imageproxy.requested (Dx m) (imageproxy.Width opt) in
  let H := imageproxy.requested (Dy m) (imageproxy.Height opt) in
  imageproxy.Fit opt = true \/ W <= 0 \/ H <= 0 \/ (W <= Dx m /\ H <= Dy m) ->
  let w := Z.min W (Dx m) in
  let h := Z.min H (Dy m) in
  resizeParams m opt
  = (if ((w =? Dx m) || (w =? 0)) && ((h =? Dy m) || (h =? 0))
     then (0, 0, false) else (w, h, true))
  /\ forall w' h', resizeParams m opt = (w', h', true) -> w' <= Dx m /\ h' <= Dy m.
Proof.
  intros W H Hcase w h.
  assert (E : resizeParams m opt
              = (if ((w =? Dx m) || (w =? 0)) && ((h =? Dy m) || (h =? 0))
                 then (0, 0, false) else (w, h, true))).
  { unfold imageproxy.resizeParams. fold W H.
    replace ((0 <? W) && (0 <? H) && negb (imageproxy.Fit opt)
             && ((Dx m <? W) || (Dy m <? H))) with false.
    2:{ symmetry. destruct Hcase as [->|[Hw|[Hh|[Hw Hh]]]].
        - now rewrite andb_false_r.
        - replace (0 <? W) with false by (symmetry; apply Z.ltb_ge; lia). reflexivity.
        - replace (0 <? H) with false by (symmetry; apply Z.ltb_ge; lia).
          now rewrite andb_false_r.
        - replace (Dx m <? W) with false by (symmetry; apply Z.ltb_ge; lia).
          replace (Dy m <? H) with false by (symmetry; apply Z.ltb_ge; lia).
          now rewrite andb_false_r. }
    replace (if Dx m <? W then Dx m else W) with w
      by (unfold w; destruct (Z.ltb_spec (Dx m) W); lia).
    replace (if Dy m <? H then Dy m else H) with h
      by (unfold h; destruct (Z.ltb_spec (Dy m) H); lia).
    reflexivity. }
  split; [exact E|].
  intros w' h'. rewrite E.
  destruct (((w =? Dx m) || (w =? 0)) && ((h =? Dy m) || (h =? 0))); [discriminate|].
  intros [= <- <-]. unfold w, h. lia.
Qed.

End Output.

Lemma resizeParams_within_source_witness :
  let m : sample.Image := (100, 50) in
  let opt := imageproxy.ParseOptions sample.ParseFloat "50x20" false in
  imageproxy.resizeParams sample.Image sample.Dx sample.Dy m opt = (50, 20, true).
Proof.
  intros m opt.
  destruct (resizeParams_within_source sample.Image sample.Dx sample.Dy m opt) as [H _].
  - right. right. right. split; vm_compute; discriminate.
  - rewrite H. reflexivity.
Defined.

Lemma output_format_witness :
  let img := sample.encode "png" (100, 100) in
  let opt := imageproxy.ParseOptions sample.ParseFloat "50x50,fjpg" false in
  exists out, sample_Transform img opt = Ok (out, "jpeg"%string).
Proof.
  intros img opt.
  destruct (sample_Transform img opt) as [[out f]|e|] eqn:E;
    try (vm_compute in E; discriminate E).
  exists out. f_equal. f_equal. revert E. unfold sample_Transform.
  generalize out f.
  destruct (output_format sample.Image sample.Dx sample.Dy sample.image_Decode
              sample.imaging_Fit sample.imaging_Resize sample.imaging_Thumbnail
              sample.imaging_Flip sample.imaging_Flip
              sample.imaging_Rotate90 sample.imaging_Rotate180 sample.imaging_Rotate90
              (sample_encoder "webp") (sample_encoder "jpeg")
              (fun m => Some (sample.encode "png" m))
              sample.Image unit sample.Dx sample.Dy sample.Dx sample.Dy
              (fun w h => (w, h)) (fun canvas frame => canvas) (fun m frame => m)
              sample.gif_DecodeAll sample.gif_EncodeAll
              img opt (100, 100) "png") as [H _].
  - reflexivity.
  - apply elem_of_cons. right. apply elem_of_cons. left. reflexivity.
  - change (imageproxy.Format opt) with "jpg"%string.
    do 2 (apply elem_of_cons; right). apply elem_of_cons. left. reflexivity.
  - exact H.
Defined.

(** * imageproxy: options are read from left to right *)

Lemma split_scan_app (c : ascii) (a b : string) :
  forall cur,
    strings.split_scan (String c "") None O cur (a ++ String c b)
    = strings.split_scan (String c "") None O cur a
      ++ strings.split_scan (String c "") None O [] b.
Proof.
  induction a as [|d a IH]; intros cur.
  - cbn. rewrite Ascii.eqb_refl. reflexivity.
  - cbn [String.append strings.split_scan strings.HasPrefix].
    destruct (Ascii.eqb c d); cbn [andb option_map String.length Nat.sub];
      rewrite IH; reflexivity.
Qed.

Lemma Split_app (c : ascii) (a b : string) :
  strings.Split (a ++ String c b) (String c "")
  = strings.Split a (String c "") ++ strings.Split b (String c "").
Proof. unfold strings.Split, strings.SplitN. cbn. apply split_scan_app. Qed.

Section LeftToRight.

Variable ParseFloat : string -> float64.t * bool.

Local Abbreviation ParseOptions := (imageproxy.ParseOptions ParseFloat).
Local Abbreviation parseOption := (imageproxy.parseOption ParseFloat).

(** X17: options are read from left to right, each on top of the ones
    before it.  The options of a text [a,b] are those of [a] with the
    options of [b] applied in their order; so a text followed by [,fit],
    [,fv] or [,fh] sets that flag and keeps the rest, followed by a
    rotation, a quality or a format replaces the earlier one, and an empty
    option (a trailing or doubled comma) changes nothing. *)
Theorem ParseOptions_left_to_right (a b : string) (z : Z) (f : string) :
  ParseOptions (a ++ "," ++ b) false
  = fold_left parseOption (strings.Split b ",") (ParseOptions a false)
  /\ ParseOptions (a ++ ",") false = ParseOptions a false
  /\ ParseOptions (a ++ ",fit") false = imageproxy.set_Fit (ParseOptions a false) true
  /\ ParseOptions (a ++ ",fv") false
     = imageproxy.set_FlipVertical (ParseOptions a false) true
  /\ ParseOptions (a ++ ",fh") false
     = imageproxy.set_FlipHorizontal (ParseOptions a false) true
  /\ (is_int z ->
      ParseOptions (a ++ ",r" ++ strconv.Itoa z) false
      = imageproxy.set_Rotate (ParseOptions a false) z
      /\ ParseOptions (a ++ ",q" ++ strconv.Itoa z) false
         = imageproxy.set_Quality (ParseOptions a false) z)
  /\ (format_text f = true ->
      ParseOptions (a ++ ",f" ++ f) false = imageproxy.set_Format (ParseOptions a false) f).
Proof.
  assert (E : forall b, ParseOptions (a ++ "," ++ b) false
              = fold_left parseOption (strings.Split b ",") (ParseOptions a false)).
  { intros b'. unfold imageproxy.ParseOptions. cbn [andb].
    change (a ++ "," ++ b')%string with (a ++ String "," b')%string.
    rewrite (Split_app ","), fold_left_app. reflexivity. }
  split; [apply E|].
  split; [apply (E ""%string)|].
  split; [apply (E "fit"%string)|].
  split; [apply (E "fv"%string)|].
  split; [apply (E "fh"%string)|].
  split.
  - intros Hz. split.
    + change (a ++ ",r" ++ strconv.Itoa z)%string
        with (a ++ "," ++ ("r" ++ strconv.Itoa z))%string.
      rewrite E, (Split_last ",")
        by (rewrite (no_byte_app "," "r"); apply andb_true_iff;
            split; [reflexivity | apply Itoa_no_byte; reflexivity]).
      cbn [fold_left]. now apply parseOption_rotate.
    + change (a ++ ",q" ++ strconv.Itoa z)%string
        with (a ++ "," ++ ("q" ++ strconv.Itoa z))%string.
      rewrite E, (Split_last ",")
        by (rewrite (no_byte_app "," "q"); apply andb_true_iff;
            split; [reflexivity | apply Itoa_no_byte; reflexivity]).
      cbn [fold_left]. now apply parseOption_quality.
  - intros Hf.
    change (a ++ ",f" ++ f)%string with (a ++ "," ++ ("f" ++ f))%string.
    assert (Hc : no_byte "," f = true).
    { unfold format_text in Hf. now repeat (apply andb_true_iff in Hf as [Hf _]). }
    rewrite E, (Split_last ",")
      by (rewrite (no_byte_app "," "f"); apply andb_true_iff;
          split; [reflexivity | exact Hc]).
    cbn [fold_left]. now apply parseOption_format.
Qed.

End LeftToRight.

(** * cache: the key of a request *)

Lemma ReplaceAll1_app (a b : string) (old : ascii) (new : string) :
  strings.ReplaceAll1 (a ++ b) old new
  = (strings.ReplaceAll1 a old new ++ strings.ReplaceAll1 b old new)%string.
Proof.
  induction a as [|c a IH]; [reflexivity|]. cbn [String.append strings.ReplaceAll1].
  rewrite IH. destruct (Ascii.eqb c old); [now rewrite append_assoc | reflexivity].
Qed.

Lemma ReplaceAll1_mark (s : string) :
  no_byte "#" (strings.ReplaceAll1 s "#" "_") = true
  /\ String.length (strings.ReplaceAll1 s "#" "_") = String.length s
  /\ (no_byte "#" s = true -> strings.ReplaceAll1 s "#" "_" = s).
Proof.
  induction s as [|c s (IH1 & IH2 & IH3)]; [repeat split|].
  cbn [strings.ReplaceAll1]. unfold no_byte in *. cbn [all_bytes].
  destruct (Ascii.eqb c "#") eqn:Ec; cbn [String.append all_bytes String.length negb andb].
  - rewrite IH1, IH2. repeat split. discriminate.
  - rewrite Ec, IH1, IH2. repeat split. cbn. intros H. now rewrite IH3.
Qed.

(** X18: the cache key of a URL.  The key is the text of the URL with
    every [#] written [_]: it has the length of that text, holds no [#],
    and is the text itself when that holds none.  Two URLs whose texts
    differ only in a [#] against a [_] have the same key; a request string
    carries its options behind a [#], so the key of an image with options
    is also the key of the URL that has [_] and the options in its text. *)
Theorem CacheKey_mark (URL_String : url.URL -> string) (u u' : url.URL) (a b : string) :
  no_byte "#" (imageproxy.CacheKey URL_String u) = true
  /\ String.length (imageproxy.CacheKey URL_String u) = String.length (URL_String u)
  /\ (no_byte "#" (URL_String u) = true -> imageproxy.CacheKey URL_String u = URL_String u)
  /\ (URL_String u = (a ++ "#" ++ b)%string -> URL_String u' = (a ++ "_" ++ b)%string ->
      imageproxy.CacheKey URL_String u = imageproxy.CacheKey URL_String u').
Proof.
  unfold imageproxy.CacheKey.
  destruct (ReplaceAll1_mark (URL_String u)) as (H1 & H2 & H3).
  split; [exact H1|]. split; [exact H2|]. split; [exact H3|].
  intros -> ->. rewrite !ReplaceAll1_app. reflexivity.
Qed.

(** * imageproxy: the origin-cache entry read back *)

Lemma PutUint16_Uint16 (b0 b1 : ascii) :
  ImageMeta.PutUint16 (ImageMeta.Uint16 b0 b1) = [b0; b1]
  /\ 0 <= ImageMeta.Uint16 b0 b1 < 2 ^ 16.
Proof.
  unfold ImageMeta.PutUint16, ImageMeta.Uint16.
  pose proof (Z_of_byte_range b0) as H0. pose proof (Z_of_byte_range b1) as H1.
  rewrite lor_shiftl_add by lia. change (2 ^ 8) with 256.
  split; [|lia]. f_equal; [|f_equal].
  - apply byte_of_Z_eq. rewrite Z.shiftr_div_pow2 by lia. change (2 ^ 8) with 256.
    Z.div_mod_to_equations. lia.
  - apply byte_of_Z_eq. Z.div_mod_to_equations. lia.
Qed.

Lemma slice_Some {A} (s : list A) (lo hi : Z) (r : list A) :
  slice s lo hi = Some r ->
  0 <= lo <= hi /\ hi <= len s
  /\ r = firstn (Z.to_nat (hi - lo)) (skipn (Z.to_nat lo) s).
Proof.
  unfold slice.
  destruct (Z.leb_spec 0 lo); [|discriminate].
  destruct (Z.leb_spec lo hi); [|discriminate].
  destruct (Z.leb_spec hi (len s)); [|discriminate].
  cbn. intros [= <-]. repeat split; lia.
Qed.

(** X19: reading an entry of the origin cache is the inverse of writing
    one, and nothing else.  [NewImageWithMetaFromCache] returns a value on
    exactly the byte strings that [Bytes] writes for a value with fewer than
    65534 bytes of headers, and it returns that value; on every other byte
    string, one shorter than two bytes or shorter than the length it
    announces among them, it panics. *)
Theorem NewImageWithMetaFromCache_inverse (data : list ascii)
    (m : ImageMeta.ImageWithMeta) :
  (ImageMeta.NewImageWithMetaFromCache data = Some m
   <-> ImageMeta.Bytes m = data /\ len (ImageMeta.Headers m) < 65534)
  /\ (len data < 2 -> ImageMeta.NewImageWithMetaFromCache data = None)
  /\ (forall b0 b1 rest, data = b0 :: b1 :: rest ->
        len rest < ImageMeta.Uint16 b0 b1 ->
        ImageMeta.NewImageWithMetaFromCache data = None).
Proof.
  assert (Hdec : forall m', ImageMeta.NewImageWithMetaFromCache data = Some m' ->
            exists b0 b1, data = b0 :: b1 :: ImageMeta.Headers m' ++ ImageMeta.Image m'
              /\ len (ImageMeta.Headers m') = ImageMeta.Uint16 b0 b1
              /\ ImageMeta.Uint16 b0 b1 < 65534).
  { intros m'. unfold ImageMeta.NewImageWithMetaFromCache.
    destruct (slice data 0 2) as [[|b0 [|b1 [|? ?]]]|] eqn:E0; try discriminate.
    apply slice_Some in E0 as (_ & Hl & E0).
    destruct data as [|x0 [|x1 rest]]; try (unfold len in Hl; cbn in Hl; lia).
    cbn in E0. injection E0 as <- <-.
    destruct (PutUint16_Uint16 b0 b1) as [_ Hn].
    remember (ImageMeta.Uint16 b0 b1) as n eqn:En.
    destruct (slice _ 2 _) as [h|] eqn:E1; [|discriminate].
    destruct (slice_from _ _) as [i|] eqn:E2; [|discriminate].
    intros [= <-]. cbn [ImageMeta.Headers ImageMeta.Image].
    apply slice_Some in E1 as (Hlo & Hhi & E1).
    unfold slice_from in E2. apply slice_Some in E2 as (_ & _ & E2).
    assert (Hu : uint16 (2 + n) = 2 + n).
    { unfold uint16 in *. change (2 ^ 16) with 65536 in *.
      destruct (Z_lt_le_dec (2 + n) 65536) as [Hs|Hs]; [apply Z.mod_small; lia|].
      exfalso. assert (Hw : (2 + n) mod 65536 = 2 + n - 65536)
        by (Z.div_mod_to_equations; lia).
      rewrite Hw in Hlo. clear -Hlo Hn. lia. }
    rewrite Hu in *.
    assert (Hlen : len (b0 :: b1 :: rest) = 2 + len rest) by (unfold len; cbn; lia).
    rewrite Hlen in *.
    replace (2 + n - 2) with n in E1 by lia.
    replace (2 + len rest - (2 + n)) with (len rest - n) in E2 by lia.
    change (Z.to_nat 2) with 2%nat in E1. cbn [skipn] in E1.
    replace (Z.to_nat (2 + n)) with (S (S (Z.to_nat n))) in E2 by lia. cbn [skipn] in E2.
    exists b0, b1. subst h i. rewrite <- En. change (drop 0 rest) with rest.
    assert (Hn' : (Z.to_nat n <= length rest)%nat) by (unfold len in *; lia).
    split; [|split].
    - f_equal. f_equal.
      rewrite (firstn_all2 (n := Z.to_nat (len rest - n)))
        by (rewrite length_skipn; unfold len; lia).
      symmetry. apply firstn_skipn.
    - unfold len. rewrite length_firstn. lia.
    - unfold uint16 in Hu. change (2 ^ 16) with 65536 in *.
      destruct (Z_lt_le_dec (2 + n) 65536) as [Hs|Hs]; [lia|].
      exfalso. assert ((2 + n) mod 65536 = 2 + n - 65536)
        by (Z.div_mod_to_equations; lia). lia. }
  split; [split|split].
  - intros H. destruct (Hdec m H) as (b0 & b1 & -> & Hl & Hn).
    split; [|lia]. unfold ImageMeta.Bytes. rewrite Hl.
    destruct (PutUint16_Uint16 b0 b1) as [Hp Hr].
    unfold uint16. rewrite Z.mod_small by lia. rewrite Hp. reflexivity.
  - intros [<- Hl]. now apply NewImageWithMetaFromCache_Bytes.
  - intros Hl. destruct (ImageMeta.NewImageWithMetaFromCache data) as [m'|] eqn:E;
      [|reflexivity].
    destruct (Hdec m' eq_refl) as (b0 & b1 & -> & _). unfold len in Hl. cbn in Hl. lia.
  - intros b0 b1 rest -> Hl.
    destruct (ImageMeta.NewImageWithMetaFromCache _) as [m'|] eqn:E; [|reflexivity].
    destruct (Hdec m' eq_refl) as (c0 & c1 & Ed & Hl' & _).
    injection Ed as <- <- ->. rewrite <- Hl' in Hl.
    unfold len in Hl. rewrite length_app in Hl. lia.
Qed.

(** * The library model of MD5 on published values (RFC 1321, A.5) *)

Example md5_Sum_empty :
  hexdump (md5.Sum []) = "d41d8cd98f00b204e9800998ecf8427e"%string.
Proof. vm_compute. reflexivity. Qed.

Example md5_Sum_abc :
  hexdump (md5.Sum (bytes_of_string "abc")) = "900150983cd24fb0d6963f7d28e17f72"%string.
Proof. vm_compute. reflexivity. Qed.

Example md5_Sum_two_blocks :
  hexdump (md5.Sum (bytes_of_string
    "12345678901234567890123456789012345678901234567890123456789012345678901234567890"))
  = "57edf4a22be3c955ac49da2e2107b67a"%string.
Proof. vm_compute. reflexivity. Qed.

(** * cache/diskcache: file names and coherence *)

Lemma md5_Sum_length (msg : list ascii) : length (md5.Sum msg) = 16%nat.
Proof. unfold md5.Sum. rewrite !length_app. reflexivity. Qed.

Lemma hexdigit_hex (n : Z) : 0 <= n < 16 -> is_hex_digit (hexdigit n) = true.
Proof.
  intros H. assert (Hn : (Z.to_nat n < 16)%nat) by lia.
  rewrite <- (Z2Nat.id n) by lia.
  remember (Z.to_nat n) as k eqn:E. clear E H.
  do 16 (destruct k as [|k]; [reflexivity|]). lia.
Qed.

Lemma hexdump_hex (data : list ascii) :
  all_bytes is_hex_digit (hexdump data) = true
  /\ String.length (hexdump data) = (2 * length data)%nat.
Proof.
  induction data as [|b data [IH1 IH2]]; [split; reflexivity|].
  cbn [hexdump all_bytes String.length length].
  pose proof (Z_of_byte_range b) as Hb.
  rewrite !hexdigit_hex, IH1, IH2.
  - split; [reflexivity | lia].
  - change 15 with (Z.ones 4). rewrite Z.land_ones by lia. apply Z.mod_pos_bound. lia.
  - rewrite Z.shiftr_div_pow2 by lia. change (2 ^ 4) with 16.
    Z.div_mod_to_equations. lia.
Qed.

Lemma keyToFilename_shape (key : string) :
  String.length (diskcache.keyToFilename key) = 32%nat
  /\ all_bytes is_hex_digit (diskcache.keyToFilename key) = true
  /\ exists x s, diskcache.keyToFilename key = String x s.
Proof.
  unfold diskcache.keyToFilename.
  destruct (hexdump_hex (md5.Sum (bytes_of_string key))) as [Hh Hl].
  rewrite md5_Sum_length in Hl.
  split; [exact Hl|]. split; [exact Hh|].
  destruct (hexdump (md5.Sum (bytes_of_string key))) as [|x s]; [discriminate Hl|].
  now exists x, s.
Qed.

(** X20: the file name of a key.  [keyToFilename] yields 32 lower-case
    hexadecimal digits for every key, the empty one included: the name is
    never empty, so that the store never refuses it, and it holds no slash
    and no dot, so that it names a file in the base directory itself. *)
Theorem keyToFilename_name (key : string) :
  String.length (diskcache.keyToFilename key) = 32%nat
  /\ all_bytes is_hex_digit (diskcache.keyToFilename key) = true
  /\ diskcache.keyToFilename key <> ""%string
  /\ no_byte "/" (diskcache.keyToFilename key) = true
  /\ no_byte "." (diskcache.keyToFilename key) = true
  /\ forall c written,
       snd (diskv.WriteStream c (diskcache.keyToFilename key) written)
       <> Err "empty key".
Proof.
  destruct (keyToFilename_shape key) as (Hl & Hh & x & s & E).
  split; [exact Hl|]. split; [exact Hh|]. split; [rewrite E; discriminate|].
  split; [|split].
  - revert Hh. apply all_bytes_impl. intros c Hc.
    destruct (Ascii.eqb_spec c "/") as [->|_]; [discriminate Hc | reflexivity].
  - revert Hh. apply all_bytes_impl. intros c Hc.
    destruct (Ascii.eqb_spec c ".") as [->|_]; [discriminate Hc | reflexivity].
  - intros c written. unfold diskv.WriteStream. rewrite E.
    cbn [String.length]. replace (Z.of_nat (S (String.length s)) <=? 0) with false
      by (symmetry; apply Z.leb_gt; lia).
    destruct written; cbn; discriminate.
Qed.

Lemma WriteStream_name (d : diskv.Diskv) (key : string) :
  fst (diskv.WriteStream d (diskcache.keyToFilename key) true)
  = diskv.bustCacheWithLock d (diskcache.keyToFilename key).
Proof.
  destruct (keyToFilename_shape key) as (_ & _ & x & s & E).
  unfold diskv.WriteStream. rewrite E. reflexivity.
Qed.

Lemma Erase_name (d : diskv.Diskv) (name : string) (removed : bool) :
  fst (diskv.Erase d name removed) = diskv.bustCacheWithLock d name.
Proof. unfold diskv.Erase. now destruct removed. Qed.

Lemma bustCacheWithLock_options (d : diskv.Diskv) (name : string) :
  diskv.options (diskv.bustCacheWithLock d name) = diskv.options d.
Proof. unfold diskv.bustCacheWithLock. now destruct (diskv.cache d !! name). Qed.

(** X21: what is set is got, what is deleted is gone.  On a cache whose
    store keeps the accounts under a positive maximum, [Get] of a key
    after a completed [Set] of that key does not use what was cached
    before: it returns the bytes that the file then holds, and from then on
    [Get] returns them whatever the disk does (from memory when they are
    not longer than the maximum); [Get] after [Delete] of the key, the file
    being gone, returns not-ok and [Exists] says no. *)
Theorem diskcache_Set_Get (c : diskv.Diskv) (key : string) (resp : list ascii)
    (removed : bool) (order : diskv.range_order) :
  0 < diskv.CacheSizeMax (diskv.options c) < 2 ^ 63 ->
  accounted c ->
  (forall m, order m ≡ₚ map_to_list m) ->
  (exists c2,
     diskcache.Get order (diskcache.Set_ c key true) key (diskv.ReadsAll resp true)
     = Some (c2, (resp, true))
     /\ accounted c2
     /\ (len resp <= diskv.CacheSizeMax (diskv.options c) ->
         forall order' fs, diskcache.Get order' c2 key fs = Some (c2, (resp, true))
                           /\ diskcache.Exists_ c2 key false = true))
  /\ diskcache.Get order (diskcache.Delete c key removed) key diskv.NoFile
     = Some (diskcache.Delete c key removed, ([], false))
  /\ diskcache.Exists_ (diskcache.Delete c key removed) key false = false.
Proof.
  intros Hmax Hacc Hord.
  unfold diskcache.Get, diskcache.Set_, diskcache.Delete, diskcache.Exists_.
  rewrite WriteStream_name, Erase_name.
  remember (diskcache.keyToFilename key) as name eqn:Ename.
  assert (Hnone : diskv.cache (diskv.bustCacheWithLock c name) !! name = None).
  { rewrite bustCacheWithLock_lookup. now destruct (decide (name = name)). }
  split; [|split].
  - destruct (Read_file (diskv.bustCacheWithLock c name) name resp true order)
      as (c2 & HR & Hacc2 & Hopt & _ & Hin & _).
    + rewrite bustCacheWithLock_options. lia.
    + apply (bustCacheWithLock_accounted (diskv.CacheSizeMax (diskv.options c)));
        [lia | reflexivity | exact Hacc].
    + exact Hord.
    + exact Hnone.
    + rewrite HR. exists c2. split; [reflexivity|]. split; [exact Hacc2|].
      intros Hlen order' fs.
      rewrite bustCacheWithLock_options in Hin.
      assert (Hc : diskv.cache c2 !! name = Some resp) by (apply Hin; lia).
      unfold diskv.Has, diskv.Read, diskv.ReadStream.
      now rewrite Hc.
  - unfold diskv.Read, diskv.ReadStream. now rewrite Hnone.
  - unfold diskv.Has. now rewrite Hnone.
Qed.

Lemma diskcache_Set_Get_witness :
  exists c2,
    diskcache.Get map_to_list (diskcache.Set_ (diskcache.New "cache") "k" true) "k"
      (diskv.ReadsAll (bytes_of_string "img") true)
    = Some (c2, (bytes_of_string "img", true)).
Proof.
  destruct (diskcache_Set_Get (diskcache.New "cache") "k" (bytes_of_string "img")
              true map_to_list) as [(c2 & H & _) _].
  - cbn. lia.
  - split; [reflexivity | cbn; lia].
  - intros m. reflexivity.
  - exists c2. exact H.
Defined.

(** * cache: the directives of Cache-Control *)

(** The loop of [parseCacheControl]: a name is in the map at the end when
    it was there at the start or a part of the header names it. *)
Lemma directives_names (parts : list string) :
  forall (cc : gmap string string) (k : string),
    is_Some (fold_left (fun cc part =>
                          match cache.directive part with
                          | Some (k, v) => <[k := v]> cc
                          | None => cc
                          end) parts cc !! k)
    <-> is_Some (cc !! k)
        \/ exists part v, part ∈ parts /\ cache.directive part = Some (k, v).
Proof.
  induction parts as [|p parts IH]; intros cc k; cbn [fold_left].
  - split; [now left|]. intros [H|(part & v & Hin & _)]; [exact H|].
    now apply elem_of_nil in Hin.
  - rewrite IH. split.
    + intros [H|(part & v & Hin & Hd)].
      * destruct (cache.directive p) as [[k' v']|] eqn:Hp; [|now left].
        destruct (decide (k' = k)) as [->|Hne].
        -- right. exists p, v'. split; [left | exact Hp].
        -- rewrite lookup_insert_ne in H by exact Hne. now left.
      * right. exists part, v. split; [now right | exact Hd].
    + intros [H|(part & v & Hin & Hd)].
      * left. destruct (cache.directive p) as [[k' v']|]; [|exact H].
        destruct (decide (k' = k)) as [->|Hne];
          [rewrite lookup_insert_eq; eauto | now rewrite lookup_insert_ne].
      * apply elem_of_cons in Hin as [->|Hin].
        -- left. rewrite Hd. rewrite lookup_insert_eq. eauto.
        -- right. now exists part, v.
Qed.

Lemma parseCacheControl_names (h : http.Header) (k : string) :
  is_Some (cache.parseCacheControl h !! k)
  <-> exists part v,
        part ∈ strings.Split (http.Get h "Cache-Control") ","
        /\ cache.directive part = Some (k, v).
Proof.
  unfold cache.parseCacheControl, cache.cacheControl. rewrite directives_names. split.
  - intros [H|H]; [|exact H]. rewrite lookup_empty in H. now destruct H.
  - intros H. now right.
Qed.

(** X22: what forbids storing.  A response is refused by [canStore]
    exactly when a comma-separated part of the Cache-Control header of the
    request or of the response names the directive no-store; a part names
    it when, spaces at its ends apart, it is the word itself, with any
    value behind an equals sign.  The name is compared as it is written:
    No-Store does not forbid storing. *)
Theorem canStore_no_store (req resp : http.Header) :
  (cache.canStore (cache.parseCacheControl req) (cache.parseCacheControl resp) = false
   <-> exists h part v,
         (h = req \/ h = resp)
         /\ part ∈ strings.Split (http.Get h "Cache-Control") ","
         /\ cache.directive part = Some ("no-store"%string, v))
  /\ (forall part, cache.Trim part " " = "no-store"%string ->
        cache.directive part = Some ("no-store", "")%string)
  /\ cache.directive " no-store = 1 " = Some ("no-store", " 1")%string
  /\ cache.directive "No-Store" = Some ("No-Store", "")%string
  /\ cache.directive "  " = None.
Proof.
  split; [|split; [|repeat split]].
  - unfold cache.canStore.
    pose proof (parseCacheControl_names resp "no-store") as Hresp.
    pose proof (parseCacheControl_names req "no-store") as Hreq.
    destruct (cache.parseCacheControl resp !! "no-store"%string) as [v1|].
    { split; [intros _|reflexivity].
      destruct Hresp as [(part & v & Hin & Hd) _]; [eauto|].
      exists resp, part, v. auto. }
    destruct (cache.parseCacheControl req !! "no-store"%string) as [v2|].
    { split; [intros _|reflexivity].
      destruct Hreq as [(part & v & Hin & Hd) _]; [eauto|].
      exists req, part, v. auto. }
    split; [discriminate|].
    intros (h & part & v & [-> | ->] & Hin & Hd); exfalso.
    + destruct Hreq as [_ H]. destruct H as [x Hx]; [eauto | discriminate].
    + destruct Hresp as [_ H]. destruct H as [x Hx]; [eauto | discriminate].
  - intros part H. unfold cache.directive. rewrite H. reflexivity.
Qed.
